(** * Steel cut-piece extraction and cutting-stock nesting

    A shallow embedding of the two algorithmic cores of the repository:

    - [Nesting]: the bar-nesting loop of [generate_nesting]
      (src/api/main.py), one profile group at a time.  Python floats are
      idealised as rationals ([Q]); every comparison, sum and product of the
      source is kept, loops keep their bounds, and the in-place flip of a part
      dictionary is threaded through the pool explicitly.  [math.tan] is a
      library function and enters as a section variable.
    - [Extractor]: the unit-scale classifier, the mesh length and the end-cut
      plane fit of [CutPieceExtractor] (src/api/cut_piece_extractor.py).
      The classifier only averages and compares, so it lives in [Q]; the
      geometry needs square roots and arc cosines and is stated over [R].
      The numpy decompositions ([np.linalg.svd], [np.linalg.eigh]) are
      library code: their results are arguments of the embedded functions. *)

From Stdlib Require Import QArith Qabs Qround List Bool ZArith String Sorted.
From Stdlib Require Import Lia Psatz Permutation.
From Stdlib Require Import Reals FunctionalExtensionality.
Import ListNotations.

(* ================================================================== *)
(** * Part I. Definitions                                              *)
(* ================================================================== *)

Module Nesting.

Local Open Scope Q_scope.

(** ** Float comparisons and the Python built-ins used by the loop *)

Definition Qltb (x y : Q) : bool := negb (Qle_bool y x).

(** [min(a, b)] and [max(a, b)] keep the first argument on ties. *)
Definition pymin (a b : Q) : Q := if Qltb b a then b else a.
Definition pymax (a b : Q) : Q := if Qltb a b then b else a.

(** [max(xs)] and [min(xs)] of a non-empty sequence. *)
Definition list_max (xs : list Q) : Q :=
  match xs with
  | [] => 0
  | x :: r => fold_left pymax r x
  end.

Definition list_min (xs : list Q) : Q :=
  match xs with
  | [] => 0
  | x :: r => fold_left pymin r x
  end.

(** [sum(xs)] starts from 0 and adds from the left. *)
Definition pysum (xs : list Q) : Q := fold_left Qplus xs 0.

(** [list.sort] is stable: an element is inserted behind every element
    that is not strictly after it. *)
Fixpoint insert_by {A : Type} (lt : A -> A -> bool) (x : A) (l : list A)
  : list A :=
  match l with
  | [] => [x]
  | y :: l' => if lt x y then x :: l else y :: insert_by lt x l'
  end.

Definition sort_by {A : Type} (lt : A -> A -> bool) (l : list A) : list A :=
  fold_left (fun acc x => insert_by lt x acc) l [].

(** [sorted(l, key=..., reverse=True)]. *)
Definition sort_desc {A : Type} (key : A -> Q) (l : list A) : list A :=
  sort_by (fun x y => Qltb (key y) (key x)) l.

(** What a sort establishes: no element is strictly before an earlier
    one. *)
Definition ordered {A : Type} (lt : A -> A -> bool) (l : list A) : Prop :=
  StronglySorted (fun a b => lt b a = false) l.

(** ** Data model *)

(** One entry of [parts_by_profile[...]] ([part_data]); the fields that only
    label the part in the report (names, marks, references) are left out. *)
Record Part := mkPart {
  product_id : Z;
  length : Q;
  start_angle : option Q;
  end_angle : option Q;
  start_has_slope : bool;
  end_has_slope : bool;
  start_confidence : Q;
  end_confidence : Q;
  flipped : bool
}.

(** Two part dictionaries of one request are equal exactly when they are
    the same object: [product_id] is the step id of the element. *)
Definition part_eqb (p q : Part) : bool :=
  Z.eqb (product_id p) (product_id q).

Definition part_in (p : Part) (l : list Part) : bool :=
  existsb (part_eqb p) l.

(** [l.remove(p)]: drops the first element equal to [p]. *)
Fixpoint remove_first (p : Part) (l : list Part) : list Part :=
  match l with
  | [] => []
  | q :: l' => if part_eqb q p then l' else q :: remove_first p l'
  end.

(** [for p in ps: if p in l: l.remove(p)]. *)
Definition remove_all (ps l : list Part) : list Part :=
  fold_left (fun acc p => if part_in p acc then remove_first p acc else acc)
    ps l.

(** The f-strings stored under ["reason"], kept as template and arguments. *)
Inductive Reason : Type :=
| ExceedsLongestStock (part_length longest_stock : Q)
| PatternTotalExceeds (current_length stock : Q)
| PatternPartsExceed (total_parts_length stock : Q)
| PatternCalculationError (current_length total_parts_length : Q)
| ExceedsSelectedStock (part_length stock : Q).

(** A piece of rendered text: a literal, or a number with its number of
    printed decimals ([:.1f], [:.0f]). *)
Inductive Fragment : Type :=
| Lit (s : String.string)
| Num (value : Q) (decimals : nat).

Record Rejected := mkRejected {
  rj_product_id : Z;
  rj_length : Q;
  rj_stock_length : Q;
  rj_reason : Reason
}.

Record SlopeInfo := mkSlopeInfo {
  si_start_angle : option Q;
  si_end_angle : option Q;
  si_start_has_slope : bool;
  si_end_has_slope : bool
}.

(** One entry of [pattern_parts].  [pp_pair] is set for the two members of
    a pair placed by the pairing step; the display flag the source copies
    from its chain pre-pass for the other parts is not modelled. *)
Record Placement := mkPlacement {
  pp_part : Part;
  pp_cut_position : Q;
  pp_length : Q;
  pp_slope_info : SlopeInfo;
  pp_pair : bool
}.

(** One entry of [cutting_patterns].  [consumed_length] is the value of
    [current_length] when the pattern is appended; the source uses it to
    compute [waste] and does not store it. *)
Record CuttingPattern := mkPattern {
  stock_length : Q;
  parts : list Placement;
  waste : Q;
  waste_percentage : Q;
  consumed_length : Q
}.

(** The per-bar variables of one iteration of the [while] loop. *)
Record Bar := mkBar {
  pattern_parts : list Placement;
  current_length : Q;
  total_parts_length : Q;
  cut_position : Q;
  parts_to_remove : list Part
}.

Definition tolerance_mm : Q := 0.1.

(** ** Oversize rejection (main.py 2788-2831) *)

Definition oversize_entry (longest_stock : Q) (p : Part) : Rejected :=
  mkRejected (product_id p) (length p) longest_stock
    (ExceedsLongestStock (length p) longest_stock).

(** Returns the pool without the oversized parts and the extended
    [rejected_parts]. *)
Definition reject_oversized (stock_lengths_list : list Q)
  (remaining_parts : list Part) (rejected_parts : list Rejected)
  : list Part * list Rejected :=
  let largest_part_length := list_max (map length remaining_parts) in
  let longest_stock := list_max stock_lengths_list in
  if Qltb longest_stock largest_part_length then
    let oversized_parts :=
      filter (fun p => Qltb longest_stock (length p)) remaining_parts in
    (remove_all oversized_parts remaining_parts,
     rejected_parts ++ map (oversize_entry longest_stock) oversized_parts)
  else (remaining_parts, rejected_parts).

(** ** Stock-length selection (main.py 2833-2966) *)

Definition waste_pct (waste stock_len : Q) : Q :=
  if Qltb 0 stock_len then waste / stock_len * 100 else 0.

(** [(stock_len, waste, waste_pct)] tuples. *)
Definition StockCandidate : Type := (Q * Q * Q)%type.

Definition cand_stock (c : StockCandidate) : Q := fst (fst c).

(** Order of [sort(key=lambda x: (-x[0], x[1]))]. *)
Definition candidate_lt (a b : StockCandidate) : bool :=
  let '(s1, w1, _) := a in
  let '(s2, w2, _) := b in
  Qltb (- s1) (- s2) || (Qeq_bool (- s1) (- s2) && Qltb w1 w2).

(** [all_fit_together_in_stock and all_parts_individually_fit_stock]. *)
Definition all_fit_in_stock (remaining_parts : list Part) (stock_len : Q)
  : bool :=
  let total_length_all_remaining := pysum (map length remaining_parts) in
  let all_fit_together_in_stock :=
    Qle_bool total_length_all_remaining stock_len in
  let all_parts_individually_fit_stock :=
    forallb (fun p => Qle_bool (length p) stock_len) remaining_parts in
  all_fit_together_in_stock && all_parts_individually_fit_stock.

Definition candidate_stocks (stock_lengths_list : list Q)
  (remaining_parts : list Part) : list StockCandidate :=
  let total_length_all_remaining := pysum (map length remaining_parts) in
  flat_map
    (fun stock_len =>
       if all_fit_in_stock remaining_parts stock_len then
         let waste := stock_len - total_length_all_remaining in
         [(stock_len, waste, waste_pct waste stock_len)]
       else [])
    (sort_desc (fun s => s) stock_lengths_list).

Definition candidate_for_largest (stock_lengths_list : list Q)
  (largest_part_length : Q) : list StockCandidate :=
  flat_map
    (fun stock_len =>
       if Qle_bool largest_part_length stock_len then
         let waste_for_largest := stock_len - largest_part_length in
         [(stock_len, waste_for_largest,
           waste_pct waste_for_largest stock_len)]
       else [])
    (sort_desc (fun s => s) stock_lengths_list).

(** [None] is the [break] of the source when no stock fits the largest
    part. *)
Definition select_best_stock (stock_lengths_list : list Q)
  (remaining_parts : list Part) : option Q :=
  let largest_part_length := list_max (map length remaining_parts) in
  let total_length_all_remaining := pysum (map length remaining_parts) in
  match sort_by candidate_lt
          (candidate_stocks stock_lengths_list remaining_parts) with
  | c0 :: cs =>
      if (1 <? List.length (c0 :: cs))%nat then
        let longer_stock := cand_stock c0 in
        let shorter_stock := cand_stock (last cs c0) in
        if Qle_bool total_length_all_remaining shorter_stock
        then Some shorter_stock
        else Some longer_stock
      else Some (cand_stock c0)
  | [] =>
      match sort_by candidate_lt
              (candidate_for_largest stock_lengths_list
                 largest_part_length) with
      | c0 :: _ => Some (cand_stock c0)
      | [] => None
      end
  end.

(** ** Complementary pairing (main.py 3086-3593) *)

(** [math.pi], the double nearest to pi, as the rational it is. *)
Definition math_pi : Q := 884279719003555 # 281474976710656.

Inductive PairingType : Type :=
| start_end
| end_start
| end_end
| start_start.

(** Angles in the 60-120 range are read as measured from the axis. *)
Definition deviation (angle : Q) : Q :=
  let abs_angle := Qabs angle in
  if Qle_bool 60 abs_angle && Qle_bool abs_angle 120
  then Qabs (angle - 90)
  else abs_angle.

(** [partN_*_low_conf_slope]. *)
Definition low_conf_slope (angle : option Q) (has_slope : bool)
  (conf : Q) : bool :=
  match angle with
  | Some a =>
      if negb has_slope
      then Qltb 5 (deviation a) && (Qltb 0.2 conf && Qle_bool conf 0.5)
      else false
  | None => false
  end.

Definition start_slope_any (p : Part) : bool :=
  start_has_slope p
  || low_conf_slope (start_angle p) (start_has_slope p) (start_confidence p).

Definition end_slope_any (p : Part) : bool :=
  end_has_slope p
  || low_conf_slope (end_angle p) (end_has_slope p) (end_confidence p).

(** [angle_diff < 5.0 and angle1_abs > 1.0]. *)
Definition significant_match (angle1 angle2 : Q) : bool :=
  let angle1_abs := Qabs angle1 in
  let angle2_abs := Qabs angle2 in
  let angle_diff := Qabs (angle1_abs - angle2_abs) in
  Qltb angle_diff 5 && Qltb 1 angle1_abs.

Definition opposite_signs (a b : Q) : bool :=
  (Qltb 0 a && Qltb b 0) || (Qltb a 0 && Qltb 0 b).

(** One of the cases of the complementarity test. *)
Definition pairing_case (slope1 slope2 : bool) (angle1 angle2 : option Q)
  (extra : Q -> Q -> bool) (t : PairingType) : option PairingType :=
  if slope1 && slope2 then
    match angle1, angle2 with
    | Some a, Some b =>
        if significant_match a b && extra a b then Some t else None
    | _, _ => None
    end
  else None.

Definition or_else {A : Type} (o : option A) (k : option A) : option A :=
  match o with
  | Some x => Some x
  | None => k
  end.

(** [is_complementary] together with [pairing_type]: cases 1, 2, 2b and the
    two tries of case 3, in the order of the source. *)
Definition find_pairing (part1 part2 : Part) : option PairingType :=
  let always := fun _ _ : Q => true in
  or_else (pairing_case (start_slope_any part1) (end_slope_any part2)
             (start_angle part1) (end_angle part2) always start_end)
 (or_else (pairing_case (end_slope_any part1) (start_slope_any part2)
             (end_angle part1) (start_angle part2) always end_start)
 (or_else (pairing_case (end_slope_any part1) (end_slope_any part2)
             (end_angle part1) (end_angle part2) always end_end)
 (or_else (pairing_case (start_slope_any part1) (start_slope_any part2)
             (start_angle part1) (start_angle part2) opposite_signs
             start_start)
          (pairing_case (end_slope_any part1) (end_slope_any part2)
             (end_angle part1) (end_angle part2) always end_end)))).

(** [angle1_val] and [angle2_val] of the chosen pairing. *)
Definition paired_angles (t : PairingType) (part1 part2 : Part)
  : option Q * option Q :=
  match t with
  | end_start => (end_angle part1, start_angle part2)
  | start_end => (start_angle part1, end_angle part2)
  | end_end => (end_angle part1, end_angle part2)
  | start_start => (start_angle part1, start_angle part2)
  end.

Definition angle_for_calculation (t : PairingType) (part1 part2 : Part)
  : option Q :=
  let '(angle1_val, angle2_val) := paired_angles t part1 part2 in
  or_else angle1_val angle2_val.

Section Profile.

(** What is fixed while one profile group is nested: [math.tan], the depth
    the profile name stands for ([_get_estimated_profile_depth]) and the
    parsed stock lengths. *)
Variable tan : Q -> Q.
Variable estimated_profile_depth : Q.
Variable stock_lengths_list : list Q.

(** [(shared_linear_slopes_length, combined_length)] of a pair
    (main.py 3337-3380). *)
Definition pair_lengths (length1 length2 : Q) (angle : option Q) : Q * Q :=
  match angle with
  | Some a =>
      if Qltb 1 (Qabs a) then
        let angle_rad := Qabs a * (math_pi / 180) in
        let shared :=
          if Qltb 0.01 angle_rad then
            let s := estimated_profile_depth * tan angle_rad in
            let max_shared := pymin length1 length2 * 0.9 in
            if Qltb max_shared s then max_shared else s
          else 0 in
        let combined_length := length1 + length2 - shared in
        if Qltb combined_length 0 then
          let max_shared := pymin length1 length2 * 0.5 in
          if Qltb max_shared shared
          then (max_shared, length1 + length2 - max_shared)
          else (shared, combined_length)
        else (shared, combined_length)
      else (0, length1 + length2)
  | None => (0, length1 + length2)
  end.

(** [best_stock_for_pair]: the first stock, longest first, that holds the
    pair; a stock the pair exceeds by less than the tolerance is skipped. *)
Fixpoint find_stock_for_pair (stocks_desc : list Q) (combined_length : Q)
  : option Q :=
  match stocks_desc with
  | [] => None
  | stock_len :: rest =>
      if Qle_bool combined_length (stock_len + tolerance_mm) then
        if Qltb stock_len combined_length
        then find_stock_for_pair rest combined_length
        else Some stock_len
      else find_stock_for_pair rest combined_length
  end.

(** Truth value of [best_stock_for_pair] in [if best_stock_for_pair:]. *)
Definition truthy (o : option Q) : bool :=
  match o with
  | Some s => negb (Qeq_bool s 0)
  | None => false
  end.

Definition pair_slope_info (p : Part) : SlopeInfo :=
  mkSlopeInfo (start_angle p) (end_angle p)
    (start_slope_any p) (end_slope_any p).

(** [pattern_parts = [pp for pp in pattern_parts
                      if pp.get("part") not in [part1, part2]]]. *)
Definition drop_pair (part1 part2 : Part) (pps : list Placement)
  : list Placement :=
  filter (fun pp => negb (part_in (pp_part pp) [part1; part2])) pps.

(** How the body of the inner pairing loop ends. *)
Inductive Flow : Type :=
| Continue
| Break.

(** The body of the inner loop once [part1] and [part2] are found
    complementary (main.py 3252-3593), for the bar under construction. *)
Definition pair_step (best_stock : Q) (t : PairingType)
  (part1 part2 : Part) (bar : Bar) : Bar * Flow :=
  let length1 := length part1 in
  let length2 := length part2 in
  let '(shared_linear_slopes_length, combined_length) :=
    pair_lengths length1 length2 (angle_for_calculation t part1 part2) in
  let best_stock_for_pair :=
    find_stock_for_pair (sort_desc (fun s => s) stock_lengths_list)
      combined_length in
  let stock_to_use :=
    match best_stock_for_pair with
    | Some s =>
        if truthy best_stock_for_pair
           && Qeq_bool (current_length bar) 0
           && negb (Qle_bool combined_length best_stock)
        then s else best_stock
    | None => best_stock
    end in
  if Qltb (best_stock + tolerance_mm) (current_length bar) then (bar, Break)
  else
    let fits_pair_stock :=
      match best_stock_for_pair with
      | Some s =>
          truthy best_stock_for_pair
          && Qle_bool combined_length (s + tolerance_mm)
      | None => false
      end in
    if negb fits_pair_stock then (bar, Continue)
    else if Qltb stock_to_use combined_length then (bar, Continue)
    else
      let room : option Flow :=
        if Qeq_bool (current_length bar) 0 then None
        else if Qle_bool (current_length bar + combined_length)
                  (best_stock + tolerance_mm)
        then if Qltb best_stock (current_length bar + combined_length)
             then Some Continue else None
        else Some Break in
      match room with
      | Some flow => (bar, flow)
      | None =>
          let length_after_pair := current_length bar + combined_length in
          if Qltb (best_stock + tolerance_mm) length_after_pair
          then (bar, Continue)
          else
            let length_before_pair := current_length bar in
            let cut1 := cut_position bar + length part1 in
            let part2_cut_position := cut1 - shared_linear_slopes_length in
            let placed :=
              pattern_parts bar
              ++ [mkPlacement part1 (cut_position bar) (length part1)
                    (pair_slope_info part1) true;
                  mkPlacement part2 part2_cut_position (length part2)
                    (pair_slope_info part2) true] in
            let cut2 := part2_cut_position + length part2 in
            let new_length := length_before_pair + combined_length in
            let undone :=
              mkBar (drop_pair part1 part2 placed) length_before_pair
                (total_parts_length bar) length_before_pair
                (parts_to_remove bar) in
            let epsilon := 0.01 in
            if Qltb (best_stock + epsilon) new_length then (undone, Continue)
            else if Qltb best_stock new_length then (undone, Continue)
            else if Qltb (best_stock + tolerance_mm) new_length
            then (undone, Continue)
            else
              (* the source repeats the last test three more times *)
              (mkBar placed new_length
                 (total_parts_length bar + (length part1 + length part2))
                 cut2 (parts_to_remove bar ++ [part1; part2]),
               Break)
      end.

(** The inner loop over [valid_parts_for_this_stock[i+1:]]. *)
Fixpoint pair_inner (best_stock : Q) (part1 : Part) (candidates : list Part)
  (bar : Bar) : Bar :=
  match candidates with
  | [] => bar
  | part2 :: rest =>
      if part_in part2 (parts_to_remove bar)
      then pair_inner best_stock part1 rest bar
      else
        match find_pairing part1 part2 with
        | None => pair_inner best_stock part1 rest bar
        | Some t =>
            match pair_step best_stock t part1 part2 bar with
            | (bar', Continue) => pair_inner best_stock part1 rest bar'
            | (bar', Break) => bar'
            end
        end
  end.

(** The outer loop over [valid_parts_for_this_stock]. *)
Fixpoint pair_outer (best_stock : Q) (valid : list Part) (bar : Bar) : Bar :=
  match valid with
  | [] => bar
  | part1 :: rest =>
      if Qltb (best_stock + tolerance_mm) (current_length bar) then bar
      else if part_in part1 (parts_to_remove bar)
      then pair_outer best_stock rest bar
      else if negb (start_slope_any part1 || end_slope_any part1)
      then pair_outer best_stock rest bar
      else pair_outer best_stock rest (pair_inner best_stock part1 rest bar)
  end.

Definition pair_search (best_stock : Q)
  (valid_parts_for_this_stock : list Part) (bar : Bar) : Bar :=
  if (2 <=? List.length valid_parts_for_this_stock)%nat
  then pair_outer best_stock valid_parts_for_this_stock bar
  else bar.

(** ** Ordering of the candidates of a bar (main.py 3601-3896) *)

(** The flush test of the ordering and of the look-ahead: both ends
    square, or both sloped with absolute angles within 2 degrees. *)
Definition can_flush (prev_end_slope : bool) (prev_end_angle : option Q)
  (p_start_slope : bool) (p_start_angle : option Q) : bool :=
  if negb prev_end_slope && negb p_start_slope then true
  else if prev_end_slope && p_start_slope then
    match prev_end_angle, p_start_angle with
    | Some a, Some b => Qle_bool (Qabs (Qabs a - Qabs b)) 2
    | _, _ => false
    end
  else false.

(** State of one simulated bar of the look-ahead. *)
Record Sim := mkSim {
  simulated_length : Q;
  simulated_parts : list Part;
  prev_end_slope : bool;
  prev_end_angle : option Q
}.

(** The [while parts_added < max_parts_to_try] loop; [fuel] is
    [max_parts_to_try - parts_added]. *)
Fixpoint simulate_fill (fuel : nat) (best_stock : Q)
  (simulated_remaining_sorted : list Part) (sim : Sim) : Sim :=
  match fuel, simulated_remaining_sorted with
  | O, _ => sim
  | _, [] => sim
  | S fuel', _ =>
      let pending :=
        filter (fun p => negb (part_in p (simulated_parts sim)))
          simulated_remaining_sorted in
      let '(can_flush_now, cannot_flush_now) :=
        partition
          (fun p =>
             can_flush (prev_end_slope sim) (prev_end_angle sim)
               (start_has_slope p) (start_angle p)
             || can_flush (prev_end_slope sim) (prev_end_angle sim)
                  (end_has_slope p) (end_angle p))
          pending in
      match can_flush_now ++ cannot_flush_now with
      | [] => sim
      | next_part :: _ =>
          let kerf := if part_in next_part can_flush_now then 0 else 3 in
          let new_length :=
            simulated_length sim + length next_part + kerf in
          if Qle_bool new_length best_stock then
            simulate_fill fuel' best_stock simulated_remaining_sorted
              (mkSim new_length (simulated_parts sim ++ [next_part])
                 (end_has_slope next_part) (end_angle next_part))
          else sim
      end
  end.

(** The simulated bar that starts with [trial_start_part]. *)
Definition simulate (best_stock : Q) (parts_to_consider : list Part)
  (trial_start_part : Part) : Sim :=
  let simulated_remaining :=
    filter (fun p => negb (part_eqb p trial_start_part))
      parts_to_consider in
  let '(can_flush_sim, cannot_flush_sim) :=
    partition
      (fun p =>
         can_flush (end_has_slope trial_start_part)
           (end_angle trial_start_part)
           (start_has_slope p) (start_angle p))
      simulated_remaining in
  simulate_fill 10 best_stock
    (sort_desc length can_flush_sim ++ sort_desc length cannot_flush_sim)
    (mkSim (length trial_start_part) [trial_start_part]
       (end_has_slope trial_start_part) (end_angle trial_start_part)).

(** [best_waste] starts at infinity, [best_configuration] at [None]. *)
Definition better_configuration (best : option (Q * list Part))
  (waste : Q) (simulated : list Part) : bool :=
  match best with
  | None => true
  | Some (best_waste, best_configuration) =>
      Qltb waste best_waste
      || (match best_configuration with
          | [] => false
          | _ :: _ =>
              Qltb (Qabs (waste - best_waste)) 10
              && (List.length best_configuration
                  <? List.length simulated)%nat
          end)
  end.

(** The look-ahead branch, taken with at least three parts to consider. *)
Definition lookahead (best_stock : Q) (remaining_parts_sorted : list Part)
  : list Part :=
  let parts_to_consider :=
    if (20 <? List.length remaining_parts_sorted)%nat
    then firstn 20 remaining_parts_sorted
    else remaining_parts_sorted in
  let candidates_to_try := Nat.min 5 (List.length parts_to_consider) in
  let straight_start_parts :=
    filter (fun p => negb (start_has_slope p)) parts_to_consider in
  let slope_start_parts :=
    filter (fun p => start_has_slope p) parts_to_consider in
  let candidates :=
    firstn candidates_to_try
      (firstn candidates_to_try straight_start_parts
       ++ slope_start_parts) in
  let best :=
    fold_left
      (fun best trial_start_part =>
         let sim := simulate best_stock parts_to_consider trial_start_part in
         let waste := best_stock - simulated_length sim in
         if better_configuration best waste (simulated_parts sim)
         then Some (waste, simulated_parts sim)
         else best)
      candidates None in
  match best with
  | Some (_, (_ :: _) as best_configuration) =>
      best_configuration
      ++ sort_desc length
           (filter (fun p => negb (part_in p best_configuration))
              remaining_parts_sorted)
  | _ => remaining_parts_sorted
  end.

(** [flush_score] of a candidate first part: how many other parts could
    follow it without kerf, or -1000 when its own start is sloped. *)
Definition flush_score (candidate_idx : nat) (candidate : Part)
  (remaining_parts_sorted : list Part) : Z :=
  if start_has_slope candidate then (-1000)%Z
  else
    fold_left
      (fun score io =>
         let '(other_idx, other) := io in
         if (candidate_idx =? other_idx)%nat then score
         else if can_flush (end_has_slope candidate) (end_angle candidate)
                   (start_has_slope other) (start_angle other)
         then (score + 1)%Z else score)
      (combine (seq 0 (List.length remaining_parts_sorted))
         remaining_parts_sorted)
      0%Z.

(** [(best_start_part, best_flush_score)] after the scan. *)
Definition best_start (remaining_parts_sorted : list Part)
  : option Part * Z :=
  fold_left
    (fun best ic =>
       let '(best_start_part, best_flush_score) := best in
       let '(candidate_idx, candidate) := ic in
       let score :=
         flush_score candidate_idx candidate remaining_parts_sorted in
       if (best_flush_score <? score)%Z
          || ((score =? best_flush_score)%Z
              && match best_start_part with
                 | None => true
                 | Some b => Qltb (length b) (length candidate)
                 end)
       then (Some candidate, score)
       else best)
    (combine (seq 0 (List.length remaining_parts_sorted))
       remaining_parts_sorted)
    (None, (-1)%Z).

(** Ordering for an empty pattern. *)
Definition order_for_empty_pattern (best_stock : Q)
  (remaining_parts_sorted : list Part) : list Part :=
  let parts_to_consider :=
    if (20 <? List.length remaining_parts_sorted)%nat
    then firstn 20 remaining_parts_sorted
    else remaining_parts_sorted in
  if (3 <=? List.length parts_to_consider)%nat then
    lookahead best_stock remaining_parts_sorted
  else if (List.length remaining_parts_sorted <=? 50)%nat then
    match best_start remaining_parts_sorted with
    | (Some best_start_part, best_flush_score) =>
        if (0 <? best_flush_score)%Z
        then best_start_part
             :: remove_first best_start_part remaining_parts_sorted
        else sort_desc length remaining_parts_sorted
    | (None, _) => sort_desc length remaining_parts_sorted
    end
  else sort_desc length remaining_parts_sorted.

(** Does the sloped end of [p] meet a sloped start among the others? *)
Definition has_complement (p : Part) (remaining_parts_sorted : list Part)
  : bool :=
  existsb
    (fun other =>
       negb (part_eqb p other)
       && start_has_slope other
       && match end_angle p, start_angle other with
          | Some a, Some b => Qle_bool (Qabs (Qabs a - Qabs b)) 2
          | _, _ => false
          end)
    remaining_parts_sorted.

(** Ordering behind an already placed part: flushable parts, then the
    others, then the parts whose sloped end has no partner. *)
Definition order_after (prev_part : Placement)
  (remaining_parts_sorted : list Part) : list Part :=
  let prev_end_has_slope := si_end_has_slope (pp_slope_info prev_part) in
  let prev_end_angle := si_end_angle (pp_slope_info prev_part) in
  let '(can_flush_parts, cannot_flush) :=
    partition
      (fun p =>
         can_flush prev_end_has_slope prev_end_angle
           (start_has_slope p) (start_angle p))
      remaining_parts_sorted in
  let '(cannot_flush_with_unpaired_end, cannot_flush_normal) :=
    partition
      (fun p =>
         end_has_slope p && negb (has_complement p remaining_parts_sorted))
      cannot_flush in
  sort_desc length can_flush_parts
  ++ sort_desc length cannot_flush_normal
  ++ sort_desc length cannot_flush_with_unpaired_end.

Definition last_placement (pps : list Placement) : option Placement :=
  match rev pps with
  | [] => None
  | pp :: _ => Some pp
  end.

Definition order_candidates (best_stock : Q) (pps : list Placement)
  (remaining_parts_sorted : list Part) : list Part :=
  match pps, remaining_parts_sorted with
  | [], _ :: _ => order_for_empty_pattern best_stock remaining_parts_sorted
  | _, _ =>
      match last_placement pps, remaining_parts_sorted with
      | Some prev_part, _ :: _ => order_after prev_part remaining_parts_sorted
      | _, _ => sort_desc length remaining_parts_sorted
      end
  end.

(** ** Greedy fill (main.py 3898-4061) *)

(** The flush test of the fill: both ends square, or both sloped with
    absolute angles within 2 degrees and of opposite sign. *)
Definition can_share (prev_end_has_slope : bool) (prev_end_angle : option Q)
  (curr_start_has_slope : bool) (curr_start_angle : option Q) : bool :=
  if negb prev_end_has_slope && negb curr_start_has_slope then true
  else if prev_end_has_slope && curr_start_has_slope then
    match prev_end_angle, curr_start_angle with
    | Some a, Some b =>
        Qle_bool (Qabs (Qabs a - Qabs b)) 2 && opposite_signs a b
    | _, _ => false
    end
  else false.

(** The in-place swap of the start and end keys of a part. *)
Definition flip (part : Part) : Part :=
  mkPart (product_id part) (length part)
    (end_angle part) (start_angle part)
    (end_has_slope part) (start_has_slope part)
    (start_confidence part) (end_confidence part) true.

Definition kerf_allowance : Q := 3.

(** Whether the part is flipped before it is placed, and [kerf_mm]. *)
Definition boundary (pps : list Placement) (part : Part) : bool * Q :=
  match last_placement pps with
  | None => (false, 0)
  | Some prev_part =>
      let prev_end_has_slope := si_end_has_slope (pp_slope_info prev_part) in
      let prev_end_angle := si_end_angle (pp_slope_info prev_part) in
      if can_share prev_end_has_slope prev_end_angle
           (start_has_slope part) (start_angle part)
      then (false, 0)
      else if can_share prev_end_has_slope prev_end_angle
                (end_has_slope part) (end_angle part)
      then (true, 0)
      else (false, kerf_allowance)
  end.

Definition part_slope_info (p : Part) : SlopeInfo :=
  mkSlopeInfo (start_angle p) (end_angle p)
    (start_has_slope p) (end_has_slope p).

(** The part dictionary is shared by every list that holds it: a flip is
    seen by the pool as well. *)
Definition update_pool (part : Part) (pool : list Part) : list Part :=
  map (fun q => if part_eqb q part then part else q) pool.

(** The [for part in remaining_parts_sorted] loop.  Returns the bar and
    the pool with the flips made on the way. *)
Fixpoint fill (best_stock : Q) (valid_parts_for_this_stock : list Part)
  (remaining_parts_sorted : list Part) (bar : Bar) (pool : list Part)
  : Bar * list Part :=
  match remaining_parts_sorted with
  | [] => (bar, pool)
  | part :: rest =>
      if part_in part (parts_to_remove bar)
      then fill best_stock valid_parts_for_this_stock rest bar pool
      else if negb (part_in part valid_parts_for_this_stock)
      then fill best_stock valid_parts_for_this_stock rest bar pool
      else if Qltb (best_stock + tolerance_mm) (current_length bar)
      then (bar, pool)
      else
        let part_length := length part in
        let '(flip_it, kerf_mm) := boundary (pattern_parts bar) part in
        let placed_part := if flip_it then flip part else part in
        let pool' := if flip_it then update_pool placed_part pool else pool in
        let new_length := current_length bar + part_length + kerf_mm in
        if Qltb (best_stock + tolerance_mm) new_length
        then fill best_stock valid_parts_for_this_stock rest bar pool'
        else
          let bar' :=
            mkBar
              (pattern_parts bar
               ++ [mkPlacement placed_part (cut_position bar) part_length
                     (part_slope_info placed_part) false])
              new_length
              (total_parts_length bar + part_length)
              (cut_position bar + (part_length + kerf_mm))
              (parts_to_remove bar ++ [placed_part]) in
          let tolerance_mm_check := 0.1 in
          if Qltb (best_stock + tolerance_mm_check) new_length then
            (mkBar
               (filter (fun pp => negb (part_eqb (pp_part pp) placed_part))
                  (pattern_parts bar'))
               (new_length - (part_length + kerf_mm))
               (total_parts_length bar' - part_length)
               (cut_position bar')
               (remove_first placed_part (parts_to_remove bar')),
             pool')
          else if Qle_bool (Qabs (new_length - best_stock))
                    tolerance_mm_check
          then (bar', pool')
          else fill best_stock valid_parts_for_this_stock rest bar' pool'
  end.

(** ** Validation and emission (main.py 4063-4301) *)

Definition reject_pattern (reason : Reason) (stock : Q)
  (pps : list Placement) : list Rejected :=
  map (fun pp =>
         mkRejected (product_id (pp_part pp)) (pp_length pp) stock reason)
    pps.

(** The state of the [while] loop. *)
Record Loop := mkLoop {
  remaining_parts : list Part;
  cutting_patterns : list CuttingPattern;
  rejected_parts : list Rejected
}.

(** Everything behind the fill: [Continue] stands for reaching the end of
    the loop body or a [continue]. *)
Definition validate (best_stock : Q) (bar : Bar) (remaining : list Part)
  (patterns : list CuttingPattern) (rejected : list Rejected) : Loop :=
  let pps := pattern_parts bar in
  match pps with
  | [] => mkLoop remaining patterns rejected
  | _ :: _ =>
      let invalid_parts :=
        filter (fun pp => Qltb best_stock (pp_length pp)) pps in
      let tolerance_mm_validate := 0.1 in
      let has_shared_boundaries :=
        Qltb (current_length bar)
          (total_parts_length bar - tolerance_mm_validate) in
      let without_pattern := remove_all (map pp_part pps) remaining in
      let max_expected_kerf :=
        inject_Z (Z.of_nat (List.length pps) - 1) * 3 in
      if Qltb (best_stock + tolerance_mm_validate) (current_length bar) then
        mkLoop without_pattern patterns
          (rejected
           ++ reject_pattern
                (PatternTotalExceeds (current_length bar) best_stock)
                best_stock pps)
      else if negb has_shared_boundaries
              && Qltb (best_stock + tolerance_mm_validate)
                   (total_parts_length bar) then
        mkLoop without_pattern patterns
          (rejected
           ++ reject_pattern
                (PatternPartsExceed (total_parts_length bar) best_stock)
                best_stock pps)
      else if Qltb (total_parts_length bar + max_expected_kerf + 10)
                (current_length bar) then
        mkLoop without_pattern patterns
          (rejected
           ++ reject_pattern
                (PatternCalculationError (current_length bar)
                   (total_parts_length bar))
                best_stock pps)
      else
        match invalid_parts with
        | _ :: _ =>
            mkLoop without_pattern patterns
              (rejected
               ++ map (fun pp =>
                         mkRejected (product_id (pp_part pp)) (pp_length pp)
                           best_stock
                           (ExceedsSelectedStock (pp_length pp) best_stock))
                    invalid_parts)
        | [] =>
            let actual_material_used :=
              pymin (current_length bar) best_stock in
            let waste := best_stock - actual_material_used in
            mkLoop remaining
              (patterns
               ++ [mkPattern best_stock pps waste
                     (waste_pct waste best_stock) (current_length bar)])
              rejected
        end
  end.

(** ** The [while] loop (main.py 2775-4301) *)

Definition empty_bar : Bar := mkBar [] 0 0 0 [].

(** One pass through the body of the loop, for a non-empty pool. *)
Definition iteration (st : Loop) : Loop * Flow :=
  let '(remaining, rejected) :=
    reject_oversized stock_lengths_list (remaining_parts st)
      (rejected_parts st) in
  let patterns := cutting_patterns st in
  match remaining with
  | [] => (mkLoop remaining patterns rejected, Break)
  | _ :: _ =>
      match select_best_stock stock_lengths_list remaining with
      | None => (mkLoop remaining patterns rejected, Break)
      | Some best_stock =>
          match filter (fun p => Qle_bool (length p) best_stock)
                  remaining with
          | [] => (mkLoop remaining patterns rejected, Break)
          | (_ :: _) as fitting =>
              let valid_parts_for_this_stock := sort_desc length fitting in
              let paired :=
                pair_search best_stock valid_parts_for_this_stock
                  empty_bar in
              let remaining_parts_sorted :=
                order_candidates best_stock (pattern_parts paired)
                  (filter
                     (fun p => negb (part_in p (parts_to_remove paired)))
                     valid_parts_for_this_stock) in
              let '(bar, pool) :=
                fill best_stock valid_parts_for_this_stock
                  remaining_parts_sorted paired remaining in
              let remaining' := remove_all (parts_to_remove bar) pool in
              match parts_to_remove bar, remaining' with
              | [], [] => (mkLoop remaining' patterns rejected, Break)
              | [], first_part :: others =>
                  if Qltb best_stock (length first_part)
                  then (validate best_stock bar others patterns rejected,
                        Continue)
                  else (mkLoop remaining' patterns rejected, Break)
              | _ :: _, _ =>
                  (validate best_stock bar remaining' patterns rejected,
                   Continue)
              end
          end
      end
  end.

(** [while remaining_parts and iteration_count < max_iterations]. *)
Fixpoint nesting_loop (fuel : nat) (st : Loop) : Loop :=
  match fuel, remaining_parts st with
  | O, _ => st
  | _, [] => st
  | S fuel', _ :: _ =>
      match iteration st with
      | (st', Continue) => nesting_loop fuel' st'
      | (st', Break) => st'
      end
  end.

Definition max_iterations (parts : list Part) : nat :=
  Nat.min (List.length parts * 3) 500.

(** The nesting of one profile group: [parts] are the entries of
    [parts_by_profile[profile_name]]. *)
Definition nest_profile (parts : list Part) : Loop :=
  nesting_loop (max_iterations parts) (mkLoop parts [] []).

End Profile.

(** ** Notions used in the statements *)

(** A placement records the length of the part it places. *)
Definition placement_wf (pp : Placement) : Prop :=
  pp_length pp = length (pp_part pp).

Definition bar_wf (bar : Bar) : Prop :=
  Forall placement_wf (pattern_parts bar).

(** What the validation establishes for a pattern it lets through. *)
Definition pattern_sound (stock_lengths_list : list Q)
  (pat : CuttingPattern) : Prop :=
  In (stock_length pat) stock_lengths_list
  /\ consumed_length pat <= stock_length pat + tolerance_mm
  /\ waste pat
     = stock_length pat - pymin (consumed_length pat) (stock_length pat)
  /\ Forall
       (fun pp => placement_wf pp /\ pp_length pp <= stock_length pat)
       (parts pat).

(** The rendering of a reason: literals and formatted numbers. *)
Definition reason_text (r : Reason) : list Fragment :=
  match r with
  | ExceedsLongestStock part_length longest_stock =>
      [Lit "Part length ("%string; Num part_length 1;
       Lit "mm) exceeds longest available stock ("%string; Num longest_stock 0;
       Lit "mm)"%string]
  | PatternTotalExceeds current stock =>
      [Lit "Pattern total length ("%string; Num current 1;
       Lit "mm) exceeds stock ("%string; Num stock 0; Lit "mm)"%string]
  | PatternPartsExceed total stock =>
      [Lit "Pattern total parts length ("%string; Num total 1;
       Lit "mm) exceeds stock ("%string; Num stock 0;
       Lit "mm) - no shared boundaries"%string]
  | PatternCalculationError current total =>
      [Lit "Pattern calculation error: current_length ("%string; Num current 1;
       Lit "mm) unreasonably exceeds total_parts_length ("%string; Num total 1;
       Lit "mm)"%string]
  | ExceedsSelectedStock part_length stock =>
      [Lit "Part length ("%string; Num part_length 1;
       Lit "mm) exceeds selected stock ("%string; Num stock 0; Lit "mm)"%string]
  end.

(** The condition under which the fill puts two placements against each
    other without kerf: both touching ends square, or both sloped with
    absolute angles within 2 degrees and of opposite sign. *)
Definition flush_boundary (prev_end_has_slope : bool)
  (prev_end_angle : option Q) (start_has_slope : bool)
  (start_angle : option Q) : Prop :=
  (prev_end_has_slope = false /\ start_has_slope = false)
  \/ (prev_end_has_slope = true /\ start_has_slope = true
      /\ exists a b,
           prev_end_angle = Some a /\ start_angle = Some b
           /\ Qabs (Qabs a - Qabs b) <= 2
           /\ ((0 < a /\ b < 0) \/ (a < 0 /\ 0 < b))).

(** The first pattern of a report. *)
Definition first_pattern (st : Loop) : CuttingPattern :=
  hd (mkPattern 0 [] 0 0 0) (cutting_patterns st).

(** ** Sample inputs *)

(** A part with two square ends, as fitted: angle 0, full confidence. *)
Definition square_part (id : Z) (len : Q) : Part :=
  mkPart id len (Some 0) (Some 0) false false 1 1 false.

(** A part with a square start and an end mitred at [angle] degrees. *)
Definition mitred_end_part (id : Z) (len angle : Q) : Part :=
  mkPart id len (Some 0) (Some angle) false true 1 1 false.

(** A part with a start mitred at [angle] degrees and a square end. *)
Definition mitred_start_part (id : Z) (len angle : Q) : Part :=
  mkPart id len (Some angle) (Some 0) true false 1 1 false.

(** A part mitred at both ends. *)
Definition mitred_part (id : Z) (len angle_start angle_end : Q) : Part :=
  mkPart id len (Some angle_start) (Some angle_end) true true 1 1 false.

(** A tangent for inputs without mitres, and one that is exact at the
    45 degree argument and 0 elsewhere. *)
Definition tan_unused : Q -> Q := fun _ => 0.

Definition tan_at_45_only (x : Q) : Q :=
  if Qeq_bool x (Qabs 45 * (math_pi / 180)) then 1 else 0.

End Nesting.

Module Extractor.

(** ** Unit-scale detection ([CutPieceExtractor._detect_unit_scale]) *)

Section UnitScale.

Local Open Scope Q_scope.

(** [np.mean] of a non-empty list. *)
Definition np_mean (xs : list Q) : Q :=
  Nesting.pysum xs / inject_Z (Z.of_nat (List.length xs)).

(** [if length and length > 0: lengths.append(length)]; [None] stands for
    a product without extrusion depth or one whose lookup raised. *)
Definition sampled_lengths (products : list (option Q)) : list Q :=
  flat_map
    (fun o =>
       match o with
       | Some l =>
           if negb (Qeq_bool l 0) && Nesting.Qltb 0 l then [l] else []
       | None => []
       end)
    (firstn 10 products).

(** The classification of the average (lines 121-144). *)
Definition classify_average (avg_length : Q) : Q :=
  if Nesting.Qltb avg_length 1.0 then 1.0
  else if Nesting.Qltb 1000 avg_length then 0.001
  else if Nesting.Qltb 10.0 avg_length then 0.001
  else 1.0.

(** [beams] and [columns] are the depths read from
    [by_type("IfcBeam")] and [by_type("IfcColumn")]. *)
Definition detect_unit_scale (beams columns : list (option Q)) : Q :=
  let products :=
    match beams with
    | [] => columns
    | _ :: _ => beams
    end in
  match products with
  | [] => 1.0
  | _ :: _ =>
      match sampled_lengths products with
      | [] => 1.0
      | (_ :: _) as lengths => classify_average (np_mean lengths)
      end
  end.

End UnitScale.

(** ** Vectors *)

Local Open Scope R_scope.

Definition vec3 : Type := (R * R * R)%type.

Definition vx (v : vec3) : R := fst (fst v).
Definition vy (v : vec3) : R := snd (fst v).
Definition vz (v : vec3) : R := snd v.

Definition vadd (u v : vec3) : vec3 := (vx u + vx v, vy u + vy v, vz u + vz v).
Definition vsub (u v : vec3) : vec3 := (vx u - vx v, vy u - vy v, vz u - vz v).
Definition vscale (k : R) (v : vec3) : vec3 := (k * vx v, k * vy v, k * vz v).
Definition vneg (v : vec3) : vec3 := (- vx v, - vy v, - vz v).

(** [np.dot] and [np.linalg.norm]. *)
Definition dot (u v : vec3) : R := vx u * vx v + vy u * vy v + vz u * vz v.
Definition norm (v : vec3) : R := sqrt (dot v v).

Definition vsum (vs : list vec3) : vec3 := fold_right vadd (0, 0, 0) vs.

(** [vertices.mean(axis=0)]. *)
Definition centroid_of (vs : list vec3) : vec3 :=
  vscale (/ INR (List.length vs)) (vsum vs).

Definition rsum (xs : list R) : R := fold_right Rplus 0 xs.

Definition rmean (xs : list R) : R := rsum xs / INR (List.length xs).

(** [np.max] and [np.min] of a non-empty array. *)
Definition rmax_list (xs : list R) : R :=
  match xs with
  | [] => 0
  | x :: r => fold_right Rmax x r
  end.

Definition rmin_list (xs : list R) : R :=
  match xs with
  | [] => 0
  | x :: r => fold_right Rmin x r
  end.

Definition Rltb (x y : R) : bool := if Rlt_dec x y then true else false.

(** ** End-cut plane fit ([CutPieceExtractor._fit_end_plane]) *)

Record EndCut := mkEndCut {
  normal : vec3;
  angle_deg : R;
  plane_d : R;
  confidence : R
}.

(** [self.tolerances["plane_residual_mm"]]. *)
Definition plane_residual_mm : R := 2.

(** [np.clip] and [np.degrees]. *)
Definition np_clip (x lo hi : R) : R := Rmin (Rmax x lo) hi.
Definition np_degrees (x : R) : R := x * (180 / PI).

Section PlaneFit.

(** [Vt[-1, :]] of [np.linalg.svd(centered, full_matrices=False)];
    [None] when the decomposition raises. *)
Variable svd_last_row : list vec3 -> option vec3.

Definition fit_end_plane (vertices : list vec3) (end_point : vec3)
  (axis_world : vec3) : option EndCut :=
  if (List.length vertices <? 3)%nat then None
  else
    let centroid := centroid_of vertices in
    let centered := map (fun v => vsub v centroid) vertices in
    match svd_last_row centered with
    | None => None
    | Some row =>
        let plane_normal := vscale (/ (norm row + 1e-10)) row in
        let plane_normal :=
          if Rltb (dot plane_normal axis_world) 0
          then vneg plane_normal
          else plane_normal in
        let dot_with_axis := Rabs (dot plane_normal axis_world) in
        let dot_with_axis := np_clip dot_with_axis 0 1 in
        let angle_rad := acos dot_with_axis in
        let angle_deg := np_degrees angle_rad in
        let plane_d := - dot plane_normal centroid in
        let residuals := map (fun c => Rabs (dot c plane_normal)) centered in
        let avg_residual := rmean residuals in
        let confidence := Rmax 0 (1 - avg_residual / plane_residual_mm) in
        Some (mkEndCut plane_normal angle_deg plane_d confidence)
    end.

(** The two calls that close [_detect_end_cuts_from_vertices]
    (lines 831-855): [(end_cuts["start"], end_cuts["end"])]. *)
Definition fit_end_cuts (start_vertices end_vertices : list vec3)
  (actual_start_point actual_end_point axis_world : vec3)
  : option EndCut * option EndCut :=
  ((if (3 <=? List.length start_vertices)%nat
    then fit_end_plane start_vertices actual_start_point axis_world
    else None),
   (if (3 <=? List.length end_vertices)%nat
    then fit_end_plane end_vertices actual_end_point axis_world
    else None)).

End PlaneFit.

(** ** Mesh-based length ([_extract_from_mesh],
       [_detect_end_cuts_from_vertices]) *)

(** [np.max(np.abs(v))] for one vector and for an array of vectors. *)
Definition max_abs (v : vec3) : R :=
  Rmax (Rabs (vx v)) (Rmax (Rabs (vy v)) (Rabs (vz v))).

Definition max_abs_all (vs : list vec3) : R := rmax_list (map max_abs vs).

(** [np.dot(vertices - centroid, axis_world)]. *)
Definition projections (vs : list vec3) (centroid axis_world : vec3)
  : list R :=
  map (fun v => dot (vsub v centroid) axis_world) vs.

(** [max_proj - min_proj] about the centroid of the vertices. *)
Definition axial_extent (vs : list vec3) (axis_world : vec3) : R :=
  let proj := projections vs (centroid_of vs) axis_world in
  rmax_list proj - rmin_list proj.

(** [vertex_scale] of the coordinate-mismatch branch (lines 659-675). *)
Definition vertex_scale (vertices : list vec3) (start_world end_world : vec3)
  : R :=
  let max_start_end := Rmax (max_abs start_world) (max_abs end_world) in
  let max_vertex := max_abs_all vertices in
  let ratio :=
    if Rltb 0 max_vertex then max_start_end / max_vertex else 1 in
  if Rltb 1000 max_start_end && Rltb max_vertex 1000 && Rltb 100 ratio
  then 1000
  else if Rltb max_start_end 1000 && Rltb 1000 max_vertex
          && Rltb ratio 0.01
  then 0.001
  else 1.

(** The vertices the final projection runs over: rescaled when the
    centre of the vertices is further than ten lengths from an end. *)
Definition vertices_for_length (vertices : list vec3)
  (start_world end_world : vec3) (length : R) : list vec3 :=
  let vertex_center := centroid_of vertices in
  let start_dist := norm (vsub vertex_center start_world) in
  let end_dist := norm (vsub vertex_center end_world) in
  if Rltb (length * 10) start_dist || Rltb (length * 10) end_dist
  then map (vscale (vertex_scale vertices start_world end_world)) vertices
  else vertices.

(** [actual_length] as returned by [_detect_end_cuts_from_vertices] for a
    non-empty array: the value assigned at lines 726-735. *)
Definition actual_length (vertices : list vec3)
  (axis_world start_world end_world : vec3) (length : R) : R :=
  axial_extent (vertices_for_length vertices start_world end_world length)
    axis_world.

(** [length] of the piece built by [_extract_from_mesh]; [eigvec] is the
    column of [np.linalg.eigh] with the largest eigenvalue. *)
Definition mesh_length (vertices : list vec3) (eigvec : vec3) : option R :=
  if (List.length vertices <? 2)%nat then None
  else
    let max_coord := max_abs_all vertices in
    let vertices_in_meters := Rltb max_coord 1000 in
    let axis_world := vscale (/ norm eigvec) eigvec in
    let centroid := centroid_of vertices in
    let proj := projections vertices centroid axis_world in
    let t_min := rmin_list proj in
    let t_max := rmax_list proj in
    let start_world := vadd centroid (vscale t_min axis_world) in
    let end_world := vadd centroid (vscale t_max axis_world) in
    let vec_start_to_end := vsub end_world start_world in
    let length := Rabs (dot vec_start_to_end axis_world) in
    if vertices_in_meters || Rltb length 0.1 then
      Some (actual_length (map (vscale 1000) vertices) axis_world
              (vscale 1000 start_world) (vscale 1000 end_world)
              (length * 1000))
    else
      Some (actual_length vertices axis_world start_world end_world length).

(** [np.linalg.norm(actual_end - actual_start)]: the Euclidean distance
    between two vertices. *)
Definition euclidean_length (actual_start actual_end : vec3) : R :=
  norm (vsub actual_end actual_start).

(** ** Notions used in the statements *)

(** Mean absolute residual of the vertices about the plane through their
    centroid, measured with the normal [n]. *)
Definition mean_residual (vertices : list vec3) (n : vec3) : R :=
  rmean
    (map (fun v => Rabs (dot (vsub v (centroid_of vertices)) n)) vertices).

(** ** Sample inputs *)

(** Three corners of an end face in the plane x = 0. *)
Definition end_face : list vec3 := [(0, 0, 0); (0, 1, 0); (0, 0, 1)].

Definition x_axis : vec3 := (1, 0, 0).

(** A decomposition whose last row is the x axis, as it is for
    [end_face] (up to sign). *)
Definition svd_x_axis : list vec3 -> option vec3 := fun _ => Some x_axis.

(** A bar along x, 10 long, with a 1 x 1 section and both ends bevelled
    from x = 0 and x = 10 at the bottom to x = 1 and x = 9 at the top; the
    coordinates are in meters.  Its largest-variance direction is the x
    axis. *)
Definition bevelled_bar : list vec3 :=
  [(1, 0, 1); (0, 0, 0); (0, 1, 0); (1, 1, 1);
   (9, 0, 1); (10, 1, 0); (10, 0, 0); (9, 1, 1)].

End Extractor.

Module PlateNesting.

(** ** Sheet nesting of plates (src/api/polygon_nesting.py)

    [generate_plate_nesting_with_geometry] (main.py 6751-6761) hands the
    plates to [nest_plates_on_multiple_stocks] and the sheets it returns to
    [calculate_nesting_statistics]. *)

Local Open Scope Q_scope.

(** [plate.thickness]: the text read from the model (["10mm"], ["N/A"]) or
    whatever the request carries for a bounding-box plate. *)
Inductive Thickness : Type :=
| ThicknessText (s : String.string)
| ThicknessNumber (q : Q).

(** [==] on two thickness values, as the dictionary compares its keys. *)
Definition thickness_eqb (a b : Thickness) : bool :=
  match a, b with
  | ThicknessText s, ThicknessText t => String.eqb s t
  | ThicknessNumber p, ThicknessNumber q => Qeq_bool p q
  | _, _ => false
  end.

(** The attributes of [PlateGeometry] the nesting reads; the name and the
    polygon only label and draw the plate. *)
Record PlateGeometry := mkPlate {
  element_id : Z;
  thickness : Thickness;
  width : Q;
  length : Q;
  area : Q
}.

(** One entry of [NestingResult.placed_plates]. *)
Record Placed := mkPlaced {
  pl_plate : PlateGeometry;
  pl_x : Q;
  pl_y : Q;
  pl_rotation : Z
}.

Record NestingResult := mkResult {
  stock_width : Q;
  stock_length : Q;
  stock_index : Z;
  placed_plates : list Placed;
  utilization : Q
}.

(** [NestingResult.calculate_utilization]. *)
Definition calculate_utilization (stock_width stock_length : Q)
  (placed_plates : list Placed) : Q :=
  match placed_plates with
  | [] => 0
  | _ :: _ =>
      let total_plate_area :=
        Nesting.pysum (map (fun p => area (pl_plate p)) placed_plates) in
      let stock_area := stock_width * stock_length in
      if Nesting.Qltb 0 stock_area
      then total_plate_area / stock_area * 100
      else 0
  end.

(** The variables of the placement loop of [greedy_nesting]. *)
Record Cursor := mkCursor {
  current_x : Q;
  current_y : Q;
  row_height : Q;
  placed : list Placed
}.

(** The body of [for plate in sorted_plates] (lines 99-122). *)
Definition place_plate (stock_width stock_length gap : Q) (c : Cursor)
  (p : PlateGeometry) : Cursor :=
  let plate_width := width p in
  let plate_height := length p in
  if Qle_bool (current_x c + plate_width + gap) stock_width
     && Qle_bool (current_y c + plate_height + gap) stock_length
  then
    mkCursor (current_x c + (plate_width + gap)) (current_y c)
      (Nesting.pymax (row_height c) plate_height)
      (placed c ++ [mkPlaced p (current_x c) (current_y c) 0])
  else if Qle_bool
            (current_y c + row_height c + gap + plate_height + gap)
            stock_length
  then
    let next_y := current_y c + (row_height c + gap) in
    let next_x := gap in
    if Qle_bool (next_x + plate_width + gap) stock_width
    then
      mkCursor (next_x + (plate_width + gap)) next_y plate_height
        (placed c ++ [mkPlaced p next_x next_y 0])
    else mkCursor next_x next_y plate_height (placed c)
  else c.

Definition greedy_nesting (plates : list PlateGeometry)
  (stock_width stock_length gap : Q) : NestingResult :=
  match plates with
  | [] => mkResult stock_width stock_length 0 [] 0
  | _ :: _ =>
      let sorted_plates := Nesting.sort_desc area plates in
      let c :=
        fold_left (place_plate stock_width stock_length gap) sorted_plates
          (mkCursor gap gap 0 []) in
      mkResult stock_width stock_length 0 (placed c)
        (calculate_utilization stock_width stock_length (placed c))
  end.

(** [plates_by_thickness[plate.thickness].append(plate)]: the groups are
    kept in the order in which their keys first appear. *)
Fixpoint group_insert (p : PlateGeometry)
  (groups : list (Thickness * list PlateGeometry))
  : list (Thickness * list PlateGeometry) :=
  match groups with
  | [] => [(thickness p, [p])]
  | (t, ps) :: rest =>
      if thickness_eqb t (thickness p)
      then (t, ps ++ [p]) :: rest
      else (t, ps) :: group_insert p rest
  end.

Definition plates_by_thickness (plates : list PlateGeometry)
  : list (Thickness * list PlateGeometry) :=
  fold_left (fun groups p => group_insert p groups) plates [].

Definition placed_ids (placed_plates : list Placed) : list Z :=
  map (fun pl => element_id (pl_plate pl)) placed_plates.

(** [[p for p in plates if p.element_id not in ids]]. *)
Definition not_placed (ids : list Z) (plates : list PlateGeometry)
  : list PlateGeometry :=
  filter (fun p => negb (existsb (Z.eqb (element_id p)) ids)) plates.

(** [(best_result, best_stock_idx)] after every stock size was tried
    (lines 169-183); a stock size is its [(width, length)]. *)
Definition try_stocks (remaining_plates : list PlateGeometry)
  (stock_configs : list (Q * Q)) : option NestingResult * Z :=
  fold_left
    (fun best entry =>
       let '(best_result, best_stock_idx) := best in
       let '(stock_idx, (stock_w, stock_l)) := entry in
       let result := greedy_nesting remaining_plates stock_w stock_l 5.0 in
       match placed_plates result with
       | [] => best
       | _ :: _ =>
           match best_result with
           | None => (Some result, Z.of_nat stock_idx)
           | Some b =>
               if (List.length (placed_plates b)
                   <? List.length (placed_plates result))%nat
               then (Some result, Z.of_nat stock_idx)
               else best
           end
       end)
    (combine (seq 0 (List.length stock_configs)) stock_configs)
    (None, (-1)%Z).

(** [while remaining_plates and thickness_sheet_count < max_sheets];
    [fuel] is [max_sheets - thickness_sheet_count]. *)
Fixpoint nest_thickness (fuel : nat) (stock_configs : list (Q * Q))
  (remaining_plates : list PlateGeometry) (results : list NestingResult)
  : list NestingResult :=
  match fuel, remaining_plates with
  | O, _ => results
  | _, [] => results
  | S fuel', _ :: _ =>
      match try_stocks remaining_plates stock_configs with
      | (Some best_result, best_stock_idx) =>
          match placed_plates best_result with
          | [] => results
          | _ :: _ =>
              let sheet :=
                mkResult (stock_width best_result)
                  (stock_length best_result) best_stock_idx
                  (placed_plates best_result) (utilization best_result) in
              nest_thickness fuel' stock_configs
                (not_placed (placed_ids (placed_plates best_result))
                   remaining_plates)
                (results ++ [sheet])
          end
      | (None, _) => results
      end
  end.

Definition nest_plates_on_multiple_stocks (plates : list PlateGeometry)
  (stock_configs : list (Q * Q)) (max_sheets : nat)
  : list NestingResult * list PlateGeometry :=
  let groups := plates_by_thickness plates in
  let results :=
    fold_left
      (fun results group =>
         nest_thickness max_sheets stock_configs (snd group) results)
      groups [] in
  let all_placed := flat_map (fun r => placed_ids (placed_plates r)) results in
  let all_remaining :=
    flat_map (fun group => not_placed all_placed (snd group)) groups in
  (results, all_remaining).

(** ** Statistics ([calculate_nesting_statistics], lines 218-293) *)

(** [round(x)] of a float: to the nearest integer, ties to the even one. *)
Definition round_half_even (x : Q) : Z :=
  let f := Qfloor x in
  let r := x - inject_Z f in
  if Nesting.Qltb r (1 # 2) then f
  else if Nesting.Qltb (1 # 2) r then (f + 1)%Z
  else if Z.even f then f else (f + 1)%Z.

(** [round(x, ndigits)]. *)
Definition py_round (x : Q) (ndigits : nat) : Q :=
  let scale := inject_Z (10 ^ Z.of_nat ndigits) in
  inject_Z (round_half_even (x * scale)) / scale.

(** [sum] of integers. *)
Definition zsum (xs : list Z) : Z := fold_left Z.add xs 0%Z.

Definition STEEL_DENSITY : Q := 0.00000785.

Record Statistics := mkStatistics {
  total_plates : Z;
  nested_plates : Z;
  unnested_plates : Z;
  stock_sheets_used : Z;
  total_stock_area_m2 : Q;
  total_used_area_m2 : Q;
  waste_area_m2 : Q;
  overall_utilization : Q;
  waste_percentage : Q;
  plates_tonnage : Q;
  waste_tonnage : Q;
  geometry_based : bool
}.

(** One pass of the weight loop (lines 268-274).  [plate.area] is a float:
    multiplying it by a thickness that is a string raises [TypeError],
    which is [None] here. *)
Definition add_plate_weight (acc : option (Q * list Q)) (plate_entry : Placed)
  : option (Q * list Q) :=
  match acc with
  | None => None
  | Some (total_plate_weight, thickness_values) =>
      let plate := pl_plate plate_entry in
      match thickness plate with
      | ThicknessText _ => None
      | ThicknessNumber t =>
          let volume_mm3 := area plate * t in
          let weight_kg := volume_mm3 * STEEL_DENSITY in
          Some (total_plate_weight + weight_kg, thickness_values ++ [t])
      end
  end.

(** [(total_plate_weight, thickness_values)] behind the loop. *)
Definition plate_weights (results : list NestingResult)
  : option (Q * list Q) :=
  fold_left add_plate_weight (flat_map placed_plates results) (Some (0, [])).

(** [None] stands for the [TypeError] leaving the function. *)
Definition calculate_nesting_statistics (results : list NestingResult)
  (total_plates : Z) : option Statistics :=
  match results with
  | [] =>
      Some (mkStatistics total_plates 0 total_plates 0 0 0 0 0 100 0 0 true)
  | _ :: _ =>
      let nested_plates :=
        zsum (map (fun r => Z.of_nat (List.length (placed_plates r)))
                results) in
      let unnested_plates := (total_plates - nested_plates)%Z in
      let total_stock_area :=
        Nesting.pysum
          (map (fun r => stock_width r * stock_length r) results) in
      let total_used_area :=
        Nesting.pysum
          (map (fun r =>
                  Nesting.pysum
                    (map (fun p => area (pl_plate p)) (placed_plates r)))
             results) in
      let overall_utilization :=
        if Nesting.Qltb 0 total_stock_area
        then total_used_area / total_stock_area * 100
        else 0 in
      let waste_area := total_stock_area - total_used_area in
      match plate_weights results with
      | None => None
      | Some (total_plate_weight, thickness_values) =>
          let avg_thickness :=
            match thickness_values with
            | [] => 10
            | _ :: _ =>
                Nesting.pysum thickness_values
                / inject_Z (Z.of_nat (List.length thickness_values))
            end in
          let waste_weight := waste_area * avg_thickness * STEEL_DENSITY in
          Some
            (mkStatistics total_plates nested_plates unnested_plates
               (Z.of_nat (List.length results))
               (py_round (total_stock_area / 1000000) 2)
               (py_round (total_used_area / 1000000) 2)
               (py_round (waste_area / 1000000) 2)
               (py_round overall_utilization 2)
               (py_round (100 - overall_utilization) 2)
               (py_round (total_plate_weight / 1000) 3)
               (py_round (waste_weight / 1000) 3)
               true)
      end
  end.

(** ** Notions used in the statements *)

(** The plate sits on the sheet with the gap free on every side. *)
Definition inside_sheet (stock_width stock_length gap : Q) (pl : Placed)
  : Prop :=
  gap <= pl_x pl
  /\ pl_x pl + width (pl_plate pl) + gap <= stock_width
  /\ gap <= pl_y pl
  /\ pl_y pl + length (pl_plate pl) + gap <= stock_length.

(** The bounding boxes of two placed plates are at least the gap apart
    along one of the two directions. *)
Definition separated (gap : Q) (p q : Placed) : Prop :=
  pl_x p + width (pl_plate p) + gap <= pl_x q
  \/ pl_x q + width (pl_plate q) + gap <= pl_x p
  \/ pl_y p + length (pl_plate p) + gap <= pl_y q
  \/ pl_y q + length (pl_plate q) + gap <= pl_y p.

Definition plate_nonneg (p : PlateGeometry) : Prop :=
  0 <= width p /\ 0 <= length p.

(** What the placement loop keeps true: the cursor is on the sheet, every
    placed plate is inside, lies in a finished row or in the current row
    left of the cursor, and the placed plates are apart. *)
Record cursor_inv (sw sl gap : Q) (c : Cursor) : Prop := {
  inv_x : gap <= current_x c;
  inv_y : gap <= current_y c;
  inv_row : 0 <= row_height c;
  inv_inside : Forall (inside_sheet sw sl gap) (placed c);
  inv_rows :
    Forall
      (fun pl =>
         pl_y pl + length (pl_plate pl) + gap <= current_y c
         \/ (pl_y pl == current_y c
             /\ pl_x pl + width (pl_plate pl) + gap <= current_x c
             /\ length (pl_plate pl) <= row_height c))
      (placed c);
  inv_sep : ForallOrdPairs (separated gap) (placed c)
}.

(** Every plate of a group carries the key of the group. *)
Definition group_uniform (g : Thickness * list PlateGeometry) : Prop :=
  Forall (fun p => thickness_eqb (fst g) (thickness p) = true) (snd g).

(** What [try_stocks] returns: nothing, or the greedy nesting on one of the
    stock sizes, with its index. *)
Definition chosen (stock_configs : list (Q * Q))
  (remaining : list PlateGeometry) (best : option NestingResult * Z) : Prop :=
  match best with
  | (None, _) => True
  | (Some r, idx) =>
      exists i w l,
        nth_error stock_configs i = Some (w, l)
        /\ idx = Z.of_nat i
        /\ r = greedy_nesting remaining w l 5.0
        /\ placed_plates r <> []
  end.

(** [sheet] is the greedy nesting of [remaining] on one of the stock
    sizes, stamped with the index of that size. *)
Definition sheet_of (stock_configs : list (Q * Q))
  (remaining : list PlateGeometry) (sheet : NestingResult) : Prop :=
  exists i w l,
    nth_error stock_configs i = Some (w, l)
    /\ stock_index sheet = Z.of_nat i
    /\ stock_width sheet = w
    /\ stock_length sheet = l
    /\ placed_plates sheet = placed_plates (greedy_nesting remaining w l 5.0)
    /\ utilization sheet = utilization (greedy_nesting remaining w l 5.0)
    /\ placed_plates sheet <> [].

(** The plates on the sheets, sheet by sheet. *)
Definition plates_of (results : list NestingResult) : list PlateGeometry :=
  flat_map (fun r => map pl_plate (placed_plates r)) results.

(** [l1] is [l2] with some elements left out, the others in place. *)
Inductive subseq {A : Type} : list A -> list A -> Prop :=
| subseq_nil : subseq [] []
| subseq_skip (x : A) (l1 l2 : list A) : subseq l1 l2 -> subseq l1 (x :: l2)
| subseq_take (x : A) (l1 l2 : list A) :
    subseq l1 l2 -> subseq (x :: l1) (x :: l2).

(** ** Sample inputs *)

(** A rectangular plate of the given size and numeric thickness. *)
Definition rectangle (id : Z) (w l t : Q) : PlateGeometry :=
  mkPlate id (ThicknessNumber t) w l (w * l).

Definition sample_plates : list PlateGeometry :=
  [rectangle 1 1000 500 10; rectangle 2 800 600 10;
   rectangle 3 300 200 8; rectangle 4 1900 900 10].

Definition sample_stocks : list (Q * Q) := [(2000, 1000); (3000, 1500)].

End PlateNesting.

Module BarLoop.

(** ** The loop of [generate_nesting], bar by bar (main.py 2775-4301)

    The body of the [while] loop in two pieces, and the notions in which
    the facts on the whole loop are stated: which identifiers the loop
    holds, and where the placements of a bar lie. *)

Import Nesting.

Local Open Scope Q_scope.

Section Profile.

Variable tan : Q -> Q.
Variable estimated_profile_depth : Q.
Variable stock_lengths_list : list Q.

(** The bar and the pool one pass builds from a non-empty pool: pairing,
    ordering of the candidates and fill (main.py 3086-4061). *)
Definition built_bar (best_stock : Q) (remaining : list Part)
  : Bar * list Part :=
  let valid_parts_for_this_stock :=
    sort_desc length
      (filter (fun p => Qle_bool (length p) best_stock) remaining) in
  let paired :=
    pair_search tan estimated_profile_depth stock_lengths_list best_stock
      valid_parts_for_this_stock empty_bar in
  let remaining_parts_sorted :=
    order_candidates best_stock (pattern_parts paired)
      (filter (fun p => negb (part_in p (parts_to_remove paired)))
         valid_parts_for_this_stock) in
  fill best_stock valid_parts_for_this_stock remaining_parts_sorted paired
    remaining.

(** The body of the loop behind the oversize rejection (main.py 2833-4301):
    [iteration] with the construction of the bar named. *)
Definition nest_one_bar (remaining : list Part)
  (patterns : list CuttingPattern) (rejected : list Rejected) : Loop * Flow :=
  match remaining with
  | [] => (mkLoop remaining patterns rejected, Break)
  | _ :: _ =>
      match select_best_stock stock_lengths_list remaining with
      | None => (mkLoop remaining patterns rejected, Break)
      | Some best_stock =>
          match filter (fun p => Qle_bool (length p) best_stock)
                  remaining with
          | [] => (mkLoop remaining patterns rejected, Break)
          | _ :: _ =>
              let '(bar, pool) := built_bar best_stock remaining in
              let remaining' := remove_all (parts_to_remove bar) pool in
              match parts_to_remove bar, remaining' with
              | [], [] => (mkLoop remaining' patterns rejected, Break)
              | [], first_part :: others =>
                  if Qltb best_stock (length first_part)
                  then (validate best_stock bar others patterns rejected,
                        Continue)
                  else (mkLoop remaining' patterns rejected, Break)
              | _ :: _, _ =>
                  (validate best_stock bar remaining' patterns rejected,
                   Continue)
              end
          end
      end
  end.

End Profile.

(** ** Identifiers *)

Definition part_ids (l : list Part) : list Z := map product_id l.

Definition placement_ids (pps : list Placement) : list Z :=
  map (fun pp => product_id (pp_part pp)) pps.

(** Every identifier the state of the loop holds: placed in a pattern,
    rejected, or still in the pool. *)
Definition accounted (st : Loop) : list Z :=
  flat_map (fun pat => placement_ids (parts pat)) (cutting_patterns st)
  ++ map rj_product_id (rejected_parts st)
  ++ part_ids (remaining_parts st).

(** What pairing and filling keep true of the bar under construction,
    for the parts [V] that fit the selected stock. *)
Record bar_ok (best_stock : Q) (V : list Part) (bar : Bar) : Prop := {
  ok_ids : placement_ids (pattern_parts bar) = part_ids (parts_to_remove bar);
  ok_nodup : NoDup (part_ids (parts_to_remove bar));
  ok_valid : incl (part_ids (parts_to_remove bar)) (part_ids V);
  ok_len : Forall (fun pp => pp_length pp <= best_stock) (pattern_parts bar)
}.

(** A bar that took no part has consumed nothing. *)
Definition idle_is_empty (bar : Bar) : Prop :=
  parts_to_remove bar = [] -> current_length bar = 0.

(** The three ways the body of the pairing loop can end. *)
Inductive pair_outcome (tan : Q -> Q) (estimated_profile_depth : Q)
  (best_stock : Q) (t : PairingType) (part1 part2 : Part) (bar : Bar)
  : Bar * Flow -> Prop :=
| pair_unchanged (flow : Flow) :
    pair_outcome tan estimated_profile_depth best_stock t part1 part2 bar
      (bar, flow)
| pair_undone (pps : list Placement) :
    pps = drop_pair part1 part2
            (pattern_parts bar
             ++ [mkPlacement part1 (cut_position bar) (length part1)
                   (pair_slope_info part1) true;
                 mkPlacement part2
                   (cut_position bar + length part1
                    - fst (pair_lengths tan estimated_profile_depth
                             (length part1) (length part2)
                             (angle_for_calculation t part1 part2)))
                   (length part2) (pair_slope_info part2) true]) ->
    pair_outcome tan estimated_profile_depth best_stock t part1 part2 bar
      (mkBar pps (current_length bar) (total_parts_length bar)
         (current_length bar) (parts_to_remove bar), Continue)
| pair_placed (shared combined : Q) :
    pair_lengths tan estimated_profile_depth (length part1) (length part2)
      (angle_for_calculation t part1 part2) = (shared, combined) ->
    current_length bar + combined <= best_stock ->
    pair_outcome tan estimated_profile_depth best_stock t part1 part2 bar
      (mkBar
         (pattern_parts bar
          ++ [mkPlacement part1 (cut_position bar) (length part1)
                (pair_slope_info part1) true;
              mkPlacement part2 (cut_position bar + length part1 - shared)
                (length part2) (pair_slope_info part2) true])
         (current_length bar + combined)
         (total_parts_length bar + (length part1 + length part2))
         (cut_position bar + length part1 - shared + length part2)
         (parts_to_remove bar ++ [part1; part2]),
       Break).

(** ** Where the placements lie *)

(** The position at which a placed piece ends. *)
Definition placement_end (pp : Placement) : Q :=
  pp_cut_position pp + pp_length pp.

(** The earlier piece ends where the later one starts or before it, unless
    both are halves of complementary pairs, which share their mitre. *)
Definition apart (a b : Placement) : Prop :=
  placement_end a <= pp_cut_position b
  \/ (pp_pair a = true /\ pp_pair b = true).

(** What pairing and filling keep true of the positions on the bar. *)
Record bar_geom (bar : Bar) : Prop := {
  g_cut : cut_position bar == current_length bar;
  g_nonneg : 0 <= current_length bar;
  g_len : Forall (fun pp => 0 <= pp_length pp) (pattern_parts bar);
  g_inside :
    Forall
      (fun pp =>
         0 <= pp_cut_position pp /\ placement_end pp <= current_length bar)
      (pattern_parts bar);
  g_apart : ForallOrdPairs apart (pattern_parts bar)
}.

(** What holds of the positions, the waste and its percentage in an
    emitted pattern. *)
Record pattern_geom (pat : CuttingPattern) : Prop := {
  pg_nonneg : 0 <= consumed_length pat;
  pg_parts : parts pat <> [];
  pg_len : Forall (fun pp => 0 <= pp_length pp <= stock_length pat) (parts pat);
  pg_inside :
    Forall
      (fun pp =>
         0 <= pp_cut_position pp /\ placement_end pp <= consumed_length pat)
      (parts pat);
  pg_apart : ForallOrdPairs apart (parts pat);
  pg_waste :
    waste pat
    = stock_length pat - pymin (consumed_length pat) (stock_length pat);
  pg_pct : waste_percentage pat = waste_pct (waste pat) (stock_length pat)
}.

(** ** Sample inputs *)

(** Three parts that share 6 m bars and one that no offered bar holds. *)
Definition sample_pool : list Part :=
  [square_part 1 3000; square_part 2 2500; square_part 3 4000;
   square_part 4 7000].

Definition sample_stock_lengths : list Q := [6000].

End BarLoop.

Module Report.

(** ** The report of [generate_nesting] (main.py 2742-2773, 4296-4350)

    One entry per profile group and the summary over all groups.  The
    counters [total_stock_bars] and [total_waste] run over all groups;
    [stock_lengths_used] starts empty for every group. *)

Import Nesting.

Local Open Scope Q_scope.

(** [sum] of floats and of integers: from 0, left to right. *)
Definition qsum (xs : list Q) : Q := fold_left Qplus xs 0.

Definition zsum (xs : list Z) : Z := fold_left Z.add xs 0%Z.

(** [stock_lengths_used]: a dictionary from stock length to the number of
    bars, in insertion order; the keys are compared as floats. *)
Definition StockUsage : Type := list (Q * Z).

(** [if best_stock not in stock_lengths_used:
       stock_lengths_used[best_stock] = 0
     stock_lengths_used[best_stock] += 1]. *)
Fixpoint count_bar (best_stock : Q) (used : StockUsage) : StockUsage :=
  match used with
  | [] => [(best_stock, 1%Z)]
  | (k, n) :: rest =>
      if Qeq_bool k best_stock then (k, (n + 1)%Z) :: rest
      else (k, n) :: count_bar best_stock rest
  end.

(** The counters the loop updates behind every [cutting_patterns.append]
    (lines 4296-4301). *)
Record Tally := mkTally {
  stock_lengths_used : StockUsage;
  total_stock_bars : Z;
  total_waste : Q
}.

Definition track (t : Tally) (pat : CuttingPattern) : Tally :=
  mkTally (count_bar (stock_length pat) (stock_lengths_used t))
    (total_stock_bars t + 1)%Z
    (total_waste t + waste pat).

(** An entry of [profile_nestings].  The keys of [stock_lengths_used] are
    written with [str] and read back with [float], which returns the
    float written; the entry keeps the float. *)
Record ProfileNesting := mkProfileNesting {
  pn_total_parts : Z;
  pn_total_length : Q;
  pn_stock_lengths_used : StockUsage;
  pn_cutting_patterns : list CuttingPattern;
  pn_total_waste : Q;
  pn_total_waste_percentage : Q;
  pn_rejected_parts : list Rejected
}.

(** The variables that outlive the pass over one group. *)
Record Run := mkRun {
  profile_nestings : list ProfileNesting;
  run_total_stock_bars : Z;
  run_total_waste : Q;
  run_total_parts : Z
}.

Record Summary := mkSummary {
  sm_total_profiles : nat;
  sm_total_parts : Z;
  sm_total_stock_bars : Z;
  sm_total_waste : Q;
  sm_average_waste_percentage : Q
}.

Section Groups.

Variable tan : Q -> Q.
Variable stock_lengths_list : list Q.

(** The body of [for profile_name, parts in parts_by_profile.items()]; a
    group comes with the profile depth estimated from its name. *)
Definition nest_group (run : Run) (group : Q * list Part) : Run :=
  let '(estimated_profile_depth, parts_of_profile) := group in
  match parts_of_profile with
  | [] => run
  | _ :: _ =>
      let st :=
        nest_profile tan estimated_profile_depth stock_lengths_list
          parts_of_profile in
      let patterns := cutting_patterns st in
      let tally :=
        fold_left track patterns
          (mkTally [] (run_total_stock_bars run) (run_total_waste run)) in
      let total_parts_in_patterns :=
        zsum (map (fun pat => Z.of_nat (List.length (parts pat))) patterns) in
      let total_parts_profile :=
        if (0 <? total_parts_in_patterns)%Z then total_parts_in_patterns
        else Z.of_nat (List.length parts_of_profile) in
      let total_length_profile := qsum (map length parts_of_profile) in
      let total_waste_profile := qsum (map waste patterns) in
      let total_stock_length_for_profile :=
        qsum (map stock_length patterns) in
      let total_waste_percentage_profile :=
        if Qltb 0 total_stock_length_for_profile
        then total_waste_profile / total_stock_length_for_profile * 100
        else 0 in
      mkRun
        (profile_nestings run
         ++ [mkProfileNesting total_parts_profile total_length_profile
               (stock_lengths_used tally) patterns total_waste_profile
               total_waste_percentage_profile (rejected_parts st)])
        (total_stock_bars tally) (total_waste tally)
        (run_total_parts run + total_parts_profile)%Z
  end.

(** [sum(float(stock_len) * count for profile in profile_nestings
         for stock_len, count in profile["stock_lengths_used"].items())]. *)
Definition total_stock_length_used (profiles : list ProfileNesting) : Q :=
  qsum
    (flat_map
       (fun profile =>
          map (fun entry => fst entry * inject_Z (snd entry))
            (pn_stock_lengths_used profile))
       profiles).

(** [profiles] and [summary] of the report. *)
Definition nesting_report (groups : list (Q * list Part))
  : list ProfileNesting * Summary :=
  let run := fold_left nest_group groups (mkRun [] 0%Z 0 0%Z) in
  let used := total_stock_length_used (profile_nestings run) in
  let average_waste_percentage :=
    if Qltb 0 used then run_total_waste run / used * 100 else 0 in
  (profile_nestings run,
   mkSummary (List.length (profile_nestings run)) (run_total_parts run)
     (run_total_stock_bars run) (run_total_waste run)
     average_waste_percentage).

End Groups.

(** ** Notions used in the statements *)

(** All patterns of a report, group after group. *)
Definition all_patterns (profiles : list ProfileNesting)
  : list CuttingPattern :=
  flat_map pn_cutting_patterns profiles.

(** The number of bars a usage dictionary counts. *)
Definition bars_counted (used : StockUsage) : Z := zsum (map snd used).

(** The length of bar a usage dictionary stands for. *)
Definition usage_total (used : StockUsage) : Q :=
  qsum (map (fun entry => fst entry * inject_Z (snd entry)) used).

(** The entries one group adds to an empty report: none for an empty
    group, one otherwise. *)
Definition entries_of (tan : Q -> Q) (stock_lengths_list : list Q)
  (group : Q * list Part) : list ProfileNesting :=
  profile_nestings
    (nest_group tan stock_lengths_list (mkRun [] 0%Z 0 0%Z) group).

(** ** Sample inputs *)

(** Two groups on 6 m bars; each holds one part that no bar holds. *)
Definition sample_groups : list (Q * list Part) :=
  [(200, BarLoop.sample_pool);
   (300, [square_part 5 2000; square_part 6 6500])].

End Report.

Module PartPreparation.

(** ** The parts handed to the nesting ([generate_nesting], main.py
       2473-2721)

    For every selected element the loop reads the length and the two end
    cuts of the extracted cut piece, turns the end cuts into slope flags,
    and falls back on the property sets, the geometry and the weight when
    the extraction gave no length. *)

Import Nesting.

Local Open Scope Q_scope.

(** What the loop reads of an [EndCut]. *)
Record CutReading := mkCutReading {
  cr_angle_deg : Q;
  cr_confidence : Q
}.

(** Lines 2499-2505 and 2536-2542: between 60 and 120 degrees the angle is
    read as measured from the axis, otherwise from the square cut. *)
Definition deviation_from_straight (angle : Q) : Q :=
  let abs_angle := Qabs angle in
  if Qle_bool 60 abs_angle && Qle_bool abs_angle 120
  then Qabs (angle - 90)
  else abs_angle.

(** [deviation_from_straight > 1.0 and confidence > 0.3]. *)
Definition has_slope (deviation confidence : Q) : bool :=
  Qltb 1 deviation && Qltb 0.3 confidence.

(** The slope flags of one element (lines 2476-2591).
    [start_deviation_value] is a variable of [generate_nesting] that only
    the start branch assigns: an element without a start cut meets the
    value a previous element left, or none at all ([None]); reading it
    then raises [NameError], which the handler at line 2594 swallows with
    the flags as they stand.  Returns [(start_has_slope, end_has_slope)]
    and the value [start_deviation_value] holds afterwards. *)
Definition slope_flags (start_deviation_value : option Q) (length_mm : Q)
  (start_cut end_cut : option CutReading) : (bool * bool) * option Q :=
  let start_confidence :=
    match start_cut with
    | Some cut => cr_confidence cut
    | None => 0
    end in
  let start_has_slope :=
    match start_cut with
    | Some cut =>
        has_slope (deviation_from_straight (cr_angle_deg cut))
          (cr_confidence cut)
    | None => false
    end in
  let start_deviation_value :=
    match start_cut with
    | Some cut => Some (deviation_from_straight (cr_angle_deg cut))
    | None => start_deviation_value
    end in
  match end_cut with
  | None => ((start_has_slope, false), start_deviation_value)
  | Some cut =>
      let end_confidence := cr_confidence cut in
      let end_deviation_value :=
        deviation_from_straight (cr_angle_deg cut) in
      let end_has_slope := has_slope end_deviation_value end_confidence in
      if negb start_has_slope && negb end_has_slope
         && Qltb start_confidence 0.5 && Qltb end_confidence 0.5
         && Qltb length_mm 500
      then
        match start_deviation_value with
        | None => ((start_has_slope, end_has_slope), start_deviation_value)
        | Some start_dev =>
            if Qltb 15 start_dev && Qltb 15 end_deviation_value then
              let angle_diff := Qabs (start_dev - end_deviation_value) in
              if Qltb angle_diff 2 then
                if Qltb end_deviation_value start_dev
                then ((true, end_has_slope), start_deviation_value)
                else ((start_has_slope, true), start_deviation_value)
              else if Qltb end_deviation_value start_dev
              then ((true, end_has_slope), start_deviation_value)
              else ((start_has_slope, true), start_deviation_value)
            else ((start_has_slope, end_has_slope), start_deviation_value)
        end
      else ((start_has_slope, end_has_slope), start_deviation_value)
  end.

(** *** The length when the extraction gave none (lines 2601-2660) *)

(** A value of a property set: a number ([int], [float], [bool]) or
    anything else. *)
Inductive PropertyValue : Type :=
| NumberValue (v : Q)
| OtherValue.

(** A property set: a dictionary from names to values. *)
Definition PropertySet : Type := list (string * PropertyValue).

Fixpoint lookup (key : string) (props : PropertySet) : option PropertyValue :=
  match props with
  | [] => None
  | (k, v) :: rest => if String.eqb k key then Some v else lookup key rest
  end.

Definition length_keys : list string :=
  ["Length"; "length"; "L"; "l"; "NominalLength"; "LengthValue"]%string.

(** [for key in [...]]: the first key that holds a number decides and
    ends the loop; a value above 100 is taken as millimetres, any other
    as metres. *)
Fixpoint scan_keys (keys : list string) (props : PropertySet) (length_mm : Q)
  : Q :=
  match keys with
  | [] => length_mm
  | key :: rest =>
      match lookup key props with
      | Some (NumberValue length_val) =>
          if Qltb 100 length_val then length_val else length_val * 1000
      | _ => scan_keys rest props length_mm
      end
  end.

(** [for pset_name, props in psets.items()], left at the first property
    set that gives a positive length. *)
Fixpoint scan_psets (psets : list PropertySet) (length_mm : Q) : Q :=
  match psets with
  | [] => length_mm
  | props :: rest =>
      let length_mm := scan_keys length_keys props length_mm in
      if Qltb 0 length_mm then length_mm else scan_psets rest length_mm
  end.

(** [length_mm] as stored in the part.  [extracted] is the length of the
    cut piece, 0 without one; [psets] are the property sets, [None] when
    reading them raises; [geometry] is [np.max(dimensions)] of the
    bounding box, [None] when no shape with three coordinates or more is
    to be had; [weight] is [get_element_weight(element)], [None] when it
    raises. *)
Definition part_length (extracted : Q) (psets : option (list PropertySet))
  (geometry : option Q) (weight : option Q) : Q :=
  if Qeq_bool extracted 0 then
    match psets with
    | None => 1000
    | Some psets =>
        let length_mm := scan_psets psets extracted in
        let length_mm :=
          if Qeq_bool length_mm 0 then
            match geometry with
            | Some largest => largest * 1000
            | None => length_mm
            end
          else length_mm in
        if Qeq_bool length_mm 0 then
          match weight with
          | None => 1000
          | Some weight => if Qltb 0 weight then weight / 75 * 1000 else 1000
          end
        else length_mm
    end
  else extracted.

(** ** Notions used in the statements *)

(** No length property of the sets holds a negative number. *)
Definition lengths_not_negative (psets : list PropertySet) : Prop :=
  Forall
    (fun props =>
       Forall
         (fun entry =>
            match snd entry with
            | NumberValue v => 0 <= v
            | OtherValue => True
            end)
         props)
    psets.

(** ** Sample inputs *)

(** Two weakly supported readings of a short part, and two well supported
    mitres. *)
Definition faint_20 : CutReading := mkCutReading 20 0.2.

Definition faint_18 : CutReading := mkCutReading 18 0.25.

Definition mitre_30 : CutReading := mkCutReading 30 0.9.

Definition mitre_45 : CutReading := mkCutReading 45 0.8.

End PartPreparation.

(* ================================================================== *)
(** * Part II. Theorems                                                *)
(* ================================================================== *)

Module NestingFacts.

Import Nesting.

Local Open Scope Q_scope.

(** ** Boolean comparisons as propositions *)

Lemma Qltb_true (x y : Q) : Qltb x y = true <-> x < y.
Proof.
  unfold Qltb. rewrite negb_true_iff. split; intro H.
  - apply Qnot_le_lt. intro Hle. apply Qle_bool_iff in Hle. congruence.
  - destruct (Qle_bool y x) eqn:E; trivial.
    apply Qle_bool_iff in E. exfalso. apply (Qlt_not_le _ _ H E).
Qed.

Lemma Qltb_false (x y : Q) : Qltb x y = false <-> y <= x.
Proof.
  unfold Qltb. rewrite negb_false_iff. apply Qle_bool_iff.
Qed.

Lemma Qle_bool_false (x y : Q) : Qle_bool x y = false <-> y < x.
Proof.
  split; intro H.
  - apply Qnot_le_lt. intro Hle. apply Qle_bool_iff in Hle. congruence.
  - destruct (Qle_bool x y) eqn:E; trivial.
    apply Qle_bool_iff in E. exfalso. apply (Qlt_not_le _ _ H E).
Qed.

Lemma Qeq_bool_false (x y : Q) : Qeq_bool x y = false <-> ~ x == y.
Proof.
  split.
  - apply Qeq_bool_neq.
  - intro H. destruct (Qeq_bool x y) eqn:E; trivial.
    apply Qeq_bool_iff in E. contradiction.
Qed.

Ltac qprop :=
  repeat match goal with
  | H : (_ && _)%bool = true |- _ => apply andb_prop in H; destruct H
  | H : negb _ = true |- _ => apply negb_true_iff in H
  | H : negb _ = false |- _ => apply negb_false_iff in H
  | H : Qltb _ _ = true |- _ => apply Qltb_true in H
  | H : Qltb _ _ = false |- _ => apply Qltb_false in H
  | H : Qle_bool _ _ = true |- _ => apply Qle_bool_iff in H
  | H : Qle_bool _ _ = false |- _ => apply Qle_bool_false in H
  | H : Qeq_bool _ _ = true |- _ => apply Qeq_bool_iff in H
  | H : Qeq_bool _ _ = false |- _ => apply Qeq_bool_false in H
  end.

Lemma pymin_spec (a b : Q) :
  (pymin a b = a /\ a <= b) \/ (pymin a b = b /\ b < a).
Proof.
  unfold pymin. destruct (Qltb b a) eqn:E; qprop; auto.
Qed.

Lemma pymax_spec (a b : Q) :
  (pymax a b = a /\ b <= a) \/ (pymax a b = b /\ a < b).
Proof.
  unfold pymax. destruct (Qltb a b) eqn:E; qprop; auto.
Qed.

Lemma fold_pymax_ge (r : list Q) : forall x,
  x <= fold_left pymax r x /\ (forall y, In y r -> y <= fold_left pymax r x).
Proof.
  induction r as [|z r IH]; intros x; simpl.
  - split; [lra | tauto].
  - destruct (IH (pymax x z)) as [H1 H2].
    destruct (pymax_spec x z) as [[E Hle]|[E Hlt]]; rewrite E in *.
    + split; [exact H1|]. intros y [->|Hy]; [lra | auto].
    + split; [lra|]. intros y [->|Hy]; [lra | auto].
Qed.

Lemma fold_pymax_in (r : list Q) : forall x,
  fold_left pymax r x = x \/ In (fold_left pymax r x) r.
Proof.
  induction r as [|z r IH]; intros x; simpl; [now left|].
  destruct (IH (pymax x z)) as [H|H]; [|now right; right].
  rewrite H. destruct (pymax_spec x z) as [[E _]|[E _]]; rewrite E; auto.
Qed.

Lemma list_max_ge (l : list Q) (x : Q) : In x l -> x <= list_max l.
Proof.
  destruct l as [|a r]; simpl; [tauto|].
  destruct (fold_pymax_ge r a) as [H1 H2].
  intros [->|H]; auto.
Qed.

Lemma list_max_in (l : list Q) : l <> [] -> In (list_max l) l.
Proof.
  destruct l as [|a r]; [congruence|]. intros _. simpl.
  destruct (fold_pymax_in r a) as [H|H]; [left; now rewrite H | now right].
Qed.

(** ** Stable insertion sort *)

Section Sorting.

Context {A : Type} (lt : A -> A -> bool).

Lemma insert_by_In (x z : A) (l : list A) :
  In z (insert_by lt x l) <-> z = x \/ In z l.
Proof.
  induction l as [|y l IH]; simpl.
  - intuition.
  - destruct (lt x y); simpl; rewrite ?IH; intuition.
Qed.

Lemma sort_by_In_acc (l : list A) : forall acc z,
  In z (fold_left (fun acc x => insert_by lt x acc) l acc)
  <-> In z l \/ In z acc.
Proof.
  induction l as [|x l IH]; intros acc z; simpl.
  - intuition.
  - rewrite IH, insert_by_In. intuition.
Qed.

Lemma sort_by_In (l : list A) (z : A) : In z (sort_by lt l) <-> In z l.
Proof.
  unfold sort_by. rewrite sort_by_In_acc. simpl. intuition.
Qed.

Lemma sort_by_nil (l : list A) : sort_by lt l = [] -> l = [].
Proof.
  destruct l as [|x l]; trivial. intro H.
  assert (Hin : In x (sort_by lt (x :: l))) by (apply sort_by_In; now left).
  rewrite H in Hin. destruct Hin.
Qed.

Hypothesis lt_trans :
  forall x y z, lt x y = true -> lt y z = true -> lt x z = true.
Hypothesis lt_asym : forall x y, lt x y = true -> lt y x = false.

Lemma insert_by_ordered (x : A) (l : list A) :
  ordered lt l -> ordered lt (insert_by lt x l).
Proof.
  unfold ordered. induction l as [|y l IH]; intros Hs; simpl.
  - repeat constructor.
  - inversion Hs as [|? ? Hl Hy]; subst.
    destruct (lt x y) eqn:E.
    + constructor; [exact Hs|]. constructor; [now apply lt_asym|].
      rewrite Forall_forall in *. intros z Hz.
      destruct (lt z x) eqn:Ezx; trivial.
      specialize (Hy z Hz). rewrite (lt_trans _ _ _ Ezx E) in Hy.
      discriminate.
    + constructor; [now apply IH|].
      rewrite Forall_forall in *. intros z Hz.
      apply insert_by_In in Hz. destruct Hz as [->|Hz]; auto.
Qed.

Lemma sort_by_ordered_acc (l : list A) : forall acc,
  ordered lt acc ->
  ordered lt (fold_left (fun acc x => insert_by lt x acc) l acc).
Proof.
  induction l as [|x l IH]; intros acc Hacc; simpl; trivial.
  apply IH. now apply insert_by_ordered.
Qed.

Lemma sort_by_ordered (l : list A) : ordered lt (sort_by lt l).
Proof.
  apply sort_by_ordered_acc. constructor.
Qed.

Lemma ordered_head (x : A) (l : list A) (z : A) :
  ordered lt (x :: l) -> In z l -> lt z x = false.
Proof.
  intros Hs Hz. inversion Hs as [|? ? _ Hall]; subst.
  rewrite Forall_forall in Hall. now apply Hall.
Qed.

Lemma last_cons (l : list A) : forall x y, last (y :: l) x = last l y.
Proof.
  induction l as [|w l IH]; intros x y; trivial.
  change (last (y :: w :: l) x) with (last (w :: l) x).
  now rewrite !IH.
Qed.

Lemma last_In (l : list A) (x : A) : In (last l x) (x :: l).
Proof.
  revert x. induction l as [|w l IH]; intro x; [now left|].
  rewrite last_cons. right. apply IH.
Qed.

Lemma ordered_last (l : list A) : forall x z,
  ordered lt (x :: l) -> In z (x :: l) -> lt (last l x) z = false \/ z = last l x.
Proof.
  induction l as [|y l IH]; intros x z Hs Hz.
  - simpl in *. right. intuition.
  - inversion Hs as [|? ? Hl Hall]; subst.
    rewrite last_cons.
    destruct Hz as [->|Hz].
    + left. rewrite Forall_forall in Hall. apply Hall. apply last_In.
    + now apply IH.
Qed.

End Sorting.

(** ** Stock selection *)

Lemma candidate_lt_trans (x y z : StockCandidate) :
  candidate_lt x y = true -> candidate_lt y z = true ->
  candidate_lt x z = true.
Proof.
  destruct x as [[s1 w1] p1], y as [[s2 w2] p2], z as [[s3 w3] p3].
  unfold candidate_lt. rewrite !orb_true_iff, !andb_true_iff.
  rewrite !Qltb_true, !Qeq_bool_iff.
  intros [H1|[H1 H1']] [H2|[H2 H2']]; [left|left|left|right; split]; lra.
Qed.

Lemma candidate_lt_asym (x y : StockCandidate) :
  candidate_lt x y = true -> candidate_lt y x = false.
Proof.
  destruct x as [[s1 w1] p1], y as [[s2 w2] p2].
  unfold candidate_lt. rewrite orb_true_iff, andb_true_iff.
  rewrite orb_false_iff, andb_false_iff.
  rewrite !Qltb_true, !Qltb_false, Qeq_bool_iff, Qeq_bool_false.
  intros [H|[H H']]; (split; [lra | first [left; lra | right; lra]]).
Qed.

Lemma candidate_lt_false (x y : StockCandidate) :
  candidate_lt x y = false -> cand_stock x <= cand_stock y.
Proof.
  destruct x as [[s1 w1] p1], y as [[s2 w2] p2].
  unfold candidate_lt, cand_stock. simpl.
  rewrite orb_false_iff, Qltb_false. intros [H _]. lra.
Qed.

Lemma desc_lt_trans {A : Type} (key : A -> Q) (x y z : A) :
  Qltb (key y) (key x) = true -> Qltb (key z) (key y) = true ->
  Qltb (key z) (key x) = true.
Proof. rewrite !Qltb_true. lra. Qed.

Lemma desc_lt_asym {A : Type} (key : A -> Q) (x y : A) :
  Qltb (key y) (key x) = true -> Qltb (key x) (key y) = false.
Proof. rewrite Qltb_true, Qltb_false. lra. Qed.

Lemma sort_desc_In {A : Type} (key : A -> Q) (l : list A) (z : A) :
  In z (sort_desc key l) <-> In z l.
Proof. apply sort_by_In. Qed.

Lemma candidate_stocks_In (stocks : list Q) (remaining : list Part)
  (c : StockCandidate) :
  In c (candidate_stocks stocks remaining) <->
  In (cand_stock c) stocks
  /\ all_fit_in_stock remaining (cand_stock c) = true
  /\ c = (cand_stock c,
          cand_stock c - pysum (map length remaining),
          waste_pct (cand_stock c - pysum (map length remaining))
            (cand_stock c)).
Proof.
  unfold candidate_stocks. rewrite in_flat_map. split.
  - intros (s & Hs & Hc). apply sort_desc_In in Hs.
    destruct (all_fit_in_stock remaining s) eqn:E; [|destruct Hc].
    destruct Hc as [<-|[]]. simpl. auto.
  - intros (Hs & Hfit & Hc). exists (cand_stock c). split.
    + now apply sort_desc_In.
    + rewrite Hfit. left. now symmetry.
Qed.

Lemma candidate_for_largest_In (stocks : list Q) (largest : Q)
  (c : StockCandidate) :
  In c (candidate_for_largest stocks largest) <->
  In (cand_stock c) stocks
  /\ largest <= cand_stock c
  /\ c = (cand_stock c, cand_stock c - largest,
          waste_pct (cand_stock c - largest) (cand_stock c)).
Proof.
  unfold candidate_for_largest. rewrite in_flat_map. split.
  - intros (s & Hs & Hc). apply sort_desc_In in Hs.
    destruct (Qle_bool largest s) eqn:E; [|destruct Hc].
    destruct Hc as [<-|[]]. simpl. apply Qle_bool_iff in E. auto.
  - intros (Hs & Hfit & Hc). exists (cand_stock c). split.
    + now apply sort_desc_In.
    + apply Qle_bool_iff in Hfit. rewrite Hfit. left. now symmetry.
Qed.

Lemma all_fit_total (remaining : list Part) (s : Q) :
  all_fit_in_stock remaining s = true ->
  Qle_bool (pysum (map length remaining)) s = true.
Proof.
  unfold all_fit_in_stock. intro H. now apply andb_prop in H.
Qed.

(** C9: when the remaining parts fit the longest stock one by one, a stock
    length is always selected; if some stock length holds all remaining
    parts together (their total length and every single part), the selected
    one is the shortest such stock length; if none does, the selected one is
    the longest stock length, which holds the largest remaining part. *)
Theorem C9_stock_selection (stocks : list Q) (remaining : list Part) :
  stocks <> [] ->
  list_max (map length remaining) <= list_max stocks ->
  exists best_stock,
    select_best_stock stocks remaining = Some best_stock
    /\ In best_stock stocks
    /\ (existsb (all_fit_in_stock remaining) stocks = true ->
        all_fit_in_stock remaining best_stock = true
        /\ forall s, In s stocks ->
             all_fit_in_stock remaining s = true -> best_stock <= s)
    /\ (existsb (all_fit_in_stock remaining) stocks = false ->
        list_max (map length remaining) <= best_stock
        /\ forall s, In s stocks -> s <= best_stock).
Proof.
  intros Hne Hlargest. unfold select_best_stock.
  pose proof (sort_by_ordered candidate_lt candidate_lt_trans
                candidate_lt_asym (candidate_stocks stocks remaining))
    as Hord.
  pose proof (sort_by_In candidate_lt (candidate_stocks stocks remaining))
    as Hin.
  destruct (sort_by candidate_lt (candidate_stocks stocks remaining))
    as [|c0 cs] eqn:Esort.
  - (* no stock holds everything *)
    assert (Hnone : existsb (all_fit_in_stock remaining) stocks = false).
    { destruct (existsb _ stocks) eqn:E; trivial.
      apply existsb_exists in E. destruct E as (s & Hs & Hfit).
      exfalso. apply (Hin (s, s - pysum (map length remaining),
                           waste_pct (s - pysum (map length remaining)) s)).
      apply candidate_stocks_In. simpl. auto. }
    pose proof (sort_by_ordered candidate_lt candidate_lt_trans
                  candidate_lt_asym
                  (candidate_for_largest stocks
                     (list_max (map length remaining)))) as Hord'.
    pose proof (sort_by_In candidate_lt
                  (candidate_for_largest stocks
                     (list_max (map length remaining)))) as Hin'.
    set (m := list_max stocks) in *.
    set (cm := (m, m - list_max (map length remaining),
                waste_pct (m - list_max (map length remaining)) m)).
    assert (Hcm : In cm (candidate_for_largest stocks
                           (list_max (map length remaining)))).
    { apply candidate_for_largest_In. simpl. repeat split; trivial.
      now apply list_max_in. }
    destruct (sort_by candidate_lt (candidate_for_largest _ _))
      as [|d0 ds] eqn:Esort'.
    { apply Hin' in Hcm. destruct Hcm. }
    exists (cand_stock d0).
    assert (Hd0 : In d0 (d0 :: ds)) by now left.
    apply Hin', candidate_for_largest_In in Hd0.
    destruct Hd0 as (Hd0s & Hd0l & _).
    assert (Hm : m <= cand_stock d0).
    { apply Hin' in Hcm. destruct Hcm as [->|Hcm]; [apply Qle_refl|].
      change m with (cand_stock cm). apply candidate_lt_false.
      eapply ordered_head; eauto. }
    split; [reflexivity|]. split; [exact Hd0s|]. split.
    + rewrite Hnone. discriminate.
    + intros _. split; [exact Hd0l|].
      intros s Hs. apply (list_max_ge stocks) in Hs. fold m in Hs. lra.
  - (* some stock holds everything *)
    assert (Hall : forall c, In c (c0 :: cs) ->
              In (cand_stock c) stocks
              /\ all_fit_in_stock remaining (cand_stock c) = true).
    { intros c Hc. apply Hin, candidate_stocks_In in Hc. tauto. }
    assert (Hsome : existsb (all_fit_in_stock remaining) stocks = true).
    { apply existsb_exists. exists (cand_stock c0). apply Hall. now left. }
    assert (Hcand : forall s, In s stocks ->
              all_fit_in_stock remaining s = true ->
              exists c, In c (c0 :: cs) /\ cand_stock c = s).
    { intros s Hs Hfit.
      exists (s, s - pysum (map length remaining),
              waste_pct (s - pysum (map length remaining)) s).
      split; trivial. apply Hin, candidate_stocks_In. simpl. auto. }
    destruct (1 <? List.length (c0 :: cs))%nat eqn:Elen.
    + pose proof (last_In cs c0) as Hlast.
      destruct (Hall _ Hlast) as [Hls Hlfit].
      rewrite (all_fit_total _ _ Hlfit).
      exists (cand_stock (last cs c0)).
      split; [reflexivity|]. split; [exact Hls|]. split.
      * intros _. split; [exact Hlfit|].
        intros s Hs Hfit. destruct (Hcand s Hs Hfit) as (c & Hc & <-).
        destruct (ordered_last candidate_lt cs c0 c Hord Hc) as [H| ->].
        -- now apply candidate_lt_false.
        -- apply Qle_refl.
      * rewrite Hsome. discriminate.
    + assert (cs = []) as ->.
      { destruct cs; trivial. simpl in Elen. discriminate. }
      destruct (Hall c0 (or_introl eq_refl)) as [H0s H0fit].
      exists (cand_stock c0).
      split; [reflexivity|]. split; [exact H0s|]. split.
      * intros _. split; [exact H0fit|].
        intros s Hs Hfit. destruct (Hcand s Hs Hfit) as (c & [<-|[]] & <-).
        apply Qle_refl.
      * rewrite Hsome. discriminate.
Qed.

(** ** Placements keep the length of their part *)

Lemma Forall_app_intro {A : Type} (P : A -> Prop) (l1 l2 : list A) :
  Forall P l1 -> Forall P l2 -> Forall P (l1 ++ l2).
Proof. intros. apply Forall_app. now split. Qed.

Lemma Forall_filter {A : Type} (P : A -> Prop) (f : A -> bool)
  (l : list A) : Forall P l -> Forall P (filter f l).
Proof.
  rewrite !Forall_forall. intros H x Hx. apply filter_In in Hx. now apply H.
Qed.

Lemma filter_nil_Forall {A : Type} (f : A -> bool) (l : list A) :
  filter f l = [] -> Forall (fun x => f x = false) l.
Proof.
  induction l as [|x l IH]; simpl; [constructor|].
  destruct (f x) eqn:E; [discriminate|]. intro H. constructor; auto.
Qed.

Section ProfileFacts.

Variable tan : Q -> Q.
Variable estimated_profile_depth : Q.
Variable stock_lengths_list : list Q.

Lemma pair_step_wf (best_stock : Q) (t : PairingType) (part1 part2 : Part)
  (bar : Bar) :
  bar_wf bar ->
  bar_wf (fst (pair_step tan estimated_profile_depth stock_lengths_list
                 best_stock t part1 part2 bar)).
Proof.
  unfold bar_wf, pair_step. intro Hwf.
  destruct (pair_lengths _ _ _ _ _) as [shared combined].
  assert (Hplaced : forall c1 c2 s1 s2 b1 b2,
            Forall placement_wf
              (pattern_parts bar
               ++ [mkPlacement part1 c1 (length part1) s1 b1;
                   mkPlacement part2 c2 (length part2) s2 b2])).
  { intros. apply Forall_app_intro; trivial.
    repeat constructor. }
  repeat match goal with
  | |- context [if ?c then _ else _] => destruct c
  | |- context [match ?o with Some _ => _ | None => _ end] => destruct o
  end; simpl; trivial;
    try (apply Forall_filter; apply Hplaced).
Qed.

Lemma pair_inner_wf (best_stock : Q) (part1 : Part) (candidates : list Part) :
  forall bar, bar_wf bar ->
  bar_wf (pair_inner tan estimated_profile_depth stock_lengths_list
            best_stock part1 candidates bar).
Proof.
  induction candidates as [|part2 rest IH]; intros bar Hwf; simpl; trivial.
  destruct (part_in part2 (parts_to_remove bar)); [now apply IH|].
  destruct (find_pairing part1 part2) as [t|]; [|now apply IH].
  pose proof (pair_step_wf best_stock t part1 part2 bar Hwf) as Hstep.
  destruct (pair_step _ _ _ _ _ _ _ _) as [bar' [|]]; simpl in Hstep; auto.
Qed.

Lemma pair_outer_wf (best_stock : Q) (valid : list Part) :
  forall bar, bar_wf bar ->
  bar_wf (pair_outer tan estimated_profile_depth stock_lengths_list
            best_stock valid bar).
Proof.
  induction valid as [|part1 rest IH]; intros bar Hwf; simpl; trivial.
  destruct (Qltb _ _); trivial.
  destruct (part_in part1 _); [now apply IH|].
  destruct (negb _); [now apply IH|].
  apply IH. now apply pair_inner_wf.
Qed.

Lemma pair_search_wf (best_stock : Q) (valid : list Part) (bar : Bar) :
  bar_wf bar ->
  bar_wf (pair_search tan estimated_profile_depth stock_lengths_list
            best_stock valid bar).
Proof.
  unfold pair_search. intro Hwf.
  destruct (_ <=? _)%nat; trivial. now apply pair_outer_wf.
Qed.

Lemma flip_length (part : Part) : length (flip part) = length part.
Proof. reflexivity. Qed.

Lemma fill_wf (best_stock : Q) (valid : list Part) (l : list Part) :
  forall bar pool, bar_wf bar ->
  bar_wf (fst (fill best_stock valid l bar pool)).
Proof.
  induction l as [|part rest IH]; intros bar pool Hwf; simpl; trivial.
  destruct (part_in part (parts_to_remove bar)); [now apply IH|].
  destruct (negb (part_in part valid)); [now apply IH|].
  destruct (Qltb (best_stock + tolerance_mm) (current_length bar)); trivial.
  destruct (boundary (pattern_parts bar) part) as [flip_it kerf_mm].
  assert (Hnew : Forall placement_wf
            (pattern_parts bar
             ++ [mkPlacement (if flip_it then flip part else part)
                   (cut_position bar) (length part)
                   (part_slope_info (if flip_it then flip part else part))
                   false])).
  { apply Forall_app_intro; trivial. constructor; [|constructor].
    unfold placement_wf. simpl. now destruct flip_it. }
  destruct (Qltb (best_stock + tolerance_mm) _); [now apply IH|].
  destruct (Qltb (best_stock + 0.1) _).
  { simpl. now apply Forall_filter. }
  destruct (Qle_bool _ _); [exact Hnew|].
  now apply IH.
Qed.

(** ** Validation *)

Lemma validate_spec (best_stock : Q) (bar : Bar) (remaining : list Part)
  (patterns : list CuttingPattern) (rejected : list Rejected) :
  let st := validate best_stock bar remaining patterns rejected in
  incl rejected (rejected_parts st)
  /\ (cutting_patterns st = patterns
      \/ (cutting_patterns st
          = patterns
            ++ [mkPattern best_stock (pattern_parts bar)
                  (best_stock - pymin (current_length bar) best_stock)
                  (waste_pct
                     (best_stock - pymin (current_length bar) best_stock)
                     best_stock)
                  (current_length bar)]
          /\ current_length bar <= best_stock + tolerance_mm
          /\ Forall (fun pp => pp_length pp <= best_stock)
               (pattern_parts bar))).
Proof.
  unfold validate. destruct (pattern_parts bar) as [|pp pps] eqn:Epps.
  { simpl. split; [apply incl_refl | now left]. }
  rewrite <- Epps.
  destruct (Qltb (best_stock + 0.1) (current_length bar)) eqn:E1.
  { simpl. split; [now apply incl_appl, incl_refl | now left]. }
  destruct (negb _ && _)%bool.
  { simpl. split; [now apply incl_appl, incl_refl | now left]. }
  destruct (Qltb (_ + _ + 10) _).
  { simpl. split; [now apply incl_appl, incl_refl | now left]. }
  destruct (filter _ (pattern_parts bar)) eqn:Einv.
  - simpl. split; [apply incl_refl | right]. split; trivial.
    apply Qltb_false in E1. split; [exact E1|].
    apply filter_nil_Forall in Einv. rewrite Forall_forall in *.
    intros x Hx. specialize (Einv x Hx). now apply Qltb_false in Einv.
  - simpl. split; [now apply incl_appl, incl_refl | now left].
Qed.

(** ** One iteration and the loop *)

Lemma select_best_stock_In (remaining : list Part) (best : Q) :
  select_best_stock stock_lengths_list remaining = Some best ->
  In best stock_lengths_list.
Proof.
  unfold select_best_stock.
  pose proof (sort_by_In candidate_lt
                (candidate_stocks stock_lengths_list remaining)) as Hin.
  destruct (sort_by candidate_lt (candidate_stocks _ _)) as [|c0 cs].
  - pose proof (sort_by_In candidate_lt
                  (candidate_for_largest stock_lengths_list
                     (list_max (map length remaining)))) as Hin'.
    destruct (sort_by candidate_lt (candidate_for_largest _ _))
      as [|d0 ds]; [discriminate|].
    intros [= <-].
    assert (H : In d0 (d0 :: ds)) by now left.
    apply Hin', candidate_for_largest_In in H. tauto.
  - assert (Hall : forall c, In c (c0 :: cs) ->
              In (cand_stock c) stock_lengths_list).
    { intros c Hc. apply Hin, candidate_stocks_In in Hc. tauto. }
    destruct (_ <? _)%nat.
    + destruct (Qle_bool _ _); intros [= <-]; apply Hall;
        [apply last_In | now left].
    + intros [= <-]. apply Hall. now left.
Qed.

Lemma reject_oversized_incl (remaining : list Part)
  (rejected : list Rejected) :
  incl rejected (snd (reject_oversized stock_lengths_list remaining rejected)).
Proof.
  unfold reject_oversized. destruct (Qltb _ _); simpl.
  - apply incl_appl, incl_refl.
  - apply incl_refl.
Qed.

Lemma validate_sound (best_stock : Q) (bar : Bar) (remaining : list Part)
  (patterns : list CuttingPattern) (rejected : list Rejected) :
  In best_stock stock_lengths_list ->
  bar_wf bar ->
  let st := validate best_stock bar remaining patterns rejected in
  incl rejected (rejected_parts st)
  /\ (cutting_patterns st = patterns
      \/ exists pat, cutting_patterns st = patterns ++ [pat]
                     /\ pattern_sound stock_lengths_list pat).
Proof.
  intros Hin Hwf st.
  destruct (validate_spec best_stock bar remaining patterns rejected)
    as [Hrej [Hpat|(Hpat & Hlen & Hall)]]; fold st in Hrej, Hpat.
  - split; auto.
  - split; trivial. right. eexists. split; [exact Hpat|].
    unfold pattern_sound. simpl. repeat split; trivial.
    unfold bar_wf in Hwf. rewrite Forall_forall in *. auto.
Qed.

Lemma iteration_spec (st st' : Loop) (flow : Flow) :
  iteration tan estimated_profile_depth stock_lengths_list st = (st', flow) ->
  incl (snd (reject_oversized stock_lengths_list (remaining_parts st)
               (rejected_parts st)))
    (rejected_parts st')
  /\ (cutting_patterns st' = cutting_patterns st
      \/ exists pat, cutting_patterns st' = cutting_patterns st ++ [pat]
                     /\ pattern_sound stock_lengths_list pat).
Proof.
  unfold iteration.
  destruct (reject_oversized _ _ _) as [remaining rejected]. simpl.
  destruct remaining as [|r0 rs].
  { intros [= <- <-]. simpl. split; [apply incl_refl | now left]. }
  destruct (select_best_stock _ _) as [best_stock|] eqn:Ebest.
  2:{ intros [= <- <-]. simpl. split; [apply incl_refl | now left]. }
  apply select_best_stock_In in Ebest.
  destruct (filter _ (r0 :: rs)) as [|f0 fs].
  { intros [= <- <-]. simpl. split; [apply incl_refl | now left]. }
  set (valid := sort_desc length (f0 :: fs)).
  set (paired := pair_search _ _ _ _ _ _).
  assert (Hpaired : bar_wf paired).
  { apply pair_search_wf. constructor. }
  pose proof (fill_wf best_stock valid
                (order_candidates best_stock (pattern_parts paired)
                   (filter (fun p => negb (part_in p (parts_to_remove paired)))
                      valid))
                paired (r0 :: rs) Hpaired) as Hfill.
  destruct (fill _ _ _ _ _) as [bar pool]. simpl in Hfill.
  destruct (parts_to_remove bar) as [|q qs].
  - destruct (remove_all [] pool) as [|first_part others].
    + intros [= <- <-]. simpl. split; [apply incl_refl | now left].
    + destruct (Qltb _ _).
      * intros [= <- <-]. now apply validate_sound.
      * intros [= <- <-]. simpl. split; [apply incl_refl | now left].
  - intros [= <- <-]. now apply validate_sound.
Qed.

Lemma nesting_loop_rejected (fuel : nat) : forall st,
  incl (rejected_parts st)
    (rejected_parts
       (nesting_loop tan estimated_profile_depth stock_lengths_list fuel st)).
Proof.
  induction fuel as [|fuel IH]; intro st; simpl.
  - destruct (remaining_parts st); apply incl_refl.
  - destruct (remaining_parts st); [apply incl_refl|].
    destruct (iteration _ _ _ st) as [st' flow] eqn:Eit.
    destruct (iteration_spec _ _ _ Eit) as [Hrej _].
    assert (H : incl (rejected_parts st) (rejected_parts st')).
    { eapply incl_tran; [apply reject_oversized_incl | exact Hrej]. }
    destruct flow; trivial. eapply incl_tran; [exact H | apply IH].
Qed.

Lemma nesting_loop_sound (fuel : nat) : forall st,
  Forall (pattern_sound stock_lengths_list) (cutting_patterns st) ->
  Forall (pattern_sound stock_lengths_list)
    (cutting_patterns
       (nesting_loop tan estimated_profile_depth stock_lengths_list fuel st)).
Proof.
  induction fuel as [|fuel IH]; intros st Hst; simpl.
  - destruct (remaining_parts st); trivial.
  - destruct (remaining_parts st); trivial.
    destruct (iteration _ _ _ st) as [st' flow] eqn:Eit.
    destruct (iteration_spec _ _ _ Eit) as [_ Hpat].
    assert (H : Forall (pattern_sound stock_lengths_list)
                  (cutting_patterns st')).
    { destruct Hpat as [->|(pat & -> & Hsound)]; trivial.
      apply Forall_app_intro; trivial. now constructor. }
    destruct flow; auto.
Qed.

(** ** Claims on the loop *)

Lemma nest_profile_sound (parts : list Part) :
  Forall (pattern_sound stock_lengths_list)
    (cutting_patterns
       (nest_profile tan estimated_profile_depth stock_lengths_list parts)).
Proof.
  unfold nest_profile. apply nesting_loop_sound. constructor.
Qed.

Lemma pymin_le_r (a b : Q) : pymin a b <= b.
Proof. destruct (pymin_spec a b) as [[-> H]|[-> H]]; lra. Qed.

Lemma pymin_le_l (a b : Q) : pymin a b <= a.
Proof. destruct (pymin_spec a b) as [[-> H]|[-> H]]; lra. Qed.

(** C1 (amended): every emitted pattern consumes at most its stock length
    plus the 0.1 mm tolerance; its waste is the stock length minus the
    consumption capped at the stock length, hence never negative, equal to
    stock minus consumption whenever the consumption does not exceed the
    stock, and 0 otherwise; a candidate whose consumption exceeds the stock
    by more than the tolerance is turned down by the validation and no
    pattern is appended for it. *)
Theorem C1_pattern_within_tolerance (parts : list Part)
  (pat : CuttingPattern) :
  In pat
    (cutting_patterns
       (nest_profile tan estimated_profile_depth stock_lengths_list parts)) ->
  consumed_length pat <= stock_length pat + 0.1
  /\ waste pat
     == stock_length pat - pymin (consumed_length pat) (stock_length pat)
  /\ 0 <= waste pat
  /\ (consumed_length pat <= stock_length pat ->
      waste pat == stock_length pat - consumed_length pat)
  /\ (stock_length pat < consumed_length pat -> waste pat == 0)
  /\ (forall best_stock bar remaining patterns rejected,
        best_stock + 0.1 < current_length bar ->
        cutting_patterns
          (validate best_stock bar remaining patterns rejected)
        = patterns).
Proof.
  intro Hin.
  pose proof (nest_profile_sound parts) as Hall.
  rewrite Forall_forall in Hall.
  destruct (Hall pat Hin) as (_ & Hlen & Hwaste & _).
  unfold tolerance_mm in Hlen.
  pose proof (pymin_le_r (consumed_length pat) (stock_length pat)) as Hr.
  split; [exact Hlen|]. split; [now rewrite Hwaste|].
  split; [rewrite Hwaste; lra|]. split; [|split].
  - intro Hle. rewrite Hwaste.
    destruct (pymin_spec (consumed_length pat) (stock_length pat))
      as [[-> _]|[-> H]]; lra.
  - intro Hlt. rewrite Hwaste.
    destruct (pymin_spec (consumed_length pat) (stock_length pat))
      as [[-> H]|[-> _]]; lra.
  - intros best_stock bar remaining patterns rejected Hover.
    unfold validate. destruct (pattern_parts bar); trivial.
    apply Qltb_true in Hover. now rewrite Hover.
Qed.

(** *** Oversize rejection *)

Lemma part_eqb_refl (p : Part) : part_eqb p p = true.
Proof. unfold part_eqb. apply Z.eqb_refl. Qed.

Lemma part_eqb_eq (p q : Part) :
  part_eqb p q = true <-> product_id p = product_id q.
Proof. unfold part_eqb. apply Z.eqb_eq. Qed.

Lemma same_id_same_part (l : list Part) (p q : Part) :
  NoDup (map product_id l) -> In p l -> In q l ->
  product_id p = product_id q -> p = q.
Proof.
  induction l as [|x l IH]; simpl; [tauto|].
  intros Hnd Hp Hq Hid. inversion Hnd as [|? ? Hx Hl]; subst.
  destruct Hp as [->|Hp], Hq as [->|Hq]; trivial.
  - exfalso. apply Hx. rewrite Hid. now apply in_map.
  - exfalso. apply Hx. rewrite <- Hid. now apply in_map.
  - now apply IH.
Qed.

Lemma NoDup_ids_filter (f : Part -> bool) (l : list Part) :
  NoDup (map product_id l) -> NoDup (map product_id (filter f l)).
Proof.
  induction l as [|x l IH]; simpl; trivial.
  intro Hnd. inversion Hnd as [|? ? Hx Hl]; subst.
  destruct (f x); simpl; [|now apply IH].
  constructor; [|now apply IH].
  intro Hin. apply Hx. apply in_map_iff in Hin.
  destruct Hin as (y & Hy & Hin). apply filter_In in Hin.
  rewrite <- Hy. apply in_map. tauto.
Qed.

Lemma filter_all {A : Type} (f : A -> bool) (l : list A) :
  (forall x, In x l -> f x = true) -> filter f l = l.
Proof.
  induction l as [|x l IH]; simpl; trivial.
  intro H. rewrite (H x (or_introl eq_refl)). f_equal. apply IH. auto.
Qed.

Lemma remove_first_filter (p : Part) (l : list Part) :
  NoDup (map product_id l) ->
  remove_first p l = filter (fun q => negb (part_eqb q p)) l.
Proof.
  induction l as [|x l IH]; simpl; trivial.
  intro Hnd. inversion Hnd as [|? ? Hx Hl]; subst.
  destruct (part_eqb x p) eqn:E; simpl; [|now rewrite IH].
  symmetry. apply filter_all. intros y Hy.
  apply negb_true_iff. destruct (part_eqb y p) eqn:E'; trivial.
  exfalso. apply Hx. apply part_eqb_eq in E, E'. rewrite E, <- E'.
  now apply in_map.
Qed.

Lemma filter_filter {A : Type} (f g : A -> bool) (l : list A) :
  filter f (filter g l) = filter (fun x => g x && f x) l.
Proof.
  induction l as [|x l IH]; simpl; trivial.
  destruct (g x); simpl; [destruct (f x)|]; now rewrite IH.
Qed.

Lemma remove_all_filter (ps : list Part) : forall l,
  NoDup (map product_id l) ->
  remove_all ps l = filter (fun q => negb (part_in q ps)) l.
Proof.
  unfold remove_all.
  induction ps as [|p ps IH]; intros l Hnd; simpl.
  - symmetry. now apply filter_all.
  - assert (Hstep : (if part_in p l then remove_first p l else l)
                    = filter (fun q => negb (part_eqb q p)) l).
    { destruct (part_in p l) eqn:E; [now apply remove_first_filter|].
      symmetry. apply filter_all. intros y Hy.
      apply negb_true_iff. destruct (part_eqb y p) eqn:E'; trivial.
      assert (part_in p l = true); [|congruence].
      apply existsb_exists. exists y. split; trivial.
      apply part_eqb_eq in E'. now apply part_eqb_eq. }
    rewrite Hstep, IH by now apply NoDup_ids_filter.
    rewrite filter_filter. apply filter_ext. intro q.
    now rewrite negb_orb.
Qed.

Lemma part_in_filter (f : Part -> bool) (l : list Part) (q : Part) :
  NoDup (map product_id l) -> In q l ->
  part_in q (filter f l) = f q.
Proof.
  intros Hnd Hq. destruct (f q) eqn:E.
  - apply existsb_exists. exists q. split; [|apply part_eqb_refl].
    apply filter_In. now split.
  - destruct (part_in q (filter f l)) eqn:E'; trivial.
    apply existsb_exists in E'. destruct E' as (x & Hx & Heq).
    apply filter_In in Hx. destruct Hx as [Hx Hfx].
    apply part_eqb_eq in Heq.
    rewrite (same_id_same_part l q x Hnd Hq Hx Heq) in E. congruence.
Qed.

Lemma filter_ext_in' {A : Type} (f g : A -> bool) (l : list A) :
  (forall x, In x l -> f x = g x) -> filter f l = filter g l.
Proof.
  induction l as [|x l IH]; simpl; trivial.
  intro H. rewrite (H x (or_introl eq_refl)), IH; auto.
Qed.

(** With distinct ids the rejection keeps exactly the parts that fit the
    longest stock. *)
Lemma reject_oversized_remaining (parts : list Part)
  (rejected : list Rejected) :
  NoDup (map product_id parts) ->
  fst (reject_oversized stock_lengths_list parts rejected)
  = filter (fun q => Qle_bool (length q) (list_max stock_lengths_list)) parts.
Proof.
  intro Hnd. unfold reject_oversized.
  destruct (Qltb _ _) eqn:E; simpl.
  - rewrite remove_all_filter by trivial.
    apply filter_ext_in'. intros q Hq.
    rewrite part_in_filter by trivial.
    unfold Qltb. now rewrite negb_involutive.
  - symmetry. apply filter_all. intros q Hq. apply Qle_bool_iff.
    apply Qltb_false in E.
    assert (length q <= list_max (map length parts)); [|lra].
    apply list_max_ge. now apply in_map.
Qed.

Lemma reject_oversized_entries (parts : list Part)
  (rejected : list Rejected) (p : Part) :
  In p parts -> list_max stock_lengths_list < length p ->
  In (oversize_entry (list_max stock_lengths_list) p)
    (snd (reject_oversized stock_lengths_list parts rejected)).
Proof.
  intros Hp Hlong. unfold reject_oversized.
  assert (Hmax : length p <= list_max (map length parts)).
  { apply list_max_ge. now apply in_map. }
  assert (E : Qltb (list_max stock_lengths_list)
                (list_max (map length parts)) = true).
  { apply Qltb_true. lra. }
  rewrite E. simpl. apply in_or_app. right. apply in_map.
  apply filter_In. split; trivial. now apply Qltb_true.
Qed.

Lemma max_iterations_pos (pool : list Part) (p : Part) :
  In p pool -> exists fuel, max_iterations pool = S fuel.
Proof.
  intro Hp. unfold max_iterations. destruct pool as [|x pool]; [destruct Hp|].
  simpl List.length. destruct (Nat.min (S (List.length pool) * 3) 500) eqn:E.
  - lia.
  - now eexists.
Qed.

(** C4: a part longer than the longest stock is entered in the rejected
    list by the first step of the first pass, ahead of stock selection,
    pairing and filling, with a reason built from its length and the longest
    stock length; no placement of any emitted pattern holds it, in either
    orientation, since every placed part fits the longest stock; and with
    distinct part ids the rejection leaves exactly the parts that fit the
    longest stock in the pool, so the rest of the batch is still nested. *)
Theorem C4_oversize_rejected (pool : list Part) (p : Part) :
  In p pool ->
  list_max stock_lengths_list < length p ->
  let report :=
    nest_profile tan estimated_profile_depth stock_lengths_list pool in
  let longest_stock := list_max stock_lengths_list in
  (forall pat pp,
     In pat (cutting_patterns report) -> In pp (parts pat) ->
     length (pp_part pp) <= longest_stock
     /\ pp_part pp <> p /\ pp_part pp <> flip p)
  /\ In (oversize_entry longest_stock p)
       (snd (reject_oversized stock_lengths_list pool []))
  /\ In (oversize_entry longest_stock p) (rejected_parts report)
  /\ rj_product_id (oversize_entry longest_stock p) = product_id p
  /\ rj_reason (oversize_entry longest_stock p)
     = ExceedsLongestStock (length p) longest_stock
  /\ In (Num longest_stock 0)
       (reason_text (rj_reason (oversize_entry longest_stock p)))
  /\ (NoDup (map product_id pool) ->
      fst (reject_oversized stock_lengths_list pool [])
      = filter (fun q => Qle_bool (length q) longest_stock) pool).
Proof.
  intros Hp Hlong report longest_stock.
  assert (Hplaced : forall pat pp,
            In pat (cutting_patterns report) -> In pp (parts pat) ->
            length (pp_part pp) <= longest_stock).
  { intros pat pp Hpat Hpp.
    pose proof (nest_profile_sound pool) as Hall.
    rewrite Forall_forall in Hall.
    destruct (Hall pat Hpat) as (Hstock & _ & _ & Hparts).
    rewrite Forall_forall in Hparts.
    destruct (Hparts pp Hpp) as [Hwf Hle]. unfold placement_wf in Hwf.
    rewrite <- Hwf. apply (list_max_ge stock_lengths_list) in Hstock.
    unfold longest_stock. lra. }
  split; [|split; [|split; [|split; [|split; [|split]]]]].
  - intros pat pp Hpat Hpp. specialize (Hplaced pat pp Hpat Hpp).
    unfold longest_stock in Hplaced.
    split; [exact Hplaced|].
    split; intro Heq; rewrite Heq in Hplaced; simpl in Hplaced; lra.
  - now apply reject_oversized_entries.
  - unfold report, nest_profile.
    destruct (max_iterations_pos pool p Hp) as [fuel ->].
    simpl. destruct pool as [|x pool']; [destruct Hp|].
    destruct (iteration _ _ _ _) as [st' flow] eqn:Eit.
    destruct (iteration_spec _ _ _ Eit) as [Hrej _]. simpl in Hrej.
    assert (Hin : In (oversize_entry longest_stock p) (rejected_parts st')).
    { apply Hrej. now apply reject_oversized_entries. }
    destruct flow; trivial. now apply nesting_loop_rejected.
  - reflexivity.
  - reflexivity.
  - simpl. auto.
  - intro Hnd. now apply reject_oversized_remaining.
Qed.

End ProfileFacts.

Lemma C9_stock_selection_witness :
  [6000; 12000] <> []
  /\ list_max (map length [square_part 1 3000; square_part 2 2000])
     <= list_max [6000; 12000]
  /\ exists best_stock,
       select_best_stock [6000; 12000]
         [square_part 1 3000; square_part 2 2000] = Some best_stock
       /\ In best_stock [6000; 12000]
       /\ (existsb
             (all_fit_in_stock [square_part 1 3000; square_part 2 2000])
             [6000; 12000] = true ->
           all_fit_in_stock [square_part 1 3000; square_part 2 2000]
             best_stock = true
           /\ forall s, In s [6000; 12000] ->
                all_fit_in_stock [square_part 1 3000; square_part 2 2000] s
                = true -> best_stock <= s)
       /\ (existsb
             (all_fit_in_stock [square_part 1 3000; square_part 2 2000])
             [6000; 12000] = false ->
           list_max (map length [square_part 1 3000; square_part 2 2000])
           <= best_stock
           /\ forall s, In s [6000; 12000] -> s <= best_stock).
Proof.
  assert (H1 : [6000; 12000] <> []) by discriminate.
  assert (H2 : list_max (map length [square_part 1 3000; square_part 2 2000])
               <= list_max [6000; 12000]).
  { vm_compute. discriminate. }
  split; [exact H1|]. split; [exact H2|].
  exact (C9_stock_selection [6000; 12000]
           [square_part 1 3000; square_part 2 2000] H1 H2).
Defined.

(** ** Closed instances for the loop claims *)

(** C1, as stated, fails: parts of 3000.05 mm and 3000 mm on a 6000 mm
    stock are emitted as one pattern whose consumption, 6000.05 mm, exceeds
    the stock length and whose waste, 0, is not the stock length minus the
    consumption. *)
Lemma C1_counterexample :
  let report :=
    nest_profile tan_unused 400 [6000]
      [square_part 1 3000.05; square_part 2 3000] in
  map (fun pat => (stock_length pat, consumed_length pat, waste pat))
    (cutting_patterns report)
  = [(6000, 6000.05, 0)]
  /\ rejected_parts report = []
  /\ 6000 < 6000.05
  /\ (0 == 6000 - 6000.05 -> False).
Proof.
  split; [vm_compute; reflexivity|]. split; [vm_compute; reflexivity|].
  split; [reflexivity|]. intro H. vm_compute in H. discriminate H.
Qed.

Lemma C1_pattern_within_tolerance_witness :
  let report :=
    nest_profile tan_unused 400 [6000]
      [square_part 1 2000; square_part 2 3000] in
  In (first_pattern report) (cutting_patterns report)
  /\ consumed_length (first_pattern report)
     <= stock_length (first_pattern report) + 0.1
  /\ 0 <= waste (first_pattern report).
Proof.
  assert (H : In
            (first_pattern
               (nest_profile tan_unused 400 [6000]
                  [square_part 1 2000; square_part 2 3000]))
            (cutting_patterns
               (nest_profile tan_unused 400 [6000]
                  [square_part 1 2000; square_part 2 3000]))).
  { vm_compute. left. reflexivity. }
  split; [exact H|].
  pose proof (C1_pattern_within_tolerance tan_unused 400 [6000]
                [square_part 1 2000; square_part 2 3000] _ H) as Hc.
  split; [exact (proj1 Hc) | exact (proj1 (proj2 (proj2 Hc)))].
Defined.

Lemma C4_oversize_rejected_witness :
  let pool :=
    [square_part 1 7000; square_part 2 3000; square_part 3 13000;
     square_part 4 2000] in
  let report := nest_profile tan_unused 400 [6000; 12000] pool in
  In (square_part 3 13000) pool
  /\ list_max [6000; 12000] < length (square_part 3 13000)
  /\ In (oversize_entry 12000 (square_part 3 13000)) (rejected_parts report)
  /\ map (fun pat => map (fun pp => product_id (pp_part pp)) (parts pat))
       (cutting_patterns report)
     = [[1; 2; 4]%Z].
Proof.
  assert (H1 : In (square_part 3 13000)
                 [square_part 1 7000; square_part 2 3000;
                  square_part 3 13000; square_part 4 2000]).
  { right. right. left. reflexivity. }
  assert (H2 : list_max [6000; 12000] < length (square_part 3 13000)).
  { reflexivity. }
  split; [exact H1|]. split; [exact H2|]. split.
  - exact (proj1 (proj2 (proj2
             (C4_oversize_rejected tan_unused 400 [6000; 12000] _ _ H1 H2)))).
  - vm_compute. reflexivity.
Defined.

(** ** Kerf between consecutive placements *)

Lemma opposite_signs_iff (a b : Q) :
  opposite_signs a b = true <-> (0 < a /\ b < 0) \/ (a < 0 /\ 0 < b).
Proof.
  unfold opposite_signs.
  rewrite orb_true_iff, !andb_true_iff, !Qltb_true. tauto.
Qed.

Lemma can_share_iff (prev_end_has_slope : bool) (prev_end_angle : option Q)
  (start_has_slope : bool) (start_angle : option Q) :
  can_share prev_end_has_slope prev_end_angle start_has_slope start_angle
  = true
  <-> flush_boundary prev_end_has_slope prev_end_angle start_has_slope
        start_angle.
Proof.
  unfold can_share, flush_boundary.
  destruct prev_end_has_slope, start_has_slope; simpl.
  - destruct prev_end_angle as [a|], start_angle as [b|].
    + rewrite andb_true_iff, Qle_bool_iff, opposite_signs_iff. split.
      * intros [H1 H2]. right. repeat split; trivial. now exists a, b.
      * intros [[H _]|(_ & _ & a' & b' & [= <-] & [= <-] & H)];
          [discriminate | tauto].
    + split; [discriminate|].
      intros [[H _]|(_ & _ & a' & b' & _ & H & _)]; discriminate.
    + split; [discriminate|].
      intros [[H _]|(_ & _ & a' & b' & H & _)]; discriminate.
    + split; [discriminate|].
      intros [[H _]|(_ & _ & a' & b' & H & _)]; discriminate.
  - split; [discriminate|]. intros [[H _]|(_ & H & _)]; discriminate.
  - split; [discriminate|]. intros [[_ H]|(H & _)]; discriminate.
  - split; [auto|trivial].
Qed.

Lemma can_share_false_iff (pe : bool) (pa : option Q) (cs : bool)
  (ca : option Q) :
  can_share pe pa cs ca = false <-> ~ flush_boundary pe pa cs ca.
Proof.
  rewrite <- can_share_iff. destruct (can_share pe pa cs ca); split;
    intro H; try discriminate; trivial. now exfalso.
Qed.

(** C3 (amended): in the greedy fill of one bar the first placement takes
    no kerf; behind a placement no kerf is inserted when the touching ends
    are both square, or are both sloped with absolute angles within 2
    degrees and of opposite sign; when the incoming part does not meet that
    condition as it is but does with its start and end swapped, it is
    flipped and placed without kerf; in every other case the fixed kerf of
    3 mm is inserted.  A part that fits is placed at the running cut
    position and the consumed length grows by its length plus that kerf.
    Two square-ended parts of 2000 mm and 3000 mm on a 6000 mm stock come
    out as one pattern, the 3000 mm part at 0 and the 2000 mm part at 3000,
    with 5000 mm consumed and 1000 mm of waste. *)
Theorem C3_kerf_between_placements :
  (forall pps part, last_placement pps = None -> boundary pps part = (false, 0))
  /\ (forall pps prev part,
        last_placement pps = Some prev ->
        let pe := si_end_has_slope (pp_slope_info prev) in
        let pa := si_end_angle (pp_slope_info prev) in
        (flush_boundary pe pa (start_has_slope part) (start_angle part) ->
         boundary pps part = (false, 0))
        /\ (~ flush_boundary pe pa (start_has_slope part) (start_angle part) ->
            flush_boundary pe pa (start_has_slope (flip part))
              (start_angle (flip part)) ->
            boundary pps part = (true, 0))
        /\ (~ flush_boundary pe pa (start_has_slope part) (start_angle part) ->
            ~ flush_boundary pe pa (start_has_slope (flip part))
                (start_angle (flip part)) ->
            boundary pps part = (false, 3)))
  /\ (forall best_stock valid part rest bar pool flip_it kerf_mm,
        part_in part (parts_to_remove bar) = false ->
        part_in part valid = true ->
        current_length bar <= best_stock + 0.1 ->
        boundary (pattern_parts bar) part = (flip_it, kerf_mm) ->
        current_length bar + length part + kerf_mm <= best_stock + 0.1 ->
        exists bar' pool',
          pattern_parts bar'
          = pattern_parts bar
            ++ [mkPlacement (if flip_it then flip part else part)
                  (cut_position bar) (length part)
                  (part_slope_info (if flip_it then flip part else part))
                  false]
          /\ current_length bar' = current_length bar + length part + kerf_mm
          /\ cut_position bar' = cut_position bar + (length part + kerf_mm)
          /\ (fill best_stock valid (part :: rest) bar pool
              = fill best_stock valid rest bar' pool'
              \/ fill best_stock valid (part :: rest) bar pool
                 = (bar', pool')))
  /\ (forall tan depth,
        let report :=
          nest_profile tan depth [6000]
            [square_part 1 2000; square_part 2 3000] in
        map (fun pat => (stock_length pat, consumed_length pat, waste pat))
          (cutting_patterns report)
        = [(6000, 5000, 1000)]
        /\ map (fun pat =>
                  map (fun pp =>
                         (product_id (pp_part pp), pp_cut_position pp,
                          pp_length pp))
                    (parts pat))
             (cutting_patterns report)
           = [[(2%Z, 0, 3000); (1%Z, 3000, 2000)]]
        /\ remaining_parts report = []
        /\ rejected_parts report = []).
Proof.
  split; [|split; [|split]].
  - intros pps part H. unfold boundary. now rewrite H.
  - intros pps prev part H pe pa. unfold boundary. rewrite H. fold pe pa.
    change (start_has_slope (flip part)) with (end_has_slope part).
    change (start_angle (flip part)) with (end_angle part).
    split; [|split].
    + intro Hf. apply can_share_iff in Hf. now rewrite Hf.
    + intros Hn Hf. apply can_share_false_iff in Hn.
      apply can_share_iff in Hf. now rewrite Hn, Hf.
    + intros Hn Hn'. apply can_share_false_iff in Hn, Hn'.
      now rewrite Hn, Hn'.
  - intros best_stock valid part rest bar pool flip_it kerf_mm
      Hfresh Hvalid Hcur Hb Hfit.
    simpl. rewrite Hfresh, Hvalid, Hb. simpl.
    assert (E1 : Qltb (best_stock + tolerance_mm) (current_length bar)
                 = false) by now apply Qltb_false.
    assert (E2 : Qltb (best_stock + tolerance_mm)
                   (current_length bar + length part + kerf_mm) = false)
      by now apply Qltb_false.
    assert (E3 : Qltb (best_stock + 0.1)
                   (current_length bar + length part + kerf_mm) = false)
      by now apply Qltb_false.
    rewrite E1, E2, E3.
    eexists. eexists. split; [|split; [|split]].
    4:{ destruct (Qle_bool _ _); [right|left]; reflexivity. }
    all: reflexivity.
  - intros tn dp. vm_compute. repeat split.
Qed.

(** C3, as stated, fails: behind a pair, a part whose sloped 45 degree
    start meets the sloped 45 degree end of the previous placement is
    placed with the 3 mm kerf, since both angles have the same sign, and
    the kerf is part of the consumed length. *)
Lemma C3_counterexample :
  let part_a := mitred_end_part 1 2000 45 in
  let part_b := mitred_part 2 1500 45 45 in
  let part_c := mitred_start_part 3 1000 45 in
  let report :=
    nest_profile tan_at_45_only 200 [6000] [part_a; part_b; part_c] in
  map (fun pat =>
         map (fun pp =>
                (product_id (pp_part pp), pp_cut_position pp, pp_length pp))
           (parts pat))
    (cutting_patterns report)
  = [[(1%Z, 0, 2000); (2%Z, 1800, 1500); (3%Z, 3300, 1000)]]
  /\ map (fun pat => (stock_length pat, consumed_length pat, waste pat))
       (cutting_patterns report)
     = [(6000, 4303, 1697)]
  /\ option_map (fun pp => (si_end_has_slope (pp_slope_info pp),
                            si_end_angle (pp_slope_info pp)))
       (last_placement (firstn 2 (parts (first_pattern report))))
     = Some (true, Some 45)
  /\ (start_has_slope part_c, start_angle part_c) = (true, Some 45)
  /\ boundary (firstn 2 (parts (first_pattern report))) part_c = (false, 3)
  /\ 2000 + 1500 - 200 * 1 + 1000 + 3 == 4303.
Proof.
  vm_compute. repeat split.
Qed.

(** ** Complementary pairs *)

Lemma radians_above_threshold (a : Q) :
  1 < Qabs a -> 0.01 < Qabs a * (math_pi / 180).
Proof.
  intro Ha.
  assert (Hc : 0.017 < math_pi / 180) by reflexivity.
  set (c := math_pi / 180) in *. nra.
Qed.

Lemma pymin_value (a b : Q) : pymin a b <= a /\ pymin a b <= b.
Proof. split; [apply pymin_le_l | apply pymin_le_r]. Qed.

Section PairFacts.

Variable tan : Q -> Q.
Variable estimated_profile_depth : Q.
Variable stock_lengths_list : list Q.

(** The second cap of the source never applies: for a significant angle
    the shared length is the geometric overlap capped at 90 percent of the
    shorter part. *)
Lemma pair_lengths_spec (length1 length2 a : Q) :
  1 < Qabs a ->
  pair_lengths tan estimated_profile_depth length1 length2 (Some a)
  = (pymin (estimated_profile_depth * tan (Qabs a * (math_pi / 180)))
       (pymin length1 length2 * 0.9),
     length1 + length2
     - pymin (estimated_profile_depth * tan (Qabs a * (math_pi / 180)))
         (pymin length1 length2 * 0.9)).
Proof.
  intro Ha. unfold pair_lengths.
  assert (E1 : Qltb 1 (Qabs a) = true) by now apply Qltb_true.
  assert (E2 : Qltb 0.01 (Qabs a * (math_pi / 180)) = true).
  { apply Qltb_true. now apply radians_above_threshold. }
  rewrite E1, E2.
  set (s := estimated_profile_depth * tan (Qabs a * (math_pi / 180))).
  set (m := pymin length1 length2).
  change (if Qltb (m * 0.9) s then m * 0.9 else s) with (pymin s (m * 0.9)).
  set (shared := pymin s (m * 0.9)).
  assert (Hshared : shared <= m * 0.9) by apply pymin_le_r.
  assert (Hm : m <= length1 /\ m <= length2) by apply pymin_value.
  destruct (Qltb (length1 + length2 - shared) 0) eqn:Eneg; trivial.
  destruct (Qltb (m * 0.5) shared) eqn:Ecap; trivial.
  exfalso. apply Qltb_true in Eneg, Ecap. lra.
Qed.

Lemma pairing_case_angle (slope1 slope2 : bool) (angle1 angle2 : option Q)
  (extra : Q -> Q -> bool) (t t' : PairingType) :
  pairing_case slope1 slope2 angle1 angle2 extra t = Some t' ->
  t' = t /\ exists a, angle1 = Some a /\ 1 < Qabs a.
Proof.
  unfold pairing_case. destruct (slope1 && slope2); [|discriminate].
  destruct angle1 as [a|], angle2 as [b|]; try discriminate.
  destruct (significant_match a b && extra a b) eqn:E; [|discriminate].
  intros [= <-]. split; trivial. exists a. split; trivial.
  apply andb_prop in E. destruct E as [E _].
  unfold significant_match in E. apply andb_prop in E.
  destruct E as [_ E]. now apply Qltb_true in E.
Qed.

(** A pairing is only found on a significant angle of the first part, and
    that angle is the one the shared length is computed from. *)
Lemma find_pairing_angle (part1 part2 : Part) (t : PairingType) :
  find_pairing part1 part2 = Some t ->
  exists a, angle_for_calculation t part1 part2 = Some a /\ 1 < Qabs a.
Proof.
  unfold find_pairing, angle_for_calculation.
  repeat match goal with
  | |- or_else ?c _ = Some _ -> _ =>
      let E := fresh "E" in
      destruct c eqn:E;
      [ simpl; intros [= <-]; apply pairing_case_angle in E;
        destruct E as [-> (a & Ha & Hlt)]; simpl; rewrite Ha;
        exists a; now split
      | simpl ]
  end.
  (* the last try repeats the third case, which has just failed *)
  discriminate.
Qed.

Lemma pair_step_accepted (best_stock : Q) (t : PairingType)
  (part1 part2 : Part) (bar bar' : Bar) (flow : Flow) :
  pair_step tan estimated_profile_depth stock_lengths_list best_stock t
    part1 part2 bar = (bar', flow) ->
  parts_to_remove bar' = parts_to_remove bar ++ [part1; part2] ->
  let shared_combined :=
    pair_lengths tan estimated_profile_depth (length part1) (length part2)
      (angle_for_calculation t part1 part2) in
  current_length bar' = current_length bar + snd shared_combined
  /\ current_length bar' <= best_stock
  /\ pattern_parts bar'
     = pattern_parts bar
       ++ [mkPlacement part1 (cut_position bar) (length part1)
             (pair_slope_info part1) true;
           mkPlacement part2
             (cut_position bar + length part1 - fst shared_combined)
             (length part2) (pair_slope_info part2) true]
  /\ flow = Break.
Proof.
  unfold pair_step. intros Hstep Hacc.
  destruct (pair_lengths _ _ _ _ _) as [shared combined]. simpl.
  assert (Hne : parts_to_remove bar
                <> parts_to_remove bar ++ [part1; part2]).
  { intro H. apply (f_equal (@List.length Part)) in H.
    rewrite length_app in H. simpl in H. lia. }
  repeat match type of Hstep with
  | (if ?c then _ else _) = _ => destruct c eqn:?
  | match ?o with Some _ => _ | None => _ end = _ => destruct o eqn:?
  end;
  injection Hstep as <- <-; simpl in Hacc; try (now exfalso; apply Hne).
  simpl. repeat split. qprop. lra.
Qed.

End PairFacts.

Lemma tan_exact_at_45 (tn : Q -> Q) :
  (forall x, x == Qabs 45 * (math_pi / 180) -> tn x = 1) ->
  tn = (fun x => if Qeq_bool x (Qabs 45 * (math_pi / 180)) then 1 else tn x).
Proof.
  intro H. apply functional_extensionality. intro x.
  destruct (Qeq_bool x (Qabs 45 * (math_pi / 180))) eqn:E; trivial.
  apply H. now apply Qeq_bool_iff.
Qed.

(** C2: whenever the pairing step accepts two complementary parts, the
    consumed length grows by length1 + length2 - shared, where shared is
    depth * tan(angle), the angle being the paired angle of the first part
    in radians, capped at 90 percent of the shorter part, and the pair is
    only accepted when the bar, pair included, does not exceed the stock.
    With a tangent that is 1 at 45 degrees, two 3000 mm parts with 45
    degree end mitres (or a 45 degree end against a 45 degree start),
    depth 200 mm and one 6000 mm stock come out as one pattern that
    consumes 5800 mm and wastes 200 mm. *)
Theorem C2_complementary_pair (tn : Q -> Q) :
  (forall x, x == Qabs 45 * (math_pi / 180) -> tn x = 1) ->
  (forall depth stocks best_stock t part1 part2 bar bar' flow,
     find_pairing part1 part2 = Some t ->
     pair_step tn depth stocks best_stock t part1 part2 bar = (bar', flow) ->
     parts_to_remove bar' = parts_to_remove bar ++ [part1; part2] ->
     exists angle shared,
       angle_for_calculation t part1 part2 = Some angle
       /\ 1 < Qabs angle
       /\ shared
          = pymin (depth * tn (Qabs angle * (math_pi / 180)))
              (pymin (length part1) (length part2) * 0.9)
       /\ shared <= pymin (length part1) (length part2) * 0.9
       /\ current_length bar'
          = current_length bar + (length part1 + length part2 - shared)
       /\ current_length bar' <= best_stock)
  /\ (let report :=
        nest_profile tn 200 [6000]
          [mitred_end_part 1 3000 45; mitred_end_part 2 3000 45] in
      map (fun pat => (stock_length pat, consumed_length pat, waste pat))
        (cutting_patterns report)
      = [(6000, 5800, 200)]
      /\ map (fun pat =>
                map (fun pp =>
                       (product_id (pp_part pp), pp_cut_position pp,
                        pp_length pp, pp_pair pp))
                  (parts pat))
           (cutting_patterns report)
         = [[(1%Z, 0, 3000, true); (2%Z, 2800, 3000, true)]]
      /\ remaining_parts report = []
      /\ rejected_parts report = [])
  /\ (let report :=
        nest_profile tn 200 [6000]
          [mitred_end_part 1 3000 45; mitred_start_part 2 3000 45] in
      map (fun pat => (stock_length pat, consumed_length pat, waste pat))
        (cutting_patterns report)
      = [(6000, 5800, 200)]
      /\ remaining_parts report = []
      /\ rejected_parts report = []).
Proof.
  intro Htan. split; [|split].
  - intros depth stocks best_stock t part1 part2 bar bar' flow Hpair Hstep
      Hacc.
    destruct (find_pairing_angle part1 part2 t Hpair) as (a & Ha & Hsig).
    destruct (pair_step_accepted tn depth stocks best_stock t part1 part2
                bar bar' flow Hstep Hacc) as (Hcur & Hfit & _).
    rewrite Ha, (pair_lengths_spec tn depth _ _ a Hsig) in Hcur.
    simpl in Hcur. eexists a, _. split; [exact Ha|]. split; [exact Hsig|].
    split; [reflexivity|]. split; [apply pymin_le_r|]. now split.
  - rewrite (tan_exact_at_45 tn Htan). vm_compute. repeat split.
  - rewrite (tan_exact_at_45 tn Htan). vm_compute. repeat split.
Qed.

Lemma C2_complementary_pair_witness :
  (forall x, x == Qabs 45 * (math_pi / 180) -> tan_at_45_only x = 1)
  /\ map (fun pat => (stock_length pat, consumed_length pat, waste pat))
       (cutting_patterns
          (nest_profile tan_at_45_only 200 [6000]
             [mitred_end_part 1 3000 45; mitred_end_part 2 3000 45]))
     = [(6000, 5800, 200)].
Proof.
  assert (H : forall x, x == Qabs 45 * (math_pi / 180) ->
                        tan_at_45_only x = 1).
  { intros x Hx. unfold tan_at_45_only.
    apply Qeq_bool_iff in Hx. now rewrite Hx. }
  split; [exact H|].
  exact (proj1 (proj1 (proj2 (C2_complementary_pair tan_at_45_only H)))).
Defined.

End NestingFacts.

Module ExtractorFacts.

Import Extractor.
(** ** Unit scale *)

Section UnitScaleFacts.

Local Open Scope Q_scope.

Lemma classify_average_values (avg : Q) :
  classify_average avg = 1.0 \/ classify_average avg = 0.001.
Proof.
  unfold classify_average.
  destruct (Nesting.Qltb avg 1.0); [now left|].
  destruct (Nesting.Qltb 1000 avg); [now right|].
  destruct (Nesting.Qltb 10.0 avg); [now right | now left].
Qed.

(** C7: an average below 1 is classified as meters (factor 1.0), an
    average above 1000 as millimeters (factor 0.001), and in between the
    tie-break classifies an average above 10 as millimeters and an average
    of 10 or less as meters; the detected scale is the class of the mean of
    the sampled lengths (1.0 when nothing was sampled) and is never anything
    but 1.0 or 0.001. *)
Theorem C7_unit_scale_classes :
  (forall avg, avg < 1 -> classify_average avg = 1.0)
  /\ (forall avg, 1000 < avg -> classify_average avg = 0.001)
  /\ (forall avg, 1 <= avg -> avg <= 1000 -> 10 < avg ->
        classify_average avg = 0.001)
  /\ (forall avg, 1 <= avg -> avg <= 10 -> classify_average avg = 1.0)
  /\ (forall beams columns,
        detect_unit_scale beams columns = 1.0
        \/ detect_unit_scale beams columns = 0.001)
  /\ (forall beams columns,
        let products := match beams with [] => columns | _ => beams end in
        sampled_lengths products <> [] ->
        detect_unit_scale beams columns
        = classify_average (np_mean (sampled_lengths products)))
  /\ (forall beams columns,
        let products := match beams with [] => columns | _ => beams end in
        sampled_lengths products = [] ->
        detect_unit_scale beams columns = 1.0)
  /\ detect_unit_scale [Some 0.5; Some 0.9] [] = 1.0
  /\ detect_unit_scale [Some 6000; None; Some 12000] [] = 0.001
  /\ detect_unit_scale [] [Some 12; Some 9] = 0.001
  /\ detect_unit_scale [Some 10; Some 10] [] = 1.0
  /\ detect_unit_scale [Some 1000] [] = 0.001
  /\ detect_unit_scale [Some 1] [] = 1.0.
Proof.
  assert (Hlt : forall x y, x < y -> Nesting.Qltb x y = true).
  { intros x y H. now apply NestingFacts.Qltb_true. }
  assert (Hge : forall x y, y <= x -> Nesting.Qltb x y = false).
  { intros x y H. now apply NestingFacts.Qltb_false. }
  split; [|split; [|split; [|split; [|split; [|split; [|split]]]]]].
  - intros avg H. unfold classify_average. rewrite Hlt by lra. reflexivity.
  - intros avg H. unfold classify_average.
    rewrite Hge by lra. rewrite Hlt by lra. reflexivity.
  - intros avg H1 H2 H3. unfold classify_average.
    rewrite Hge by lra. destruct (Nesting.Qltb 1000 avg); trivial.
    rewrite Hlt by lra. reflexivity.
  - intros avg H1 H2. unfold classify_average.
    rewrite !Hge by lra. reflexivity.
  - intros beams columns. unfold detect_unit_scale.
    destruct (match beams with [] => columns | _ :: _ => beams end);
      [now left|].
    destruct (sampled_lengths _); [now left|].
    apply classify_average_values.
  - intros beams columns products Hne. unfold detect_unit_scale.
    fold products.
    destruct products as [|o os] eqn:E; [now elim Hne|].
    destruct (sampled_lengths (o :: os)); [now elim Hne | reflexivity].
  - intros beams columns products Hnil. unfold detect_unit_scale.
    fold products. destruct products as [|o os]; trivial.
    now rewrite Hnil.
  - vm_compute. repeat split.
Qed.

End UnitScaleFacts.

(** ** Vectors *)

Local Open Scope R_scope.

Lemma Rltb_true (x y : R) : Rltb x y = true <-> x < y.
Proof.
  unfold Rltb. destruct (Rlt_dec x y); split; intro H; trivial;
    [discriminate | contradiction].
Qed.

Lemma Rltb_false (x y : R) : Rltb x y = false <-> y <= x.
Proof.
  unfold Rltb. destruct (Rlt_dec x y); split; intro H; trivial;
    [discriminate | lra | lra].
Qed.

Lemma dot_vscale_l (k : R) (u v : vec3) : dot (vscale k u) v = k * dot u v.
Proof. unfold dot, vscale, vx, vy, vz. simpl. ring. Qed.

Lemma dot_vscale_r (k : R) (u v : vec3) : dot u (vscale k v) = k * dot u v.
Proof. unfold dot, vscale, vx, vy, vz. simpl. ring. Qed.

Lemma dot_vneg_l (u v : vec3) : dot (vneg u) v = - dot u v.
Proof. unfold dot, vneg, vx, vy, vz. simpl. ring. Qed.

Lemma dot_vadd_l (u v w : vec3) : dot (vadd u v) w = dot u w + dot v w.
Proof. unfold dot, vadd, vx, vy, vz. simpl. ring. Qed.

Lemma dot_vsub_l (u v w : vec3) : dot (vsub u v) w = dot u w - dot v w.
Proof. unfold dot, vsub, vx, vy, vz. simpl. ring. Qed.

Lemma dot_self_nonneg (v : vec3) : 0 <= dot v v.
Proof. unfold dot. nra. Qed.

Lemma norm_nonneg (v : vec3) : 0 <= norm v.
Proof. apply sqrt_pos. Qed.

Lemma norm_vscale (k : R) (v : vec3) : norm (vscale k v) = Rabs k * norm v.
Proof.
  unfold norm. rewrite dot_vscale_l, dot_vscale_r.
  replace (k * (k * dot v v)) with (Rsqr k * dot v v) by (unfold Rsqr; ring).
  rewrite sqrt_mult; [|apply Rle_0_sqr | apply dot_self_nonneg].
  now rewrite sqrt_Rsqr_abs.
Qed.

Lemma norm_vneg (v : vec3) : norm (vneg v) = norm v.
Proof.
  unfold norm. f_equal. unfold dot, vneg, vx, vy, vz. simpl. ring.
Qed.

Lemma rsum_nonneg (xs : list R) : Forall (fun x => 0 <= x) xs -> 0 <= rsum xs.
Proof.
  induction 1 as [|x xs Hx _ IH]; simpl; lra.
Qed.

Lemma rmean_nonneg (xs : list R) : Forall (fun x => 0 <= x) xs -> 0 <= rmean xs.
Proof.
  intro H. unfold rmean. destruct xs as [|x xs].
  - simpl. unfold Rdiv. rewrite Rmult_0_l. lra.
  - apply Rmult_le_pos; [now apply rsum_nonneg|].
    apply Rlt_le, Rinv_0_lt_compat, lt_0_INR. simpl. lia.
Qed.

(** ** The fitted plane *)

Section PlaneFitFacts.

Variable svd_last_row : list vec3 -> option vec3.

(** What a successful fit returns. *)
Lemma fit_end_plane_Some (vertices : list vec3) (end_point axis_world : vec3)
  (cut : EndCut) :
  fit_end_plane svd_last_row vertices end_point axis_world = Some cut ->
  exists row,
    svd_last_row (map (fun v => vsub v (centroid_of vertices)) vertices)
    = Some row
    /\ (3 <= List.length vertices)%nat
    /\ (let scaled := vscale (/ (norm row + 1e-10)) row in
        normal cut
        = (if Rltb (dot scaled axis_world) 0 then vneg scaled else scaled))
    /\ angle_deg cut
       = np_degrees (acos (np_clip (Rabs (dot (normal cut) axis_world)) 0 1))
    /\ confidence cut
       = Rmax 0 (1 - mean_residual vertices (normal cut) / plane_residual_mm).
Proof.
  unfold fit_end_plane.
  destruct (List.length vertices <? 3)%nat eqn:Elen; [discriminate|].
  apply Nat.ltb_ge in Elen.
  destruct (svd_last_row _) as [row|]; [|discriminate].
  intros [= <-]. exists row. simpl. repeat split; trivial.
  unfold mean_residual. now rewrite map_map.
Qed.

(** A fit over three vertices or more returns a cut whenever the
    decomposition does. *)
Lemma fit_end_plane_defined (vertices : list vec3)
  (end_point axis_world row : vec3) :
  (3 <= List.length vertices)%nat ->
  svd_last_row (map (fun v => vsub v (centroid_of vertices)) vertices)
  = Some row ->
  exists cut,
    fit_end_plane svd_last_row vertices end_point axis_world = Some cut
    /\ plane_d cut = - dot (normal cut) (centroid_of vertices).
Proof.
  intros Hlen Hrow. unfold fit_end_plane.
  apply Nat.ltb_ge in Hlen. rewrite Hlen, Hrow.
  eexists. split; reflexivity.
Qed.

Lemma oriented_dot_nonneg (scaled axis_world : vec3) :
  0 <= dot (if Rltb (dot scaled axis_world) 0 then vneg scaled else scaled)
         axis_world.
Proof.
  destruct (Rltb (dot scaled axis_world) 0) eqn:E.
  - apply Rltb_true in E. rewrite dot_vneg_l. lra.
  - now apply Rltb_false in E.
Qed.

Lemma acos_quarter (c : R) : 0 <= c <= 1 -> 0 <= acos c <= PI / 2.
Proof.
  intros [H0 H1].
  assert (Hb : 0 <= acos c <= PI) by (apply acos_bound; lra).
  split; [tauto|].
  destruct (Rle_dec (acos c) (PI / 2)) as [Hle|Hgt]; trivial.
  exfalso. apply Rnot_le_lt in Hgt.
  assert (Hcos : cos (acos c) < 0).
  { apply cos_lt_0; trivial. pose proof PI_RGT_0. lra. }
  rewrite cos_acos in Hcos by lra. lra.
Qed.

Lemma np_clip_unit (x : R) : 0 <= np_clip x 0 1 <= 1.
Proof.
  unfold np_clip. split.
  - apply Rmin_glb; [apply Rmax_r | lra].
  - apply Rmin_r.
Qed.

(** C5: a plane fit over three vertices or more whose decomposition
    succeeds returns a cut; its normal is the last right-singular vector of
    the centred vertices, scaled and turned along the axis, and its plane
    passes through the centroid of the vertices.  The confidence of the
    cut is max(0, 1 - mean_residual / tolerance), the mean residual being
    the mean over the captured vertices of their absolute offset
    |n . x + d| from that plane and the tolerance 2 mm; a residual of 0
    gives confidence 1 and a residual of 2 mm gives confidence 0. *)
Theorem C5_confidence_from_residual (vertices : list vec3)
  (end_point axis_world row : vec3) :
  (3 <= List.length vertices)%nat ->
  svd_last_row (map (fun v => vsub v (centroid_of vertices)) vertices)
  = Some row ->
  exists cut,
    fit_end_plane svd_last_row vertices end_point axis_world = Some cut
    /\ (let scaled := vscale (/ (norm row + 1e-10)) row in
        normal cut
        = (if Rltb (dot scaled axis_world) 0 then vneg scaled else scaled))
    /\ plane_d cut = - dot (normal cut) (centroid_of vertices)
    /\ mean_residual vertices (normal cut)
       = rmean
           (map (fun v => Rabs (dot (normal cut) v + plane_d cut)) vertices)
    /\ confidence cut
       = Rmax 0 (1 - mean_residual vertices (normal cut) / plane_residual_mm)
    /\ plane_residual_mm = 2
    /\ (mean_residual vertices (normal cut) = 0 -> confidence cut = 1)
    /\ (mean_residual vertices (normal cut) = plane_residual_mm ->
        confidence cut = 0).
Proof.
  intros Hlen Hrow.
  destruct (fit_end_plane_defined vertices end_point axis_world row Hlen Hrow)
    as (cut & Hfit & Hd).
  exists cut. split; [exact Hfit|].
  destruct (fit_end_plane_Some _ _ _ _ Hfit)
    as (row' & Hrow' & _ & Hn & _ & Hc).
  assert (row' = row) by congruence. subst row'.
  split; [exact Hn|]. split; [exact Hd|]. split.
  - unfold mean_residual. f_equal. apply map_ext. intro v.
    rewrite Hd. f_equal. unfold dot, vsub, vx, vy, vz. simpl. ring.
  - split; [exact Hc|]. split; [reflexivity|]. split.
    + intro H0. rewrite Hc, H0. unfold plane_residual_mm.
      rewrite Rmax_right; lra.
    + intro H2. rewrite Hc, H2. unfold plane_residual_mm.
      rewrite Rmax_left; lra.
Qed.

(** C8, as the code has it: the normal of a fitted cut never points
    against the axis, at the start extremity no more than at the end one;
    the start normal is therefore not turned outward. *)
Theorem C8_normals_follow_axis (start_vertices end_vertices : list vec3)
  (actual_start_point actual_end_point axis_world : vec3)
  (start_cut : EndCut) :
  fst (fit_end_cuts svd_last_row start_vertices end_vertices
         actual_start_point actual_end_point axis_world)
  = Some start_cut ->
  0 <= dot (normal start_cut) axis_world
  /\ forall end_cut,
       snd (fit_end_cuts svd_last_row start_vertices end_vertices
              actual_start_point actual_end_point axis_world)
       = Some end_cut ->
       0 <= dot (normal end_cut) axis_world.
Proof.
  unfold fit_end_cuts. cbn [fst snd]. intro Hstart.
  assert (Hdot : forall vs pt cut,
            fit_end_plane svd_last_row vs pt axis_world = Some cut ->
            0 <= dot (normal cut) axis_world).
  { intros vs pt cut Hfit.
    destruct (fit_end_plane_Some _ _ _ _ Hfit) as (row & _ & _ & Hn & _).
    simpl in Hn. rewrite Hn. apply oriented_dot_nonneg. }
  split.
  - revert Hstart.
    destruct (3 <=? List.length start_vertices)%nat; [|discriminate].
    apply Hdot.
  - intros end_cut.
    destruct (3 <=? List.length end_vertices)%nat; [|discriminate].
    apply Hdot.
Qed.

Lemma fitted_normal_length (vertices : list vec3)
  (end_point axis_world : vec3) (cut : EndCut) (row : vec3) :
  fit_end_plane svd_last_row vertices end_point axis_world = Some cut ->
  svd_last_row (map (fun v => vsub v (centroid_of vertices)) vertices)
  = Some row ->
  norm (normal cut) = norm row / (norm row + 1e-10).
Proof.
  intros Hfit Hrow.
  destruct (fit_end_plane_Some _ _ _ _ Hfit) as (row' & Hrow' & _ & Hn & _).
  assert (row' = row) by congruence. subst row'.
  pose proof (norm_nonneg row) as Hpos.
  rewrite Hn. cbv zeta.
  destruct (Rltb _ 0); rewrite ?norm_vneg, norm_vscale;
    (rewrite Rabs_right;
     [unfold Rdiv; ring
     | apply Rle_ge, Rlt_le, Rinv_0_lt_compat; lra]).
Qed.

Lemma fitted_angle_range (vertices : list vec3)
  (end_point axis_world : vec3) (cut : EndCut) :
  fit_end_plane svd_last_row vertices end_point axis_world = Some cut ->
  0 <= angle_deg cut <= 90.
Proof.
  intro Hfit.
  destruct (fit_end_plane_Some _ _ _ _ Hfit) as (row & _ & _ & _ & Ha & _).
  rewrite Ha. unfold np_degrees.
  pose proof (np_clip_unit (Rabs (dot (normal cut) axis_world))) as Hclip.
  pose proof (acos_quarter _ Hclip) as [Hlo Hhi].
  pose proof PI_RGT_0 as Hpi.
  assert (Hk : 0 < 180 / PI).
  { apply Rdiv_lt_0_compat; lra. }
  split; [now apply Rmult_le_pos; lra|].
  replace 90 with (PI / 2 * (180 / PI)) by (field; lra).
  apply Rmult_le_compat_r; lra.
Qed.

(** C10: the angle of a fitted cut is the arc cosine, in degrees, of the
    clamped absolute dot product of its normal with the axis, so it lies
    between 0 and 90 degrees; its confidence lies between 0 and 1; its
    normal is the unit singular vector of the decomposition divided by
    its norm plus the guard 1e-10, so it has length 1 to within 1e-10;
    fitted angles carry no sign, so the angles of two fitted cuts are
    never of opposite sign. *)
Theorem C10_end_cut_ranges (vertices : list vec3)
  (end_point axis_world : vec3) (cut : EndCut) :
  fit_end_plane svd_last_row vertices end_point axis_world = Some cut ->
  angle_deg cut
  = np_degrees (acos (np_clip (Rabs (dot (normal cut) axis_world)) 0 1))
  /\ 0 <= angle_deg cut <= 90
  /\ 0 <= confidence cut <= 1
  /\ (forall row,
        svd_last_row (map (fun v => vsub v (centroid_of vertices)) vertices)
        = Some row ->
        norm row = 1 ->
        norm (normal cut) = / (1 + 1e-10)
        /\ Rabs (norm (normal cut) - 1) < 1e-10)
  /\ (forall vertices' end_point' axis_world' cut',
        fit_end_plane svd_last_row vertices' end_point' axis_world'
        = Some cut' ->
        0 <= angle_deg cut' /\ 0 <= angle_deg cut * angle_deg cut').
Proof.
  intro Hfit.
  destruct (fit_end_plane_Some _ _ _ _ Hfit)
    as (row & Hrow & _ & Hn & Ha & Hc).
  pose proof (fitted_angle_range _ _ _ _ Hfit) as Hangle.
  split; [exact Ha|]. split; [exact Hangle|]. split; [|split].
  - rewrite Hc. split; [apply Rmax_l|].
    apply Rmax_lub; [lra|].
    assert (Hres : 0 <= mean_residual vertices (normal cut)).
    { unfold mean_residual. apply rmean_nonneg.
      rewrite Forall_forall. intros x Hx. apply in_map_iff in Hx.
      destruct Hx as (v & <- & _). apply Rabs_pos. }
    unfold plane_residual_mm. lra.
  - intros row' Hrow' Hunit.
    pose proof (fitted_normal_length _ _ _ _ _ Hfit Hrow') as Hlen.
    rewrite Hunit in Hlen.
    assert (Hinv : norm (normal cut) = / (1 + 1e-10)).
    { rewrite Hlen. unfold Rdiv. ring. }
    split; [exact Hinv|].
    assert (Hprod : (1 + 1e-10) * / (1 + 1e-10) = 1) by (apply Rinv_r; lra).
    assert (Hpos : 0 < / (1 + 1e-10)) by (apply Rinv_0_lt_compat; lra).
    rewrite Hinv. apply Rabs_def1; nra.
  - intros vertices' end_point' axis_world' cut' Hfit'.
    pose proof (fitted_angle_range _ _ _ _ Hfit') as Hangle'.
    split; [tauto|]. apply Rmult_le_pos; tauto.
Qed.

End PlaneFitFacts.

(** ** Closed instances for the fitted plane *)

Lemma norm_x_axis : norm x_axis = 1.
Proof.
  unfold norm, dot, x_axis, vx, vy, vz. simpl.
  replace (1 * 1 + 0 * 0 + 0 * 0) with 1 by ring. apply sqrt_1.
Qed.

Lemma fit_end_face_defined (end_point : vec3) :
  exists cut, fit_end_plane svd_x_axis end_face end_point x_axis = Some cut.
Proof.
  unfold fit_end_plane, svd_x_axis. simpl. eexists. reflexivity.
Qed.

Lemma fit_end_face_normal (end_point : vec3) (cut : EndCut) :
  fit_end_plane svd_x_axis end_face end_point x_axis = Some cut ->
  normal cut = vscale (/ (1 + 1e-10)) x_axis
  /\ dot (normal cut) x_axis = / (1 + 1e-10).
Proof.
  intro Hfit.
  destruct (fit_end_plane_Some _ _ _ _ _ Hfit) as (row & Hrow & _ & Hn & _).
  injection Hrow as <-. cbv zeta in Hn. rewrite norm_x_axis in Hn.
  assert (Hdot : dot (vscale (/ (1 + 1e-10)) x_axis) x_axis
                 = / (1 + 1e-10)).
  { unfold dot, vscale, x_axis, vx, vy, vz. simpl. ring. }
  assert (Hpos : 0 < / (1 + 1e-10)) by (apply Rinv_0_lt_compat; lra).
  assert (E : Rltb (dot (vscale (/ (1 + 1e-10)) x_axis) x_axis) 0 = false).
  { apply Rltb_false. lra. }
  rewrite E in Hn. rewrite Hn. now split.
Qed.

(** The end face in the plane x = 0 is met exactly: residual 0 and
    confidence 1. *)
Lemma end_face_residual (k : R) :
  mean_residual end_face (vscale k x_axis) = 0.
Proof.
  assert (Hterm : forall v,
            vx v = 0 ->
            Rabs (dot (vsub v (centroid_of end_face)) (vscale k x_axis)) = 0).
  { intros v Hv.
    replace (dot (vsub v (centroid_of end_face)) (vscale k x_axis)) with 0;
      [apply Rabs_R0|].
    unfold centroid_of, vsum, end_face. cbn [map fold_right List.length].
    unfold dot, vsub, vscale, x_axis, vadd, vx, vy, vz in *.
    cbn [fst snd] in *. rewrite Hv. ring. }
  unfold mean_residual, end_face at 2. cbn [map].
  rewrite !Hterm by reflexivity.
  unfold rmean, rsum. cbn [fold_right]. unfold Rdiv. ring.
Qed.

Lemma C5_confidence_from_residual_witness :
  (3 <= List.length end_face)%nat
  /\ svd_x_axis (map (fun v => vsub v (centroid_of end_face)) end_face)
     = Some x_axis
  /\ exists cut,
       fit_end_plane svd_x_axis end_face (0, 0, 0) x_axis = Some cut
       /\ normal cut = vscale (/ (1 + 1e-10)) x_axis
       /\ mean_residual end_face (normal cut) = 0
       /\ confidence cut = 1.
Proof.
  assert (Hlen : (3 <= List.length end_face)%nat) by (cbn; lia).
  assert (Hrow : svd_x_axis
                   (map (fun v => vsub v (centroid_of end_face)) end_face)
                 = Some x_axis) by reflexivity.
  split; [exact Hlen|]. split; [exact Hrow|].
  destruct (C5_confidence_from_residual svd_x_axis end_face (0, 0, 0) x_axis
              x_axis Hlen Hrow)
    as (cut & Hfit & _ & _ & _ & _ & _ & Hone & _).
  exists cut. split; [exact Hfit|].
  destruct (fit_end_face_normal _ _ Hfit) as [Hn _].
  assert (Hres : mean_residual end_face (normal cut) = 0).
  { rewrite Hn. apply end_face_residual. }
  split; [exact Hn|]. split; [exact Hres | exact (Hone Hres)].
Defined.

(** The start face of a bar along the x axis: the fitted start normal has
    a positive dot product with the axis, so it points into the bar. *)
Lemma C8_normals_follow_axis_witness :
  exists start_cut,
    fst (fit_end_cuts svd_x_axis end_face end_face (0, 0, 0) (10, 0, 0)
           x_axis) = Some start_cut
    /\ 0 <= dot (normal start_cut) x_axis
    /\ dot (normal start_cut) x_axis = / (1 + 1e-10)
    /\ 0 < dot (normal start_cut) x_axis.
Proof.
  destruct (fit_end_face_defined (0, 0, 0)) as [cut Hfit].
  assert (Hfst : fst (fit_end_cuts svd_x_axis end_face end_face (0, 0, 0)
                        (10, 0, 0) x_axis) = Some cut).
  { unfold fit_end_cuts. cbn [fst end_face List.length Nat.leb].
    exact Hfit. }
  exists cut. split; [exact Hfst|]. split.
  - exact (proj1 (C8_normals_follow_axis svd_x_axis end_face end_face
                    (0, 0, 0) (10, 0, 0) x_axis cut Hfst)).
  - destruct (fit_end_face_normal _ _ Hfit) as [_ Hdot]. rewrite Hdot.
    split; [reflexivity|]. apply Rinv_0_lt_compat. lra.
Defined.

Lemma C10_end_cut_ranges_witness :
  exists cut,
    fit_end_plane svd_x_axis end_face (0, 0, 0) x_axis = Some cut
    /\ 0 <= angle_deg cut <= 90
    /\ 0 <= confidence cut <= 1
    /\ norm (normal cut) = / (1 + 1e-10)
    /\ Rabs (norm (normal cut) - 1) < 1e-10.
Proof.
  destruct (fit_end_face_defined (0, 0, 0)) as [cut Hfit].
  exists cut. split; [exact Hfit|].
  destruct (C10_end_cut_ranges svd_x_axis end_face (0, 0, 0) x_axis cut Hfit)
    as (_ & Hangle & Hconf & Hnorm & _).
  split; [exact Hangle|]. split; [exact Hconf|].
  exact (Hnorm x_axis eq_refl norm_x_axis).
Defined.

(** ** Mesh length *)

Lemma rmax_list_ge (xs : list R) (x : R) : In x xs -> x <= rmax_list xs.
Proof.
  destruct xs as [|a r]; [intros []|]. simpl.
  induction r as [|b r IH]; simpl.
  - intros [<-|[]]. lra.
  - intros [Ha|[<-|Hr]].
    + eapply Rle_trans; [apply IH; now left | apply Rmax_r].
    + apply Rmax_l.
    + eapply Rle_trans; [apply IH; now right | apply Rmax_r].
Qed.

Lemma rmin_list_le (xs : list R) (x : R) : In x xs -> rmin_list xs <= x.
Proof.
  destruct xs as [|a r]; [intros []|]. simpl.
  induction r as [|b r IH]; simpl.
  - intros [<-|[]]. lra.
  - intros [Ha|[<-|Hr]].
    + eapply Rle_trans; [apply Rmin_r | apply IH; now left].
    + apply Rmin_l.
    + eapply Rle_trans; [apply Rmin_r | apply IH; now right].
Qed.

Lemma rmax_list_In (xs : list R) : xs <> [] -> In (rmax_list xs) xs.
Proof.
  destruct xs as [|a r]; [congruence|]. intros _. simpl.
  induction r as [|b r IH]; simpl; [now left|].
  destruct (Rle_dec b (fold_right Rmax a r)).
  - rewrite Rmax_right by lra.
    destruct IH as [IH|IH]; [left | right; right]; exact IH.
  - rewrite Rmax_left by lra. right. now left.
Qed.

Lemma rmin_list_In (xs : list R) : xs <> [] -> In (rmin_list xs) xs.
Proof.
  destruct xs as [|a r]; [congruence|]. intros _. simpl.
  induction r as [|b r IH]; simpl; [now left|].
  destruct (Rle_dec b (fold_right Rmin a r)).
  - rewrite Rmin_left by lra. right. now left.
  - rewrite Rmin_right by lra.
    destruct IH as [IH|IH]; [left | right; right]; exact IH.
Qed.

(** The maximum and the minimum of a list are fixed by these bounds. *)
Lemma rmax_list_unique (xs : list R) (m : R) :
  In m xs -> (forall x, In x xs -> x <= m) -> rmax_list xs = m.
Proof.
  intros Hm Hub. apply Rle_antisym.
  - apply Hub, rmax_list_In. intro E. now rewrite E in Hm.
  - now apply rmax_list_ge.
Qed.

Lemma rmin_list_unique (xs : list R) (m : R) :
  In m xs -> (forall x, In x xs -> m <= x) -> rmin_list xs = m.
Proof.
  intros Hm Hlb. apply Rle_antisym.
  - now apply rmin_list_le.
  - apply Hlb, rmin_list_In. intro E. now rewrite E in Hm.
Qed.

Lemma rmax_list_map_scale (k : R) (xs : list R) :
  0 <= k -> rmax_list (map (Rmult k) xs) = k * rmax_list xs.
Proof.
  intro Hk. destruct xs as [|a r] eqn:E; [simpl; ring|]. rewrite <- E.
  assert (Hne : xs <> []) by (rewrite E; discriminate).
  apply rmax_list_unique.
  - apply in_map. now apply rmax_list_In.
  - intros x Hx. apply in_map_iff in Hx. destruct Hx as (y & <- & Hy).
    apply Rmult_le_compat_l; trivial. now apply rmax_list_ge.
Qed.

Lemma rmin_list_map_scale (k : R) (xs : list R) :
  0 <= k -> rmin_list (map (Rmult k) xs) = k * rmin_list xs.
Proof.
  intro Hk. destruct xs as [|a r] eqn:E; [simpl; ring|]. rewrite <- E.
  assert (Hne : xs <> []) by (rewrite E; discriminate).
  apply rmin_list_unique.
  - apply in_map. now apply rmin_list_In.
  - intros x Hx. apply in_map_iff in Hx. destruct Hx as (y & <- & Hy).
    apply Rmult_le_compat_l; trivial. now apply rmin_list_le.
Qed.

Lemma rmax_list_map_shift (d : R) (xs : list R) :
  xs <> [] -> rmax_list (map (fun x => x - d) xs) = rmax_list xs - d.
Proof.
  intro Hne. apply rmax_list_unique.
  - apply in_map_iff. exists (rmax_list xs). split; trivial.
    now apply rmax_list_In.
  - intros x Hx. apply in_map_iff in Hx. destruct Hx as (y & <- & Hy).
    apply (rmax_list_ge xs) in Hy. lra.
Qed.

Lemma rmin_list_map_shift (d : R) (xs : list R) :
  xs <> [] -> rmin_list (map (fun x => x - d) xs) = rmin_list xs - d.
Proof.
  intro Hne. apply rmin_list_unique.
  - apply in_map_iff. exists (rmin_list xs). split; trivial.
    now apply rmin_list_In.
  - intros x Hx. apply in_map_iff in Hx. destruct Hx as (y & <- & Hy).
    apply (rmin_list_le xs) in Hy. lra.
Qed.

(** The extent does not depend on the point the projections are taken
    about. *)
Lemma axial_extent_raw (vs : list vec3) (a : vec3) :
  vs <> [] ->
  axial_extent vs a
  = rmax_list (map (fun v => dot v a) vs)
    - rmin_list (map (fun v => dot v a) vs).
Proof.
  intro Hne. unfold axial_extent, projections.
  assert (Hmap : map (fun v => dot (vsub v (centroid_of vs)) a) vs
                 = map (fun x => x - dot (centroid_of vs) a)
                     (map (fun v => dot v a) vs)).
  { rewrite map_map. apply map_ext. intro v. apply dot_vsub_l. }
  assert (Hne' : map (fun v => dot v a) vs <> []).
  { destruct vs; [congruence | discriminate]. }
  rewrite Hmap, rmax_list_map_shift, rmin_list_map_shift by trivial. ring.
Qed.

Lemma axial_extent_scale (k : R) (vs : list vec3) (a : vec3) :
  0 <= k -> vs <> [] ->
  axial_extent (map (vscale k) vs) a = k * axial_extent vs a.
Proof.
  intros Hk Hne.
  assert (Hne' : map (vscale k) vs <> []).
  { destruct vs; [congruence | discriminate]. }
  rewrite !axial_extent_raw by trivial.
  rewrite map_map.
  assert (Hmap : map (fun v => dot (vscale k v) a) vs
                 = map (Rmult k) (map (fun v => dot v a) vs)).
  { rewrite map_map. apply map_ext. intro v. apply dot_vscale_l. }
  rewrite Hmap, rmax_list_map_scale, rmin_list_map_scale by trivial. ring.
Qed.

Lemma axial_extent_nonneg (vs : list vec3) (a : vec3) :
  vs <> [] -> 0 <= axial_extent vs a.
Proof.
  intro Hne. rewrite axial_extent_raw by trivial.
  assert (Hne' : map (fun v => dot v a) vs <> []).
  { destruct vs; [congruence | discriminate]. }
  pose proof (rmax_list_In _ Hne') as Hin.
  apply rmin_list_le in Hin. lra.
Qed.

Lemma vec3_eq (u v : vec3) : vx u = vx v -> vy u = vy v -> vz u = vz v -> u = v.
Proof.
  destruct u as [[a b] c], v as [[a' b'] c']. unfold vx, vy, vz. simpl.
  now intros -> -> ->.
Qed.

Lemma dot_vsum (vs : list vec3) (a : vec3) :
  dot (vsum vs) a = rsum (map (fun v => dot v a) vs).
Proof.
  induction vs as [|v vs IH]; simpl.
  - unfold dot, vx, vy, vz. simpl. ring.
  - now rewrite dot_vadd_l, IH.
Qed.

Lemma dot_centroid (vs : list vec3) (a : vec3) :
  dot (centroid_of vs) a = rmean (map (fun v => dot v a) vs).
Proof.
  unfold centroid_of, rmean. rewrite dot_vscale_l, dot_vsum, length_map.
  unfold Rdiv. ring.
Qed.

Lemma rsum_bounds (xs : list R) (lo hi : R) :
  (forall x, In x xs -> lo <= x <= hi) ->
  INR (List.length xs) * lo <= rsum xs <= INR (List.length xs) * hi.
Proof.
  induction xs as [|x xs IH]; intro H.
  - simpl. lra.
  - change (List.length (x :: xs)) with (S (List.length xs)).
    rewrite S_INR. simpl rsum.
    destruct (H x (or_introl eq_refl)) as [H1 H2].
    destruct IH as [IH1 IH2]; [intros y Hy; apply H; now right|]. lra.
Qed.

Lemma rmean_between (xs : list R) :
  xs <> [] -> rmin_list xs <= rmean xs <= rmax_list xs.
Proof.
  intro Hne.
  assert (Hn : 0 < INR (List.length xs)).
  { apply lt_0_INR. destruct xs; [congruence | simpl; lia]. }
  destruct (rsum_bounds xs (rmin_list xs) (rmax_list xs)) as [H1 H2].
  { intros x Hx. split; [now apply rmin_list_le | now apply rmax_list_ge]. }
  unfold rmean, Rdiv. split.
  - apply Rmult_le_reg_l with (INR (List.length xs)); trivial.
    rewrite (Rmult_comm (rsum xs)), <- Rmult_assoc, Rinv_r by lra. lra.
  - apply Rmult_le_reg_l with (INR (List.length xs)); trivial.
    rewrite (Rmult_comm (rsum xs)), <- Rmult_assoc, Rinv_r by lra. lra.
Qed.

(** About the centroid the smallest projection is not positive and the
    largest not negative. *)
Lemma projections_straddle (vs : list vec3) (a : vec3) :
  vs <> [] ->
  rmin_list (projections vs (centroid_of vs) a) <= 0
  /\ 0 <= rmax_list (projections vs (centroid_of vs) a).
Proof.
  intro Hne. unfold projections.
  assert (Hmap : map (fun v => dot (vsub v (centroid_of vs)) a) vs
                 = map (fun x => x - dot (centroid_of vs) a)
                     (map (fun v => dot v a) vs)).
  { rewrite map_map. apply map_ext. intro v. apply dot_vsub_l. }
  assert (Hne' : map (fun v => dot v a) vs <> []).
  { destruct vs; [congruence | discriminate]. }
  rewrite Hmap, rmax_list_map_shift, rmin_list_map_shift by trivial.
  rewrite dot_centroid.
  pose proof (rmean_between _ Hne'). lra.
Qed.

Lemma vsum_scale (k : R) (vs : list vec3) :
  vsum (map (vscale k) vs) = vscale k (vsum vs).
Proof.
  induction vs as [|v vs IH]; simpl.
  - apply vec3_eq; unfold vscale, vx, vy, vz; simpl; ring.
  - rewrite IH. apply vec3_eq; unfold vadd, vscale, vx, vy, vz; simpl; ring.
Qed.

Lemma centroid_scale (k : R) (vs : list vec3) :
  centroid_of (map (vscale k) vs) = vscale k (centroid_of vs).
Proof.
  unfold centroid_of. rewrite vsum_scale, length_map.
  apply vec3_eq; unfold vscale, vx, vy, vz; simpl; ring.
Qed.

Lemma unit_axis (eigvec : vec3) :
  norm eigvec <> 0 ->
  norm (vscale (/ norm eigvec) eigvec) = 1
  /\ dot (vscale (/ norm eigvec) eigvec) (vscale (/ norm eigvec) eigvec) = 1.
Proof.
  intro Hne. pose proof (norm_nonneg eigvec) as Hpos.
  assert (H1 : norm (vscale (/ norm eigvec) eigvec) = 1).
  { rewrite norm_vscale, Rabs_right.
    - now apply Rinv_l.
    - apply Rle_ge, Rlt_le, Rinv_0_lt_compat. lra. }
  split; trivial.
  set (ax := vscale (/ norm eigvec) eigvec) in *.
  unfold norm in H1.
  rewrite <- (sqrt_sqrt (dot ax ax)) by apply dot_self_nonneg.
  rewrite H1. ring.
Qed.

Lemma norm_offset (c a : vec3) (t k : R) :
  0 <= k -> norm a = 1 ->
  norm (vsub (vscale k c) (vscale k (vadd c (vscale t a)))) = k * Rabs t.
Proof.
  intros Hk Ha.
  replace (vsub (vscale k c) (vscale k (vadd c (vscale t a))))
    with (vscale (- (k * t)) a).
  - rewrite norm_vscale, Ha, Rabs_Ropp, Rabs_mult, (Rabs_right k); lra.
  - apply vec3_eq; unfold vsub, vadd, vscale, vx, vy, vz; simpl; ring.
Qed.

Lemma vscale_1 (v : vec3) : vscale 1 v = v.
Proof. apply vec3_eq; unfold vscale, vx, vy, vz; simpl; ring. Qed.

Lemma vertices_for_length_same (vs : list vec3) (start_world end_world : vec3)
  (len : R) :
  norm (vsub (centroid_of vs) start_world) <= len * 10 ->
  norm (vsub (centroid_of vs) end_world) <= len * 10 ->
  vertices_for_length vs start_world end_world len = vs.
Proof.
  intros Hs He. unfold vertices_for_length.
  assert (E1 : Rltb (len * 10) (norm (vsub (centroid_of vs) start_world))
               = false) by now apply Rltb_false.
  assert (E2 : Rltb (len * 10) (norm (vsub (centroid_of vs) end_world))
               = false) by now apply Rltb_false.
  now rewrite E1, E2.
Qed.

Lemma rmax_list_lt (xs : list R) (b : R) :
  xs <> [] -> (forall x, In x xs -> x < b) -> rmax_list xs < b.
Proof.
  intros Hne H. apply H. now apply rmax_list_In.
Qed.

(** The converted vertices are never rescaled a second time, so the
    returned length is the extent of the converted vertices. *)
Lemma mesh_length_extent (vertices : list vec3) (eigvec : vec3) :
  (2 <= List.length vertices)%nat ->
  norm eigvec <> 0 ->
  let axis_world := vscale (/ norm eigvec) eigvec in
  let to_mm :=
    if Rltb (max_abs_all vertices) 1000
       || Rltb (axial_extent vertices axis_world) 0.1
    then 1000 else 1 in
  mesh_length vertices eigvec
  = Some (axial_extent (map (vscale to_mm) vertices) axis_world).
Proof.
  intros Hlen Hne axis_world to_mm.
  assert (Hvs : vertices <> []).
  { destruct vertices; [simpl in Hlen; lia | discriminate]. }
  destruct (unit_axis eigvec Hne) as [Hnorm Hdot].
  fold axis_world in Hnorm, Hdot.
  destruct (projections_straddle vertices axis_world Hvs) as [Hmin Hmax].
  unfold mesh_length.
  assert (E : (List.length vertices <? 2)%nat = false)
    by now apply Nat.ltb_ge.
  rewrite E. fold axis_world.
  set (c := centroid_of vertices) in *.
  set (t_min := rmin_list (projections vertices c axis_world)) in *.
  set (t_max := rmax_list (projections vertices c axis_world)) in *.
  assert (Hext : axial_extent vertices axis_world = t_max - t_min)
    by reflexivity.
  assert (Hl : Rabs (dot (vsub (vadd c (vscale t_max axis_world))
                            (vadd c (vscale t_min axis_world)))
                       axis_world)
               = t_max - t_min).
  { replace (vsub (vadd c (vscale t_max axis_world))
               (vadd c (vscale t_min axis_world)))
      with (vscale (t_max - t_min) axis_world)
      by (apply vec3_eq; unfold vsub, vadd, vscale, vx, vy, vz; simpl; ring).
    rewrite dot_vscale_l, Hdot, Rmult_1_r. apply Rabs_right. lra. }
  rewrite Hl. unfold to_mm. rewrite Hext.
  destruct (Rltb (max_abs_all vertices) 1000 || Rltb (t_max - t_min) 0.1).
  - unfold actual_length. rewrite vertices_for_length_same; trivial.
    + rewrite centroid_scale. fold c.
      rewrite norm_offset by (trivial; lra).
      rewrite Rabs_left1 by trivial. lra.
    + rewrite centroid_scale. fold c.
      rewrite norm_offset by (trivial; lra).
      rewrite Rabs_right by lra. lra.
  - assert (H1 : map (vscale 1) vertices = vertices).
    { rewrite <- (map_id vertices) at 2. apply map_ext, vscale_1. }
    rewrite H1. unfold actual_length.
    rewrite vertices_for_length_same; trivial.
    + fold c. rewrite <- (vscale_1 c) at 1.
      rewrite <- (vscale_1 (vadd c _)).
      rewrite norm_offset by (trivial; lra).
      rewrite Rabs_left1 by trivial. lra.
    + fold c. rewrite <- (vscale_1 c) at 1.
      rewrite <- (vscale_1 (vadd c _)).
      rewrite norm_offset by (trivial; lra).
      rewrite Rabs_right by lra. lra.
Qed.

Lemma bevelled_bar_projections :
  map (fun v => dot v x_axis) bevelled_bar = [1; 0; 0; 1; 9; 10; 10; 9].
Proof.
  unfold bevelled_bar, x_axis, dot, vx, vy, vz. simpl.
  repeat (f_equal; try ring).
Qed.

Lemma bevelled_bar_extent : axial_extent bevelled_bar x_axis = 10.
Proof.
  rewrite axial_extent_raw by discriminate.
  rewrite bevelled_bar_projections.
  rewrite (rmax_list_unique _ 10), (rmin_list_unique _ 0).
  - ring.
  - simpl. auto.
  - intros x Hx. simpl in Hx. intuition lra.
  - simpl. auto 10.
  - intros x Hx. simpl in Hx. intuition lra.
Qed.

Lemma bevelled_bar_in_meters : max_abs_all bevelled_bar < 1000.
Proof.
  unfold max_abs_all. apply rmax_list_lt; [discriminate|].
  intros x Hx. simpl in Hx.
  assert (Hv : forall a b c, -1000 < a < 1000 -> -1000 < b < 1000 ->
                 -1000 < c < 1000 -> max_abs (a, b, c) < 1000).
  { intros a b c Ha Hb Hc. unfold max_abs, vx, vy, vz. simpl.
    repeat apply Rmax_lub_lt; apply Rabs_def1; lra. }
  repeat (destruct Hx as [<-|Hx]; [apply Hv; lra|]). destruct Hx.
Qed.

(** C6: the length of the mesh-based piece is the extent of its vertices
    along the unit principal axis, in the coordinates converted to
    millimeters: the largest projection onto the axis minus the smallest
    one, which no pair of vertices exceeds in axial distance.  For the bar
    bevelled at both ends the length is 10000 mm although its extreme
    vertices (0, 0, 0) and (10000, 1000, 0) are further apart in Euclidean
    distance. *)
Theorem C6_mesh_length_is_axial_extent (vertices : list vec3)
  (eigvec : vec3) :
  (2 <= List.length vertices)%nat ->
  norm eigvec <> 0 ->
  let axis_world := vscale (/ norm eigvec) eigvec in
  let to_mm :=
    if Rltb (max_abs_all vertices) 1000
       || Rltb (axial_extent vertices axis_world) 0.1
    then 1000 else 1 in
  let in_mm := map (vscale to_mm) vertices in
  (exists len,
     mesh_length vertices eigvec = Some len
     /\ len
        = rmax_list (map (fun v => dot v axis_world) in_mm)
          - rmin_list (map (fun v => dot v axis_world) in_mm)
     /\ len = to_mm * axial_extent vertices axis_world
     /\ forall p q, In p in_mm -> In q in_mm ->
          dot (vsub q p) axis_world <= len)
  /\ (mesh_length bevelled_bar x_axis = Some 10000
      /\ In (0, 0, 0) (map (vscale 1000) bevelled_bar)
      /\ In (10000, 1000, 0) (map (vscale 1000) bevelled_bar)
      /\ dot (vsub (10000, 1000, 0) (0, 0, 0)) x_axis = 10000
      /\ 10000 < euclidean_length (0, 0, 0) (10000, 1000, 0)).
Proof.
  intros Hlen Hne axis_world to_mm in_mm. split.
  - assert (Hvs : vertices <> []).
    { destruct vertices; [simpl in Hlen; lia | discriminate]. }
    assert (Hmm : in_mm <> []).
    { unfold in_mm. destruct vertices; [congruence | discriminate]. }
    assert (Hk : 0 <= to_mm).
    { unfold to_mm. destruct (_ || _); lra. }
    exists (axial_extent in_mm axis_world).
    split; [apply (mesh_length_extent vertices eigvec Hlen Hne)|].
    split; [now apply axial_extent_raw|].
    split; [now apply axial_extent_scale|].
    intros p q Hp Hq. rewrite axial_extent_raw by trivial.
    rewrite dot_vsub_l.
    assert (Hq' : dot q axis_world
                  <= rmax_list (map (fun v => dot v axis_world) in_mm)).
    { apply rmax_list_ge. now apply (in_map (fun v => dot v axis_world)). }
    assert (Hp' : rmin_list (map (fun v => dot v axis_world) in_mm)
                  <= dot p axis_world).
    { apply rmin_list_le. now apply (in_map (fun v => dot v axis_world)). }
    lra.
  - assert (Hne' : norm x_axis <> 0) by (rewrite norm_x_axis; lra).
    assert (Hax : vscale (/ norm x_axis) x_axis = x_axis).
    { rewrite norm_x_axis.
      apply vec3_eq; unfold vscale, x_axis, vx, vy, vz; simpl; field. }
    split; [|split; [|split; [|split]]].
    + rewrite (mesh_length_extent bevelled_bar x_axis) by (simpl; lia || trivial).
      rewrite Hax.
      assert (E : Rltb (max_abs_all bevelled_bar) 1000 = true).
      { apply Rltb_true, bevelled_bar_in_meters. }
      rewrite E. cbn [orb].
      rewrite axial_extent_scale by (lra || discriminate).
      rewrite bevelled_bar_extent. f_equal. ring.
    + simpl. right. left.
      apply vec3_eq; unfold vscale, vx, vy, vz; simpl; ring.
    + simpl. do 5 right. left.
      apply vec3_eq; unfold vscale, vx, vy, vz; simpl; ring.
    + unfold dot, vsub, x_axis, vx, vy, vz. simpl. ring.
    + unfold euclidean_length, norm.
      replace (dot (vsub (10000, 1000, 0) (0, 0, 0))
                 (vsub (10000, 1000, 0) (0, 0, 0)))
        with 101000000
        by (unfold dot, vsub, vx, vy, vz; simpl; ring).
      rewrite <- (sqrt_square 10000) at 1 by lra.
      apply sqrt_lt_1_alt. lra.
Qed.

Lemma C6_mesh_length_is_axial_extent_witness :
  (2 <= List.length bevelled_bar)%nat
  /\ norm x_axis <> 0
  /\ exists len,
       mesh_length bevelled_bar x_axis = Some len
       /\ forall p q,
            In p (map
                    (vscale
                       (if Rltb (max_abs_all bevelled_bar) 1000
                           || Rltb
                                (axial_extent bevelled_bar
                                   (vscale (/ norm x_axis) x_axis)) 0.1
                        then 1000 else 1))
                    bevelled_bar) ->
            In q (map
                    (vscale
                       (if Rltb (max_abs_all bevelled_bar) 1000
                           || Rltb
                                (axial_extent bevelled_bar
                                   (vscale (/ norm x_axis) x_axis)) 0.1
                        then 1000 else 1))
                    bevelled_bar) ->
            dot (vsub q p) (vscale (/ norm x_axis) x_axis) <= len.
Proof.
  assert (H1 : (2 <= List.length bevelled_bar)%nat) by (simpl; lia).
  assert (H2 : norm x_axis <> 0) by (rewrite norm_x_axis; lra).
  split; [exact H1|]. split; [exact H2|].
  destruct (proj1 (C6_mesh_length_is_axial_extent bevelled_bar x_axis H1 H2))
    as (len & Hlen & _ & _ & Hpq).
  exists len. split; [exact Hlen | exact Hpq].
Defined.

End ExtractorFacts.

Module PlateNestingFacts.

Import PlateNesting.
Import NestingFacts.

Local Open Scope Q_scope.

(** ** The placement loop of [greedy_nesting] *)


Lemma ForallOrdPairs_snoc {A : Type} (R : A -> A -> Prop) (l : list A) (a : A) :
  ForallOrdPairs R l -> Forall (fun x => R x a) l ->
  ForallOrdPairs R (l ++ [a]).
Proof.
  induction 1 as [|x l Hx Hl IH]; intro Ha; simpl.
  - constructor; [constructor | constructor].
  - inversion Ha; subst. constructor.
    + apply Forall_app; split; [exact Hx | constructor; [assumption | constructor]].
    + apply IH; assumption.
Qed.

Lemma pymax_ge_l (a b : Q) : a <= Nesting.pymax a b.
Proof. destruct (pymax_spec a b) as [[E H]|[E H]]; rewrite E; lra. Qed.

Lemma pymax_ge_r (a b : Q) : b <= Nesting.pymax a b.
Proof. destruct (pymax_spec a b) as [[E H]|[E H]]; rewrite E; lra. Qed.

Lemma place_plate_inv (sw sl gap : Q) (c : Cursor) (p : PlateGeometry) :
  0 <= gap -> plate_nonneg p ->
  cursor_inv sw sl gap c -> cursor_inv sw sl gap (place_plate sw sl gap c p).
Proof.
  intros Hgap [Hw Hh] [Hx Hy Hrow Hin Hrows Hsep].
  unfold place_plate.
  destruct (Qle_bool (current_x c + width p + gap) sw
            && Qle_bool (current_y c + length p + gap) sl) eqn:E1.
  - apply andb_true_iff in E1. destruct E1 as [Ex Ey].
    apply Qle_bool_iff in Ex. apply Qle_bool_iff in Ey.
    constructor; cbn [current_x current_y row_height placed].
    + lra.
    + exact Hy.
    + pose proof (pymax_ge_l (row_height c) (length p)). lra.
    + apply Forall_app; split; [exact Hin|].
      constructor; [|constructor].
      unfold inside_sheet; cbn [pl_x pl_y pl_plate]. split; [lra | split; [lra | split; lra]].
    + apply Forall_app; split.
      * eapply Forall_impl; [|exact Hrows]. cbv beta.
        intros pl [H|[H1 [H2 H3]]]; [left; exact H|right].
        pose proof (pymax_ge_l (row_height c) (length p)).
        split; [exact H1 | split; lra].
      * constructor; [|constructor]. right. cbn [pl_x pl_y pl_plate].
        pose proof (pymax_ge_r (row_height c) (length p)).
        split; [reflexivity | split; lra].
    + apply ForallOrdPairs_snoc; [exact Hsep|].
      eapply Forall_impl; [|exact Hrows]. cbv beta.
      unfold separated; cbn [pl_x pl_y pl_plate].
      intros pl [H|[H1 [H2 H3]]]; [right; right; left; exact H | left; exact H2].
  - clear E1.
    destruct (Qle_bool (current_y c + row_height c + gap + length p + gap) sl)
      eqn:E2; [|constructor; assumption].
    apply Qle_bool_iff in E2.
    assert (Hprev : Forall (fun pl =>
              pl_y pl + length (pl_plate pl) + gap
              <= current_y c + (row_height c + gap)) (placed c)).
    { eapply Forall_impl; [|exact Hrows]. cbv beta.
      intros pl [H|[H1 [H2 H3]]]; [lra | rewrite H1; lra]. }
    destruct (Qle_bool (gap + width p + gap) sw) eqn:E3.
    + apply Qle_bool_iff in E3.
      constructor; cbn [current_x current_y row_height placed].
      * lra.
      * lra.
      * exact Hh.
      * apply Forall_app; split; [exact Hin|].
        constructor; [|constructor].
        unfold inside_sheet; cbn [pl_x pl_y pl_plate]. split; [lra | split; [lra | split; lra]].
      * apply Forall_app; split.
        -- eapply Forall_impl; [|exact Hprev]. cbv beta. intros pl H. left. exact H.
        -- constructor; [|constructor]. right. cbn [pl_x pl_y pl_plate].
           split; [reflexivity | split; lra].
      * apply ForallOrdPairs_snoc; [exact Hsep|].
        eapply Forall_impl; [|exact Hprev]. cbv beta.
        unfold separated; cbn [pl_x pl_y pl_plate].
        intros pl H. right; right; left; exact H.
    + constructor; cbn [current_x current_y row_height placed].
      * lra.
      * lra.
      * exact Hh.
      * exact Hin.
      * eapply Forall_impl; [|exact Hprev]. cbv beta. intros pl H. left. exact H.
      * exact Hsep.
Qed.

Lemma fold_place_inv (sw sl gap : Q) (l : list PlateGeometry) : forall c,
  0 <= gap -> Forall plate_nonneg l ->
  cursor_inv sw sl gap c ->
  cursor_inv sw sl gap (fold_left (place_plate sw sl gap) l c).
Proof.
  induction l as [|p l IH]; intros c Hgap Hl Hc; simpl; [exact Hc|].
  inversion Hl; subst.
  apply IH; [exact Hgap | assumption | apply place_plate_inv; assumption].
Qed.

Lemma initial_cursor_inv (sw sl gap : Q) :
  0 <= gap -> cursor_inv sw sl gap (mkCursor gap gap 0 []).
Proof.
  intro Hgap. constructor; cbn [current_x current_y row_height placed];
    try lra; constructor.
Qed.

Lemma greedy_cursor_inv (plates : list PlateGeometry) (sw sl gap : Q) :
  0 <= gap -> Forall plate_nonneg plates ->
  Forall (inside_sheet sw sl gap) (placed_plates (greedy_nesting plates sw sl gap))
  /\ ForallOrdPairs (separated gap)
       (placed_plates (greedy_nesting plates sw sl gap)).
Proof.
  intros Hgap Hl. unfold greedy_nesting.
  destruct plates as [|p0 rest]; cbn [placed_plates].
  - split; constructor.
  - assert (Hs : Forall plate_nonneg (Nesting.sort_desc area (p0 :: rest))).
    { apply Forall_forall. intros z Hz. apply sort_desc_In in Hz.
      rewrite Forall_forall in Hl. apply Hl. exact Hz. }
    destruct (fold_place_inv sw sl gap _ _ Hgap Hs (initial_cursor_inv sw sl gap Hgap))
      as [_ _ _ Hin _ Hsep].
    split; assumption.
Qed.

(** Sorting only rearranges *)
Lemma insert_by_perm {A : Type} (lt : A -> A -> bool) (x : A) (l : list A) :
  Permutation (Nesting.insert_by lt x l) (x :: l).
Proof.
  induction l as [|y l IH]; simpl; [reflexivity|].
  destruct (lt x y); [reflexivity|].
  rewrite IH. apply perm_swap.
Qed.

Lemma sort_by_perm_acc {A : Type} (lt : A -> A -> bool) (l : list A) :
  forall acc,
  Permutation (fold_left (fun acc x => Nesting.insert_by lt x acc) l acc)
    (acc ++ l).
Proof.
  induction l as [|x l IH]; intro acc; simpl.
  - rewrite app_nil_r. reflexivity.
  - rewrite IH. rewrite insert_by_perm.
    apply Permutation_middle.
Qed.

Lemma sort_by_perm {A : Type} (lt : A -> A -> bool) (l : list A) :
  Permutation (Nesting.sort_by lt l) l.
Proof. unfold Nesting.sort_by. apply (sort_by_perm_acc lt l []). Qed.

Lemma place_plate_placed (sw sl gap : Q) (c : Cursor) (p : PlateGeometry) :
  placed (place_plate sw sl gap c p) = placed c
  \/ exists pl, pl_plate pl = p
       /\ placed (place_plate sw sl gap c p) = placed c ++ [pl].
Proof.
  unfold place_plate.
  destruct (_ && _).
  - right. eexists. split; [|reflexivity]. reflexivity.
  - destruct (Qle_bool _ sl); [|left; reflexivity].
    destruct (Qle_bool _ sw); [|left; reflexivity].
    right. eexists. split; [|reflexivity]. reflexivity.
Qed.

Lemma fold_place_perm (sw sl gap : Q) (l : list PlateGeometry) : forall c,
  exists added unplaced,
    placed (fold_left (place_plate sw sl gap) l c) = placed c ++ added
    /\ Permutation l (map pl_plate added ++ unplaced).
Proof.
  induction l as [|p l IH]; intro c; simpl.
  - exists [], []. split; [now rewrite app_nil_r | reflexivity].
  - destruct (IH (place_plate sw sl gap c p)) as (added & unplaced & E & HP).
    destruct (place_plate_placed sw sl gap c p) as [Hc|(pl & Hpl & Hc)];
      rewrite Hc in E.
    + exists added, (p :: unplaced). split; [exact E|].
      apply Permutation_cons_app. exact HP.
    + exists (pl :: added), unplaced. split.
      * rewrite E, <- app_assoc. reflexivity.
      * simpl. rewrite Hpl. constructor. exact HP.
Qed.

Lemma greedy_perm (plates : list PlateGeometry) (sw sl gap : Q) :
  exists unplaced,
    Permutation plates
      (map pl_plate (placed_plates (greedy_nesting plates sw sl gap))
       ++ unplaced).
Proof.
  unfold greedy_nesting. destruct plates as [|p0 rest]; cbn [placed_plates].
  - exists []. reflexivity.
  - destruct (fold_place_perm sw sl gap (Nesting.sort_desc area (p0 :: rest))
                (mkCursor gap gap 0 [])) as (added & unplaced & E & HP).
    exists unplaced. rewrite E. cbn [placed app].
    rewrite <- HP. apply Permutation_sym. apply sort_by_perm.
Qed.

(** ** Thickness keys *)

Lemma thickness_eqb_refl (a : Thickness) : thickness_eqb a a = true.
Proof.
  destruct a; simpl; [apply String.eqb_refl|].
  apply Qeq_bool_iff. reflexivity.
Qed.

Lemma thickness_eqb_sym (a b : Thickness) :
  thickness_eqb a b = true -> thickness_eqb b a = true.
Proof.
  destruct a, b; simpl; try discriminate.
  - rewrite String.eqb_sym. trivial.
  - intro H. apply Qeq_bool_iff in H. apply Qeq_bool_iff. symmetry. exact H.
Qed.

Lemma thickness_eqb_trans (a b c : Thickness) :
  thickness_eqb a b = true -> thickness_eqb b c = true ->
  thickness_eqb a c = true.
Proof.
  destruct a, b, c; simpl; try discriminate.
  - intros H1 H2. apply String.eqb_eq in H1. apply String.eqb_eq in H2.
    apply String.eqb_eq. congruence.
  - intros H1 H2. apply Qeq_bool_iff in H1. apply Qeq_bool_iff in H2.
    apply Qeq_bool_iff. rewrite H1. exact H2.
Qed.

(** ** Grouping *)

Lemma group_insert_uniform (p : PlateGeometry) (groups : list _) :
  Forall group_uniform groups -> Forall group_uniform (group_insert p groups).
Proof.
  induction groups as [|[t ps] rest IH]; intro H; simpl.
  - constructor; [|constructor]. unfold group_uniform; simpl.
    constructor; [apply thickness_eqb_refl | constructor].
  - inversion H as [|g gs Hg Hrest]; subst.
    destruct (thickness_eqb t (thickness p)) eqn:E.
    + constructor; [|exact Hrest]. unfold group_uniform in *; simpl in *.
      apply Forall_app; split; [exact Hg|]. constructor; [exact E | constructor].
    + constructor; [exact Hg | apply IH; exact Hrest].
Qed.

Lemma group_insert_perm (p : PlateGeometry) (groups : list _) :
  Permutation (flat_map snd (group_insert p groups))
    (p :: flat_map snd groups).
Proof.
  induction groups as [|[t ps] rest IH]; simpl; [reflexivity|].
  destruct (thickness_eqb t (thickness p)); simpl.
  - rewrite <- app_assoc. simpl. apply Permutation_sym, Permutation_middle.
  - rewrite IH. apply Permutation_sym, Permutation_middle.
Qed.

Lemma plates_by_thickness_acc (plates : list PlateGeometry) : forall groups,
  Forall group_uniform groups ->
  Forall group_uniform
    (fold_left (fun groups p => group_insert p groups) plates groups)
  /\ Permutation
       (flat_map snd
          (fold_left (fun groups p => group_insert p groups) plates groups))
       (flat_map snd groups ++ plates).
Proof.
  induction plates as [|p plates IH]; intros groups H; simpl.
  - split; [exact H | now rewrite app_nil_r].
  - destruct (IH (group_insert p groups) (group_insert_uniform p groups H))
      as [H1 H2].
    split; [exact H1|]. rewrite H2, group_insert_perm.
    simpl. apply Permutation_middle.
Qed.

Lemma plates_by_thickness_uniform (plates : list PlateGeometry) :
  Forall group_uniform (plates_by_thickness plates).
Proof. apply (plates_by_thickness_acc plates []). constructor. Qed.

Lemma plates_by_thickness_perm (plates : list PlateGeometry) :
  Permutation (flat_map snd (plates_by_thickness plates)) plates.
Proof. apply (plates_by_thickness_acc plates []). constructor. Qed.

(** ** The choice among the stock sizes *)

Lemma combine_seq_nth {A : Type} (l : list A) : forall k,
  Forall (fun e => (k <= fst e)%nat /\ nth_error l (fst e - k) = Some (snd e))
    (combine (seq k (List.length l)) l).
Proof.
  induction l as [|a l IH]; intro k; simpl; [constructor|].
  constructor.
  - simpl. split; [lia|]. now rewrite Nat.sub_diag.
  - eapply Forall_impl; [|apply (IH (S k))]. cbv beta.
    intros [i c] [H1 H2]; simpl in *. split; [lia|].
    replace (i - k)%nat with (S (i - S k)) by lia. exact H2.
Qed.

Lemma try_stocks_chosen (remaining : list PlateGeometry)
  (stock_configs : list (Q * Q)) :
  chosen stock_configs remaining (try_stocks remaining stock_configs).
Proof.
  unfold try_stocks.
  pose proof (combine_seq_nth stock_configs 0) as Hent.
  revert Hent.
  generalize (combine (seq 0 (List.length stock_configs)) stock_configs).
  assert (H0 : chosen stock_configs remaining (None, (-1)%Z)) by exact I.
  revert H0. generalize (@None NestingResult, (-1)%Z).
  intros best Hbest entries. revert best Hbest.
  induction entries as [|[i [w l]] entries IH]; intros best Hbest Hent; simpl.
  - exact Hbest.
  - inversion Hent as [|e es [_ He] Hes]; subst. simpl in He.
    rewrite Nat.sub_0_r in He.
    apply IH; [|exact Hes].
    destruct best as [best_result best_idx].
    destruct (placed_plates (greedy_nesting remaining w l 5.0)) eqn:Ep;
      [exact Hbest|].
    assert (Hnew : chosen stock_configs remaining
                     (Some (greedy_nesting remaining w l 5.0), Z.of_nat i)).
    { exists i, w, l. repeat split; try assumption. rewrite Ep. discriminate. }
    destruct best_result as [b|]; [|exact Hnew].
    destruct (_ <? _)%nat; [exact Hnew | exact Hbest].
Qed.

(** ** The sheets of one thickness *)

Lemma nest_thickness_acc (fuel : nat) (stock_configs : list (Q * Q)) :
  forall remaining results,
  nest_thickness fuel stock_configs remaining results
  = results ++ nest_thickness fuel stock_configs remaining [].
Proof.
  induction fuel as [|fuel IH]; intros remaining results; simpl.
  - now rewrite app_nil_r.
  - destruct remaining as [|p0 rest]; [now rewrite app_nil_r|].
    destruct (try_stocks (p0 :: rest) stock_configs) as [[best|] idx];
      [|now rewrite app_nil_r].
    destruct (placed_plates best) eqn:Ep; [now rewrite app_nil_r|].
    rewrite IH. rewrite (IH _ [_]). rewrite <- app_assoc. reflexivity.
Qed.

Lemma nest_thickness_step (fuel : nat) (stock_configs : list (Q * Q))
  (remaining : list PlateGeometry) :
  nest_thickness (S fuel) stock_configs remaining [] = []
  \/ exists sheet,
       sheet_of stock_configs remaining sheet
       /\ nest_thickness (S fuel) stock_configs remaining []
          = sheet
            :: nest_thickness fuel stock_configs
                 (not_placed (placed_ids (placed_plates sheet)) remaining) [].
Proof.
  destruct remaining as [|p0 rest]; [left; reflexivity|].
  pose proof (try_stocks_chosen (p0 :: rest) stock_configs) as Hc.
  cbn [nest_thickness].
  destruct (try_stocks (p0 :: rest) stock_configs) as [[best|] idx];
    [|left; reflexivity].
  destruct Hc as (i & w & l & Hn & Hi & Hb & Hne).
  destruct (placed_plates best) as [|pl0 pls] eqn:Ep; [left; reflexivity|].
  right.
  exists (mkResult (stock_width best) (stock_length best) idx (pl0 :: pls)
            (utilization best)).
  split.
  - exists i, w, l. cbn [stock_index stock_width stock_length placed_plates
                          utilization].
    rewrite <- Ep. subst best.
    repeat split; try assumption; try reflexivity.
    rewrite Ep. discriminate.
  - rewrite nest_thickness_acc. reflexivity.
Qed.

Lemma not_placed_incl (ids : list Z) (l : list PlateGeometry) :
  incl (not_placed ids l) l.
Proof. intros p Hp. unfold not_placed in Hp. apply filter_In in Hp. tauto. Qed.

Lemma nest_thickness_sheets (stock_configs : list (Q * Q)) (fuel : nat) :
  forall remaining,
  Forall (fun sheet =>
            exists sub, incl sub remaining /\ sheet_of stock_configs sub sheet)
    (nest_thickness fuel stock_configs remaining []).
Proof.
  induction fuel as [|fuel IH]; intro remaining; [constructor|].
  destruct (nest_thickness_step fuel stock_configs remaining)
    as [E|(sheet & Hs & E)]; rewrite E; [constructor|].
  constructor.
  - exists remaining. split; [apply incl_refl | exact Hs].
  - eapply Forall_impl; [|apply IH]. cbv beta.
    intros s (sub & Hsub & Hsheet). exists sub. split; [|exact Hsheet].
    eapply incl_tran; [exact Hsub | apply not_placed_incl].
Qed.

(** The sheets of the whole run, group by group. *)
Lemma fold_nest_thickness (stock_configs : list (Q * Q)) (max_sheets : nat)
  (groups : list (Thickness * list PlateGeometry)) : forall results,
  fold_left
    (fun results group =>
       nest_thickness max_sheets stock_configs (snd group) results)
    groups results
  = results
    ++ flat_map
         (fun group => nest_thickness max_sheets stock_configs (snd group) [])
         groups.
Proof.
  induction groups as [|g groups IH]; intro results; simpl.
  - now rewrite app_nil_r.
  - rewrite IH, nest_thickness_acc, <- app_assoc. reflexivity.
Qed.

Lemma results_by_group (plates : list PlateGeometry)
  (stock_configs : list (Q * Q)) (max_sheets : nat) :
  fst (nest_plates_on_multiple_stocks plates stock_configs max_sheets)
  = flat_map
      (fun group => nest_thickness max_sheets stock_configs (snd group) [])
      (plates_by_thickness plates).
Proof.
  unfold nest_plates_on_multiple_stocks. cbn [fst].
  rewrite fold_nest_thickness. reflexivity.
Qed.

Lemma greedy_placed_incl (plates : list PlateGeometry) (sw sl gap : Q) :
  incl (map pl_plate (placed_plates (greedy_nesting plates sw sl gap))) plates.
Proof.
  destruct (greedy_perm plates sw sl gap) as (unplaced & HP).
  intros p Hp. eapply Permutation_in; [apply Permutation_sym; exact HP|].
  apply in_or_app. left. exact Hp.
Qed.

Lemma sheet_in_group (plates : list PlateGeometry)
  (stock_configs : list (Q * Q)) (max_sheets : nat) (sheet : NestingResult) :
  In sheet (fst (nest_plates_on_multiple_stocks plates stock_configs max_sheets))
  -> exists group sub,
       In group (plates_by_thickness plates)
       /\ incl sub (snd group)
       /\ sheet_of stock_configs sub sheet.
Proof.
  rewrite results_by_group. intro H. apply in_flat_map in H.
  destruct H as (group & Hg & Hs).
  pose proof (nest_thickness_sheets stock_configs max_sheets (snd group)) as HF.
  rewrite Forall_forall in HF. destruct (HF _ Hs) as (sub & Hsub & Hsheet).
  exists group, sub. auto.
Qed.

(** ** Nothing is nested twice, nothing is lost *)

Lemma existsb_Zeqb (a : Z) (ids : list Z) :
  existsb (Z.eqb a) ids = true <-> In a ids.
Proof.
  rewrite existsb_exists. split.
  - intros (b & Hb & E). apply Z.eqb_eq in E. now subst.
  - intro H. exists a. split; [exact H | apply Z.eqb_refl].
Qed.

Lemma filter_perm {A : Type} (f : A -> bool) (l l' : list A) :
  Permutation l l' -> Permutation (filter f l) (filter f l').
Proof.
  induction 1 as [| x l l' H IH | x y l | l l' l'' H1 IH1 H2 IH2]; simpl.
  - constructor.
  - destruct (f x); [constructor|]; exact IH.
  - destruct (f x), (f y); try reflexivity. apply perm_swap.
  - etransitivity; eassumption.
Qed.

Lemma not_placed_app (ids1 ids2 : list Z) (l : list PlateGeometry) :
  not_placed (ids1 ++ ids2) l = not_placed ids2 (not_placed ids1 l).
Proof.
  unfold not_placed. induction l as [|p l IH]; simpl; [reflexivity|].
  rewrite existsb_app.
  destruct (existsb (Z.eqb (element_id p)) ids1); simpl.
  - exact IH.
  - destruct (existsb (Z.eqb (element_id p)) ids2); simpl; now rewrite IH.
Qed.

Lemma not_placed_own (l : list PlateGeometry) (ids : list Z) :
  incl (map element_id l) ids -> not_placed ids l = [].
Proof.
  unfold not_placed. induction l as [|p l IH]; intro H; simpl; [reflexivity|].
  assert (E : existsb (Z.eqb (element_id p)) ids = true).
  { apply existsb_Zeqb. apply H. left. reflexivity. }
  rewrite E. simpl. apply IH. intros a Ha. apply H. right. exact Ha.
Qed.

Lemma not_placed_other (l : list PlateGeometry) (ids : list Z) :
  (forall p, In p l -> ~ In (element_id p) ids) -> not_placed ids l = l.
Proof.
  unfold not_placed. induction l as [|p l IH]; intro H; simpl; [reflexivity|].
  assert (E : existsb (Z.eqb (element_id p)) ids = false).
  { apply not_true_is_false. intro E. apply existsb_Zeqb in E.
    revert E. apply H. left. reflexivity. }
  rewrite E. simpl. f_equal. apply IH. intros q Hq. apply H. right. exact Hq.
Qed.

Lemma not_placed_nil (l : list PlateGeometry) : not_placed [] l = l.
Proof. apply not_placed_other. intros p _ []. Qed.

Lemma not_placed_flat_map {A : Type} (f : A -> list PlateGeometry)
  (ids : list Z) (l : list A) :
  flat_map (fun a => not_placed ids (f a)) l = not_placed ids (flat_map f l).
Proof.
  unfold not_placed. induction l as [|a l IH]; simpl; [reflexivity|].
  rewrite filter_app, IH. reflexivity.
Qed.

(** With distinct identifiers, removing the identifiers of a part of the
    plates leaves exactly the others. *)
Lemma not_placed_split (placed_part others : list PlateGeometry) :
  NoDup (map element_id (placed_part ++ others)) ->
  not_placed (map element_id placed_part) (placed_part ++ others) = others.
Proof.
  intro H. unfold not_placed. rewrite filter_app.
  fold (not_placed (map element_id placed_part) placed_part).
  fold (not_placed (map element_id placed_part) others).
  rewrite not_placed_own by apply incl_refl.
  rewrite not_placed_other; [reflexivity|].
  intros p Hp Hid. rewrite map_app in H.
  apply NoDup_app_remove_l in H as H2.
  revert Hid. clear H2.
  induction placed_part as [|q qs IH]; simpl; [tauto|].
  simpl in H. inversion H as [|a l Ha Hl]; subst.
  intros [E|Hin].
  - apply Ha. rewrite E. apply in_or_app. right. apply in_map. exact Hp.
  - apply IH; assumption.
Qed.

Lemma not_placed_perm (ids : list Z) (l l' : list PlateGeometry) :
  Permutation l l' -> Permutation (not_placed ids l) (not_placed ids l').
Proof. apply filter_perm. Qed.

(** The plates of the sheets of one thickness are drawn from the
    plates of that thickness, each at most once. *)
Lemma nest_thickness_no_reuse (stock_configs : list (Q * Q)) (fuel : nat) :
  forall remaining,
  exists rest,
    Permutation remaining
      (plates_of (nest_thickness fuel stock_configs remaining []) ++ rest).
Proof.
  induction fuel as [|fuel IH]; intro remaining.
  - exists remaining. reflexivity.
  - destruct (nest_thickness_step fuel stock_configs remaining)
      as [E|(sheet & Hs & E)]; rewrite E.
    + exists remaining. reflexivity.
    + destruct Hs as (i & w & l & _ & _ & _ & _ & Hp & _ & _).
      destruct (greedy_perm remaining w l 5.0) as (unplaced & HP).
      rewrite <- Hp in HP.
      set (ids := placed_ids (placed_plates sheet)) in *.
      destruct (IH (not_placed ids remaining)) as (rest & Hrest).
      assert (Hsub : exists dropped,
                 Permutation unplaced (not_placed ids remaining ++ dropped)).
      { exists (filter (fun p => existsb (Z.eqb (element_id p)) ids) unplaced).
        rewrite (not_placed_perm ids _ _ HP).
        unfold not_placed at 1. rewrite filter_app.
        fold (not_placed ids (map pl_plate (placed_plates sheet))).
        rewrite not_placed_own.
        2:{ unfold ids, placed_ids. rewrite map_map. apply incl_refl. }
        simpl. clear. induction unplaced as [|p u IHu]; simpl; [constructor|].
        destruct (existsb (Z.eqb (element_id p)) ids); simpl.
        - apply Permutation_cons_app. exact IHu.
        - constructor. exact IHu. }
      destruct Hsub as (dropped & Hd).
      exists (rest ++ dropped). unfold plates_of. cbn [flat_map].
      fold (plates_of (nest_thickness fuel stock_configs
                         (not_placed ids remaining) [])).
      etransitivity; [exact HP|]. rewrite <- app_assoc.
      apply Permutation_app_head.
      etransitivity; [exact Hd|]. rewrite app_assoc.
      apply Permutation_app_tail. exact Hrest.
Qed.

Lemma flat_map_flat_map {A B C : Type} (f : B -> list C) (g : A -> list B)
  (l : list A) :
  flat_map f (flat_map g l) = flat_map (fun a => flat_map f (g a)) l.
Proof.
  induction l as [|a l IH]; simpl; [reflexivity|].
  rewrite flat_map_app, IH. reflexivity.
Qed.

Lemma flat_map_sub_perm {A B : Type} (f g : A -> list B) (l : list A) :
  (forall a, In a l -> exists rest, Permutation (f a) (g a ++ rest)) ->
  exists rest, Permutation (flat_map f l) (flat_map g l ++ rest).
Proof.
  induction l as [|a l IH]; intro H; simpl.
  - exists []. reflexivity.
  - destruct (H a (or_introl eq_refl)) as (r1 & H1).
    destruct IH as (r2 & H2); [intros b Hb; apply H; right; exact Hb|].
    exists (r1 ++ r2).
    rewrite H1, H2. rewrite <- !app_assoc. apply Permutation_app_head.
    rewrite !app_assoc. apply Permutation_app_tail. apply Permutation_app_comm.
Qed.

Lemma no_reuse (plates : list PlateGeometry) (stock_configs : list (Q * Q))
  (max_sheets : nat) :
  exists rest,
    Permutation plates
      (plates_of
         (fst (nest_plates_on_multiple_stocks plates stock_configs max_sheets))
       ++ rest).
Proof.
  rewrite results_by_group. unfold plates_of. rewrite flat_map_flat_map.
  destruct (flat_map_sub_perm snd
              (fun group =>
                 plates_of
                   (nest_thickness max_sheets stock_configs (snd group) []))
              (plates_by_thickness plates)) as (rest & H).
  { intros g _. apply nest_thickness_no_reuse. }
  exists rest. rewrite <- H. apply Permutation_sym, plates_by_thickness_perm.
Qed.

Lemma all_placed_ids (results : list NestingResult) :
  flat_map (fun r => placed_ids (placed_plates r)) results
  = map element_id (plates_of results).
Proof.
  unfold plates_of, placed_ids. induction results as [|r rs IH]; simpl;
    [reflexivity|].
  rewrite map_app, map_map, IH. reflexivity.
Qed.

Lemma remaining_as_filter (plates : list PlateGeometry)
  (stock_configs : list (Q * Q)) (max_sheets : nat) :
  snd (nest_plates_on_multiple_stocks plates stock_configs max_sheets)
  = not_placed
      (map element_id
         (plates_of
            (fst (nest_plates_on_multiple_stocks plates stock_configs
                    max_sheets))))
      (flat_map snd (plates_by_thickness plates)).
Proof.
  unfold nest_plates_on_multiple_stocks. cbn [fst snd].
  rewrite all_placed_ids. apply not_placed_flat_map.
Qed.

Lemma remaining_is_rest (plates : list PlateGeometry)
  (stock_configs : list (Q * Q)) (max_sheets : nat)
  (rest : list PlateGeometry) :
  NoDup (map element_id plates) ->
  Permutation plates
    (plates_of
       (fst (nest_plates_on_multiple_stocks plates stock_configs max_sheets))
     ++ rest) ->
  Permutation
    (snd (nest_plates_on_multiple_stocks plates stock_configs max_sheets))
    rest.
Proof.
  intros Hids HP. rewrite remaining_as_filter.
  set (P := plates_of
              (fst (nest_plates_on_multiple_stocks plates stock_configs
                      max_sheets))) in *.
  assert (Hnd : NoDup (map element_id (P ++ rest))).
  { eapply Permutation_NoDup; [|exact Hids]. apply Permutation_map. exact HP. }
  assert (HG : Permutation (flat_map snd (plates_by_thickness plates))
                 (P ++ rest)).
  { etransitivity; [apply plates_by_thickness_perm | exact HP]. }
  rewrite (not_placed_perm _ _ _ HG).
  rewrite not_placed_split by exact Hnd. reflexivity.
Qed.

(** X6 ([nest_plates_on_multiple_stocks], polygon_nesting.py 128-215).
    When the plates have pairwise different [element_id]s, nothing is
    lost and nothing is duplicated: the plates on the returned sheets
    together with the plates returned as remaining are a rearrangement of
    the input. *)
Theorem plates_nested_or_remaining (plates : list PlateGeometry)
  (stock_configs : list (Q * Q)) (max_sheets : nat) :
  NoDup (map element_id plates) ->
  Permutation plates
    (plates_of
       (fst (nest_plates_on_multiple_stocks plates stock_configs max_sheets))
     ++ snd (nest_plates_on_multiple_stocks plates stock_configs max_sheets)).
Proof.
  intro Hids.
  destruct (no_reuse plates stock_configs max_sheets) as (rest & HP).
  etransitivity; [exact HP|]. apply Permutation_app_head.
  apply Permutation_sym.
  apply (remaining_is_rest plates stock_configs max_sheets rest Hids HP).
Qed.

(** X5 ([nest_plates_on_multiple_stocks], polygon_nesting.py 147-192).  No
    sheet mixes thicknesses: any two plates placed on one returned sheet
    have equal thickness values. *)
Theorem sheet_has_one_thickness (plates : list PlateGeometry)
  (stock_configs : list (Q * Q)) (max_sheets : nat) :
  Forall
    (fun sheet =>
       Forall
         (fun p =>
            Forall
              (fun q =>
                 thickness_eqb (thickness (pl_plate p))
                   (thickness (pl_plate q)) = true)
              (placed_plates sheet))
         (placed_plates sheet))
    (fst (nest_plates_on_multiple_stocks plates stock_configs max_sheets)).
Proof.
  apply Forall_forall. intros sheet Hs.
  destruct (sheet_in_group _ _ _ _ Hs) as (group & sub & Hg & Hsub & Hsheet).
  destruct Hsheet as (i & w & l & _ & _ & _ & _ & Hpl & _ & _).
  pose proof (plates_by_thickness_uniform plates) as Hu.
  rewrite Forall_forall in Hu. specialize (Hu _ Hg).
  unfold group_uniform in Hu. rewrite Forall_forall in Hu.
  assert (Hin : forall pl, In pl (placed_plates sheet) ->
                           thickness_eqb (fst group) (thickness (pl_plate pl))
                           = true).
  { intros pl Hpl'. apply Hu. apply Hsub.
    apply (greedy_placed_incl sub w l 5.0). rewrite <- Hpl.
    apply in_map. exact Hpl'. }
  apply Forall_forall. intros p Hp. apply Forall_forall. intros q Hq.
  eapply thickness_eqb_trans; [apply thickness_eqb_sym, Hin, Hp | apply Hin, Hq].
Qed.

(** X4 ([nest_plates_on_multiple_stocks], polygon_nesting.py 168-198).
    For plates of non-negative width and length, every sheet returned holds
    at least one plate, has the size of the offered stock configuration
    its [stock_index] addresses, and keeps its plates inside the sheet
    with 5 mm free on every side and at least 5 mm apart. *)
Theorem sheets_are_valid (plates : list PlateGeometry)
  (stock_configs : list (Q * Q)) (max_sheets : nat) :
  Forall plate_nonneg plates ->
  Forall
    (fun sheet =>
       placed_plates sheet <> []
       /\ (exists i,
             stock_index sheet = Z.of_nat i
             /\ nth_error stock_configs i
                = Some (stock_width sheet, stock_length sheet))
       /\ Forall (inside_sheet (stock_width sheet) (stock_length sheet) 5.0)
            (placed_plates sheet)
       /\ ForallOrdPairs (separated 5.0) (placed_plates sheet))
    (fst (nest_plates_on_multiple_stocks plates stock_configs max_sheets)).
Proof.
  intros Hnn. apply Forall_forall. intros sheet Hs.
  destruct (sheet_in_group _ _ _ _ Hs) as (group & sub & Hg & Hsub & Hsheet).
  destruct Hsheet as (i & w & l & Hn & Hi & Hw & Hl & Hpl & _ & Hne).
  assert (Hsubnn : Forall plate_nonneg sub).
  { apply Forall_forall. intros p Hp. rewrite Forall_forall in Hnn.
    apply Hnn. eapply Permutation_in; [apply plates_by_thickness_perm|].
    apply in_flat_map. exists group. split; [exact Hg | apply Hsub, Hp]. }
  assert (H5 : 0 <= 5.0) by lra.
  destruct (greedy_cursor_inv sub w l 5.0 H5 Hsubnn) as [Hin Hsep].
  rewrite <- Hpl in Hin, Hsep. subst w l.
  split; [exact Hne|]. split; [|split; assumption].
  exists i. split; assumption.
Qed.

(** ** Copies of one plate *)

Lemma repeat_snoc {A : Type} (a : A) (n : nat) :
  repeat a n ++ [a] = a :: repeat a n.
Proof. induction n as [|n IH]; simpl; [reflexivity | now rewrite IH]. Qed.

Lemma group_copies (p : PlateGeometry) (n : nat) : forall k,
  fold_left (fun groups q => group_insert q groups) (repeat p n)
    [(thickness p, repeat p (S k))]
  = [(thickness p, repeat p (S k + n))].
Proof.
  induction n as [|n IH]; intro k.
  - cbn [repeat fold_left]. now rewrite Nat.add_0_r.
  - change (repeat p (S n)) with (p :: repeat p n).
    cbn [fold_left group_insert]. rewrite thickness_eqb_refl.
    rewrite repeat_snoc.
    change (p :: repeat p (S k)) with (repeat p (S (S k))).
    rewrite IH. f_equal. f_equal. f_equal. lia.
Qed.

Lemma plates_by_thickness_copies (p : PlateGeometry) (n : nat) :
  plates_by_thickness (repeat p (S n)) = [(thickness p, repeat p (S n))].
Proof.
  unfold plates_by_thickness.
  change (repeat p (S n)) with (p :: repeat p n).
  cbn [fold_left group_insert]. apply (group_copies p n 0).
Qed.

Lemma nest_thickness_nil (fuel : nat) (stock_configs : list (Q * Q))
  (results : list NestingResult) :
  nest_thickness fuel stock_configs [] results = results.
Proof. destruct fuel; reflexivity. Qed.

Lemma repeat_ids (p : PlateGeometry) (n : nat) (ids : list Z) :
  In (element_id p) ids -> not_placed ids (repeat p n) = [].
Proof.
  intro H. apply not_placed_own. intros a Ha.
  apply in_map_iff in Ha. destruct Ha as (q & E & Hq).
  apply repeat_spec in Hq. subst. exact H.
Qed.

(** X7 ([nest_plates_on_multiple_stocks], polygon_nesting.py 190-192 and
    205-211; the caller appends one object [quantity] times, main.py
    6739-6742).  For [n] copies of one plate at most one sheet is
    returned, and once a sheet is returned no copy is reported as
    remaining: the copies that did not fit on that sheet are dropped,
    because placed plates are removed by [element_id]. *)
Theorem copies_fill_one_sheet (p : PlateGeometry) (n : nat)
  (stock_configs : list (Q * Q)) (max_sheets : nat) :
  (List.length
     (fst (nest_plates_on_multiple_stocks (repeat p n) stock_configs
             max_sheets)) <= 1)%nat
  /\ (fst (nest_plates_on_multiple_stocks (repeat p n) stock_configs
             max_sheets) <> [] ->
      snd (nest_plates_on_multiple_stocks (repeat p n) stock_configs
             max_sheets) = []).
Proof.
  rewrite remaining_as_filter, results_by_group.
  destruct n as [|n]; [split; [simpl; lia | intros _; reflexivity]|].
  rewrite plates_by_thickness_copies. cbn [flat_map snd].
  rewrite !app_nil_r.
  destruct max_sheets as [|fuel]; [split; [simpl; lia | intro H; now elim H]|].
  destruct (nest_thickness_step fuel stock_configs (repeat p (S n)))
    as [E|(sheet & Hs & E)]; rewrite E.
  - split; [simpl; lia | intro H; now elim H].
  - destruct Hs as (i & w & l & _ & _ & _ & _ & Hp & _ & Hne).
    assert (Hid : In (element_id p) (placed_ids (placed_plates sheet))).
    { destruct (placed_plates sheet) as [|pl pls] eqn:Epl; [now elim Hne|].
      assert (Hin : In (pl_plate pl) (repeat p (S n))).
      { apply (greedy_placed_incl (repeat p (S n)) w l 5.0).
        rewrite <- Hp. left. reflexivity. }
      apply repeat_spec in Hin. left. simpl. now rewrite Hin. }
    rewrite (repeat_ids p (S n) _ Hid), nest_thickness_nil.
    split; [simpl; lia | intros _].
    apply repeat_ids. unfold plates_of. cbn [flat_map]. rewrite app_nil_r.
    unfold placed_ids in Hid. rewrite map_map. exact Hid.
Qed.

(** ** Statistics *)




Lemma zsum_acc (xs : list Z) : forall a,
  fold_left Z.add xs a = (a + zsum xs)%Z.
Proof.
  unfold zsum. induction xs as [|x xs IH]; intro a; simpl; [lia|].
  rewrite IH, (IH x). lia.
Qed.

Lemma nested_count (results : list NestingResult) :
  zsum (map (fun r => Z.of_nat (List.length (placed_plates r))) results)
  = Z.of_nat (List.length (plates_of results)).
Proof.
  unfold plates_of. induction results as [|r rs IH]; [reflexivity|].
  cbn [map flat_map]. unfold zsum. cbn [fold_left]. rewrite zsum_acc, IH.
  rewrite length_app, length_map. lia.
Qed.

(** X9 ([calculate_nesting_statistics] after
    [nest_plates_on_multiple_stocks], polygon_nesting.py 248-249 and
    main.py 6751-6761).  When the plates have pairwise different
    [element_id]s and the statistics are returned, [nested_plates] and
    [unnested_plates] add up to [total_plates] and [unnested_plates] is
    the number of plates returned as remaining. *)
Theorem unnested_count_is_remaining (plates : list PlateGeometry)
  (stock_configs : list (Q * Q)) (max_sheets : nat) (st : Statistics) :
  NoDup (map element_id plates) ->
  calculate_nesting_statistics
    (fst (nest_plates_on_multiple_stocks plates stock_configs max_sheets))
    (Z.of_nat (List.length plates)) = Some st ->
  total_plates st = Z.of_nat (List.length plates)
  /\ (nested_plates st + unnested_plates st = total_plates st)%Z
  /\ unnested_plates st
     = Z.of_nat
         (List.length
            (snd (nest_plates_on_multiple_stocks plates stock_configs
                    max_sheets))).
Proof.
  intros Hids Hst.
  destruct (no_reuse plates stock_configs max_sheets) as (rest & HP).
  pose proof (remaining_is_rest plates stock_configs max_sheets rest Hids HP)
    as Hrem.
  apply Permutation_length in HP, Hrem. rewrite length_app, <- Hrem in HP.
  clear Hrem rest.
  remember (fst (nest_plates_on_multiple_stocks plates stock_configs
                   max_sheets)) as results eqn:Er.
  remember (snd (nest_plates_on_multiple_stocks plates stock_configs
                   max_sheets)) as remaining eqn:Erem.
  clear Er Erem.
  pose proof (nested_count results) as Hn.
  unfold calculate_nesting_statistics in Hst.
  destruct results as [|r rs].
  - injection Hst as <-. cbn [total_plates nested_plates unnested_plates].
    simpl in HP. split; [reflexivity | split; lia].
  - destruct (plate_weights (r :: rs)) as [[tw tv]|]; [|discriminate].
    injection Hst as <-. cbn [total_plates nested_plates unnested_plates].
    cbn [map] in Hn. rewrite Hn. split; [reflexivity | split; lia].
Qed.

(** X1 ([greedy_nesting], polygon_nesting.py 71-125).  With a gap that is
    not negative and plates of non-negative width and length, every plate
    the greedy nesting places lies on the stock sheet with the gap free on
    each of its four sides. *)
Theorem greedy_nesting_inside_sheet (plates : list PlateGeometry)
  (stock_width stock_length gap : Q) :
  0 <= gap -> Forall plate_nonneg plates ->
  Forall (inside_sheet stock_width stock_length gap)
    (placed_plates (greedy_nesting plates stock_width stock_length gap)).
Proof.
  intros Hgap Hl. unfold greedy_nesting.
  destruct plates as [|p0 rest]; cbn [placed_plates]; [constructor|].
  apply (inv_inside stock_width stock_length gap).
  apply fold_place_inv; [exact Hgap | | apply initial_cursor_inv; exact Hgap].
  apply Forall_forall. intros z Hz. apply sort_desc_In in Hz.
  rewrite Forall_forall in Hl. apply Hl. exact Hz.
Qed.

Lemma greedy_nesting_inside_sheet_witness :
  0 <= 5
  /\ Forall plate_nonneg sample_plates
  /\ Forall (inside_sheet 3000 1500 5)
       (placed_plates (greedy_nesting sample_plates 3000 1500 5)).
Proof.
  assert (H5 : 0 <= 5) by lra.
  assert (Hnn : Forall plate_nonneg sample_plates).
  { repeat constructor; simpl; lra. }
  split; [exact H5|]. split; [exact Hnn|].
  exact (greedy_nesting_inside_sheet sample_plates 3000 1500 5 H5 Hnn).
Defined.

(** X2 ([greedy_nesting], polygon_nesting.py 94-122).  Under the same
    conditions any two plates the greedy nesting places on a sheet have
    bounding boxes at least the gap apart, along the width or along the
    length: placed plates never overlap. *)
Theorem greedy_nesting_keeps_gap (plates : list PlateGeometry)
  (stock_width stock_length gap : Q) :
  0 <= gap -> Forall plate_nonneg plates ->
  ForallOrdPairs (separated gap)
    (placed_plates (greedy_nesting plates stock_width stock_length gap)).
Proof.
  intros Hgap Hl. unfold greedy_nesting.
  destruct plates as [|p0 rest]; cbn [placed_plates]; [constructor|].
  apply (inv_sep stock_width stock_length gap).
  apply fold_place_inv; [exact Hgap | | apply initial_cursor_inv; exact Hgap].
  apply Forall_forall. intros z Hz. apply sort_desc_In in Hz.
  rewrite Forall_forall in Hl. apply Hl. exact Hz.
Qed.

Lemma greedy_nesting_keeps_gap_witness :
  0 <= 5
  /\ Forall plate_nonneg sample_plates
  /\ ForallOrdPairs (separated 5)
       (placed_plates (greedy_nesting sample_plates 3000 1500 5)).
Proof.
  assert (H5 : 0 <= 5) by lra.
  assert (Hnn : Forall plate_nonneg sample_plates).
  { repeat constructor; simpl; lra. }
  split; [exact H5|]. split; [exact Hnn|].
  exact (greedy_nesting_keeps_gap sample_plates 3000 1500 5 H5 Hnn).
Defined.

Lemma sample_ids : NoDup (map element_id sample_plates).
Proof.
  simpl. repeat constructor; simpl; intuition discriminate.
Qed.

Lemma plates_nested_or_remaining_witness :
  NoDup (map element_id sample_plates)
  /\ Permutation sample_plates
       (plates_of
          (fst (nest_plates_on_multiple_stocks sample_plates sample_stocks 100))
        ++ snd (nest_plates_on_multiple_stocks sample_plates sample_stocks
                  100)).
Proof.
  split; [exact sample_ids|].
  exact (plates_nested_or_remaining sample_plates sample_stocks 100 sample_ids).
Defined.

Lemma sheets_are_valid_witness :
  Forall plate_nonneg sample_plates
  /\ Forall
       (fun sheet =>
          placed_plates sheet <> []
          /\ (exists i,
                stock_index sheet = Z.of_nat i
                /\ nth_error sample_stocks i
                   = Some (stock_width sheet, stock_length sheet))
          /\ Forall
               (inside_sheet (stock_width sheet) (stock_length sheet) 5.0)
               (placed_plates sheet)
          /\ ForallOrdPairs (separated 5.0) (placed_plates sheet))
       (fst (nest_plates_on_multiple_stocks sample_plates sample_stocks 100)).
Proof.
  assert (Hnn : Forall plate_nonneg sample_plates).
  { repeat constructor; simpl; lra. }
  split; [exact Hnn|].
  exact (sheets_are_valid sample_plates sample_stocks 100 Hnn).
Defined.

Lemma unnested_count_is_remaining_witness :
  NoDup (map element_id sample_plates)
  /\ exists st,
       calculate_nesting_statistics
         (fst (nest_plates_on_multiple_stocks sample_plates sample_stocks 100))
         (Z.of_nat (List.length sample_plates)) = Some st
       /\ unnested_plates st = 0%Z.
Proof.
  split; [exact sample_ids|].
  destruct (calculate_nesting_statistics
         (fst (nest_plates_on_multiple_stocks sample_plates sample_stocks 100))
         (Z.of_nat (List.length sample_plates))) as [st|] eqn:E;
    [|vm_compute in E; discriminate].
  exists st. split; [reflexivity|].
  destruct (unnested_count_is_remaining sample_plates sample_stocks 100 st
              sample_ids E) as (_ & _ & H).
  rewrite H. reflexivity.
Defined.

Lemma subseq_nil_l {A : Type} (l : list A) : subseq [] l.
Proof. induction l; constructor; assumption. Qed.

Lemma fold_place_subseq (sw sl gap : Q) (l : list PlateGeometry) : forall c,
  exists added,
    placed (fold_left (place_plate sw sl gap) l c) = placed c ++ added
    /\ subseq (map pl_plate added) l.
Proof.
  induction l as [|p l IH]; intro c; cbn [fold_left].
  - exists []. split; [now rewrite app_nil_r | constructor].
  - destruct (IH (place_plate sw sl gap c p)) as (added & E & Hs).
    destruct (place_plate_placed sw sl gap c p) as [Hc|(pl & Hpl & Hc)];
      rewrite Hc in E.
    + exists added. split; [exact E | apply subseq_skip; exact Hs].
    + exists (pl :: added). split.
      * rewrite E, <- app_assoc. reflexivity.
      * cbn [map]. rewrite Hpl. apply subseq_take. exact Hs.
Qed.

(** X3 ([greedy_nesting], polygon_nesting.py 91-122).  The plates placed
    on the sheet, in the order in which they were placed, are a
    subsequence of the input sorted by decreasing area: every placed plate
    is an input plate, none is placed twice, and a larger plate is never
    placed after a smaller one. *)
Theorem greedy_nesting_first_fit_decreasing (plates : list PlateGeometry)
  (stock_width stock_length gap : Q) :
  subseq
    (map pl_plate
       (placed_plates (greedy_nesting plates stock_width stock_length gap)))
    (Nesting.sort_desc area plates)
  /\ Permutation (Nesting.sort_desc area plates) plates
  /\ Nesting.ordered (fun p q => Nesting.Qltb (area q) (area p))
       (Nesting.sort_desc area plates).
Proof.
  split; [|split; [apply sort_by_perm | apply sort_by_ordered]].
  - unfold greedy_nesting. destruct plates as [|p0 rest]; cbn [placed_plates].
    + apply subseq_nil_l.
    + destruct (fold_place_subseq stock_width stock_length gap
                  (Nesting.sort_desc area (p0 :: rest))
                  (mkCursor gap gap 0 [])) as (added & E & Hs).
      rewrite E. exact Hs.
  - apply desc_lt_trans.
  - apply desc_lt_asym.
Qed.

End PlateNestingFacts.

Module BarLoopFacts.

Import Nesting.
Import BarLoop.
Import NestingFacts.

Local Open Scope Q_scope.

Section Loop.

Variable tan : Q -> Q.
Variable estimated_profile_depth : Q.
Variable stock_lengths_list : list Q.

Local Abbreviation built :=
  (built_bar tan estimated_profile_depth stock_lengths_list).

Local Abbreviation one_bar :=
  (nest_one_bar tan estimated_profile_depth stock_lengths_list).

Lemma pair_step_outcome (best_stock : Q) (t : PairingType)
  (part1 part2 : Part) (bar : Bar) :
  pair_outcome tan estimated_profile_depth best_stock t part1 part2 bar
    (pair_step tan estimated_profile_depth stock_lengths_list best_stock t
       part1 part2 bar).
Proof.
  unfold pair_step.
  destruct (pair_lengths tan estimated_profile_depth (length part1)
              (length part2) (angle_for_calculation t part1 part2))
    as [shared combined] eqn:Epl.
  repeat match goal with
  | |- context [if ?c then _ else _] => destruct c eqn:?
  | |- context [match ?o with Some _ => _ | None => _ end] => destruct o eqn:?
  end;
  try apply pair_unchanged;
  try (apply pair_undone; rewrite Epl; reflexivity);
  try (apply (pair_placed _ _ _ _ _ _ _ shared combined);
       [exact Epl | qprop; lra]).
Qed.

(** ** Identifiers *)

Lemma part_in_ids (p : Part) (l : list Part) :
  part_in p l = true <-> In (product_id p) (part_ids l).
Proof.
  unfold part_in, part_ids. rewrite existsb_exists, in_map_iff. split.
  - intros (q & Hq & E). apply part_eqb_eq in E. exists q. auto.
  - intros (q & E & Hq). exists q. split; [exact Hq | now apply part_eqb_eq].
Qed.

Lemma part_in_ids_false (p : Part) (l : list Part) :
  part_in p l = false <-> ~ In (product_id p) (part_ids l).
Proof.
  rewrite <- part_in_ids. destruct (part_in p l); split; congruence.
Qed.

Lemma flip_id (p : Part) : product_id (flip p) = product_id p.
Proof. reflexivity. Qed.

Lemma NoDup_snoc {A : Type} (l : list A) (a : A) :
  NoDup l -> ~ In a l -> NoDup (l ++ [a]).
Proof.
  intros Hl Ha. apply NoDup_app; [exact Hl | repeat constructor; intros [] |].
  intros x Hx [<-|[]]. exact (Ha Hx).
Qed.

Lemma drop_pair_fresh (part1 part2 : Part) (pps : list Placement)
  (pl1 pl2 : Placement) :
  pp_part pl1 = part1 -> pp_part pl2 = part2 ->
  ~ In (product_id part1) (placement_ids pps) ->
  ~ In (product_id part2) (placement_ids pps) ->
  drop_pair part1 part2 (pps ++ [pl1; pl2]) = pps.
Proof.
  intros E1 E2 H1 H2. unfold drop_pair. rewrite filter_app.
  cbn [filter]. rewrite E1, E2. cbn [part_in existsb].
  rewrite !part_eqb_refl. cbn [orb negb]. rewrite orb_true_r. cbn [negb].
  rewrite app_nil_r. apply filter_all. intros pp Hpp.
  apply negb_true_iff.
  destruct (part_eqb (pp_part pp) part1) eqn:Ea.
  { exfalso. apply H1. apply part_eqb_eq in Ea. rewrite <- Ea.
    unfold placement_ids. apply (in_map (fun pp => product_id (pp_part pp))).
    exact Hpp. }
  destruct (part_eqb (pp_part pp) part2) eqn:Eb.
  { exfalso. apply H2. apply part_eqb_eq in Eb. rewrite <- Eb.
    unfold placement_ids. apply (in_map (fun pp => product_id (pp_part pp))).
    exact Hpp. }
  reflexivity.
Qed.

(** ** The pairing keeps the bar consistent *)

Section OneBar.

Variable best_stock : Q.
Variable V : list Part.
Hypothesis V_fits : Forall (fun p => length p <= best_stock) V.

Lemma pair_step_ok (t : PairingType) (part1 part2 : Part) (bar : Bar) :
  bar_ok best_stock V bar ->
  In part1 V -> In part2 V -> product_id part1 <> product_id part2 ->
  part_in part1 (parts_to_remove bar) = false ->
  part_in part2 (parts_to_remove bar) = false ->
  bar_ok best_stock V
    (fst (pair_step tan estimated_profile_depth stock_lengths_list best_stock
            t part1 part2 bar)).
Proof.
  intros [Hids Hnd Hval Hlen] H1 H2 Hne Hf1 Hf2.
  apply part_in_ids_false in Hf1, Hf2.
  rewrite Forall_forall in V_fits.
  destruct (pair_step_outcome best_stock t part1 part2 bar)
    as [flow | pps Hpps | shared combined Epl Hfit]; cbn [fst].
  - constructor; assumption.
  - rewrite drop_pair_fresh in Hpps;
      [| reflexivity | reflexivity | now rewrite Hids | now rewrite Hids].
    subst pps. constructor; assumption.
  - constructor; cbn [pattern_parts parts_to_remove].
    + unfold placement_ids, part_ids in *. rewrite !map_app, Hids. reflexivity.
    + unfold part_ids in *. rewrite map_app. cbn [map].
      apply NoDup_app; [exact Hnd | |].
      * constructor; [intros [E|[]]; congruence|].
        constructor; [intros [] | constructor].
      * intros x Hx [<-|[<-|[]]]; tauto.
    + unfold part_ids in *. rewrite map_app. apply incl_app; [exact Hval|].
      intros x [<-|[<-|[]]]; apply in_map; assumption.
    + apply Forall_app; split; [exact Hlen|].
      constructor; [|constructor; [|constructor]]; cbn [pp_length];
        apply V_fits; assumption.
Qed.

Lemma pair_step_continue (t : PairingType) (part1 part2 : Part)
  (bar bar' : Bar) :
  pair_step tan estimated_profile_depth stock_lengths_list best_stock t
    part1 part2 bar = (bar', Continue) ->
  parts_to_remove bar' = parts_to_remove bar.
Proof.
  intro E.
  pose proof (pair_step_outcome best_stock t part1 part2 bar) as H.
  rewrite E in H. inversion H; subst; reflexivity.
Qed.

Lemma pair_inner_ok (part1 : Part) (candidates : list Part) : forall bar,
  bar_ok best_stock V bar ->
  In part1 V -> incl candidates V ->
  ~ In (product_id part1) (part_ids candidates) ->
  part_in part1 (parts_to_remove bar) = false ->
  bar_ok best_stock V
    (pair_inner tan estimated_profile_depth stock_lengths_list best_stock
       part1 candidates bar).
Proof.
  induction candidates as [|part2 rest IH]; intros bar Hok H1 Hinc Hfresh Hf1;
    cbn [pair_inner]; [exact Hok|].
  assert (Hrest : incl rest V) by (intros x Hx; apply Hinc; right; exact Hx).
  assert (Hfresh' : ~ In (product_id part1) (part_ids rest)).
  { intro H. apply Hfresh. right. exact H. }
  destruct (part_in part2 (parts_to_remove bar)) eqn:Ef2; [now apply IH|].
  destruct (find_pairing part1 part2) as [t|]; [|now apply IH].
  assert (Hne : product_id part1 <> product_id part2).
  { intro E. apply Hfresh. left. symmetry. exact E. }
  pose proof (pair_step_ok t part1 part2 bar Hok H1
                (Hinc part2 (or_introl eq_refl)) Hne Hf1 Ef2) as Hstep.
  destruct (pair_step tan estimated_profile_depth stock_lengths_list
              best_stock t part1 part2 bar) as [bar' [|]] eqn:E;
    cbn [fst] in Hstep; [|exact Hstep].
  apply IH; try assumption.
  rewrite (pair_step_continue t part1 part2 bar bar' E). exact Hf1.
Qed.

Lemma pair_outer_ok (valid : list Part) : forall bar,
  bar_ok best_stock V bar ->
  incl valid V -> NoDup (part_ids valid) ->
  bar_ok best_stock V
    (pair_outer tan estimated_profile_depth stock_lengths_list best_stock
       valid bar).
Proof.
  induction valid as [|part1 rest IH]; intros bar Hok Hinc Hnd;
    cbn [pair_outer]; [exact Hok|].
  assert (Hrest : incl rest V) by (intros x Hx; apply Hinc; right; exact Hx).
  cbn [part_ids map] in Hnd. inversion Hnd as [|a l Ha Hl]; subst.
  destruct (Qltb _ _); [exact Hok|].
  destruct (part_in part1 (parts_to_remove bar)) eqn:Ef1; [now apply IH|].
  destruct (negb _); [now apply IH|].
  apply IH; try assumption.
  apply pair_inner_ok; try assumption.
  apply Hinc. left. reflexivity.
Qed.

Lemma empty_bar_ok : bar_ok best_stock V empty_bar.
Proof.
  constructor; cbn; [reflexivity | constructor | intros x [] | constructor].
Qed.

Lemma pair_search_ok (valid : list Part) :
  incl valid V -> NoDup (part_ids valid) ->
  bar_ok best_stock V
    (pair_search tan estimated_profile_depth stock_lengths_list best_stock
       valid empty_bar).
Proof.
  intros Hinc Hnd. unfold pair_search.
  destruct (_ <=? _)%nat; [|apply empty_bar_ok].
  apply pair_outer_ok; [apply empty_bar_ok | assumption | assumption].
Qed.

(** ** The fill keeps the bar consistent *)

Lemma update_pool_ids (part : Part) (pool : list Part) :
  part_ids (update_pool part pool) = part_ids pool.
Proof.
  unfold part_ids, update_pool. rewrite map_map. apply map_ext.
  intro q. destruct (part_eqb q part) eqn:E; [|reflexivity].
  apply part_eqb_eq in E. symmetry. exact E.
Qed.

Lemma fill_pool_ids (valid rps : list Part) : forall bar pool,
  part_ids (snd (fill best_stock valid rps bar pool)) = part_ids pool.
Proof.
  induction rps as [|part rest IH]; intros bar pool; cbn [fill];
    [reflexivity|].
  destruct (part_in part (parts_to_remove bar)); [apply IH|].
  destruct (negb (part_in part valid)); [apply IH|].
  destruct (Qltb (best_stock + tolerance_mm) (current_length bar));
    [reflexivity|].
  destruct (boundary (pattern_parts bar) part) as [flip_it kerf_mm].
  assert (Hpool : part_ids
                    (if flip_it
                     then update_pool (if flip_it then flip part else part)
                            pool
                     else pool) = part_ids pool).
  { destruct flip_it; [apply update_pool_ids | reflexivity]. }
  destruct (Qltb (best_stock + tolerance_mm) _); [rewrite IH; exact Hpool|].
  destruct (Qltb (best_stock + 0.1) _); [exact Hpool|].
  destruct (Qle_bool _ _); [exact Hpool|].
  rewrite IH. exact Hpool.
Qed.

Lemma fill_ok (valid rps : list Part) : forall bar pool,
  bar_ok best_stock V bar -> incl rps V ->
  bar_ok best_stock V (fst (fill best_stock valid rps bar pool)).
Proof.
  induction rps as [|part rest IH]; intros bar pool Hok Hinc; cbn [fill];
    [exact Hok|].
  assert (Hrest : incl rest V) by (intros x Hx; apply Hinc; right; exact Hx).
  assert (Hpart : In part V) by (apply Hinc; left; reflexivity).
  destruct (part_in part (parts_to_remove bar)) eqn:Ef; [now apply IH|].
  destruct (negb (part_in part valid)); [now apply IH|].
  destruct (Qltb (best_stock + tolerance_mm) (current_length bar));
    [exact Hok|].
  destruct (boundary (pattern_parts bar) part) as [flip_it kerf_mm].
  set (placed_part := if flip_it then flip part else part).
  assert (Hid : product_id placed_part = product_id part).
  { unfold placed_part. destruct flip_it; reflexivity. }
  destruct (Qltb (best_stock + tolerance_mm)
              (current_length bar + length part + kerf_mm)) eqn:E1;
    [now apply IH|].
  unfold tolerance_mm in E1. rewrite E1.
  assert (Hok' : bar_ok best_stock V
            (mkBar
               (pattern_parts bar
                ++ [mkPlacement placed_part (cut_position bar) (length part)
                      (part_slope_info placed_part) false])
               (current_length bar + length part + kerf_mm)
               (total_parts_length bar + length part)
               (cut_position bar + (length part + kerf_mm))
               (parts_to_remove bar ++ [placed_part]))).
  { destruct Hok as [Hids Hnd Hval Hlen].
    apply part_in_ids_false in Ef.
    constructor; cbn [pattern_parts parts_to_remove].
    - unfold placement_ids, part_ids in *. rewrite !map_app, Hids.
      reflexivity.
    - unfold part_ids in *. rewrite map_app. cbn [map]. rewrite Hid.
      apply NoDup_snoc; assumption.
    - unfold part_ids in *. rewrite map_app. apply incl_app; [exact Hval|].
      intros x [<-|[]]. rewrite Hid. apply in_map. exact Hpart.
    - apply Forall_app; split; [exact Hlen|].
      constructor; [|constructor]. cbn [pp_length].
      rewrite Forall_forall in V_fits. apply V_fits. exact Hpart. }
  destruct (Qle_bool _ _); [exact Hok'|].
  apply IH; assumption.
Qed.

(** ** The ordering only rearranges the candidates *)

Lemma partition_incl {A : Type} (f : A -> bool) (l l1 l2 : list A) :
  partition f l = (l1, l2) -> incl l1 l /\ incl l2 l.
Proof.
  intro E. split; intros x Hx;
    apply (elements_in_partition f l E); [left | right]; exact Hx.
Qed.

Lemma sort_desc_incl (key : Part -> Q) (l U : list Part) :
  incl l U -> incl (sort_desc key l) U.
Proof. intros H x Hx. apply H. apply sort_desc_In in Hx. exact Hx. Qed.

Lemma filter_incl' {A : Type} (f : A -> bool) (l U : list A) :
  incl l U -> incl (filter f l) U.
Proof. intros H x Hx. apply H. apply filter_In in Hx. tauto. Qed.

Lemma simulate_fill_incl (U : list Part) (fuel : nat)
  (srs : list Part) : forall sim,
  incl srs U -> incl (simulated_parts sim) U ->
  incl (simulated_parts (simulate_fill fuel best_stock srs sim)) U.
Proof.
  induction fuel as [|fuel IH]; intros sim Hsrs Hsim; cbn [simulate_fill];
    [exact Hsim|].
  destruct srs as [|s0 srs']; [exact Hsim|].
  set (srs := s0 :: srs') in *.
  destruct (partition _ (filter _ srs)) as [can cannot] eqn:Ep.
  destruct (partition_incl _ _ _ _ Ep) as [Hcan Hcannot].
  destruct (can ++ cannot) as [|next rest] eqn:En; [exact Hsim|].
  assert (Hnext : In next U).
  { apply Hsrs.
    assert (H : In next (can ++ cannot)) by (rewrite En; left; reflexivity).
    apply in_app_or in H.
    destruct H as [H|H]; [apply Hcan in H | apply Hcannot in H];
      apply filter_In in H; tauto. }
  destruct (Qle_bool _ _); [|exact Hsim].
  apply IH; [exact Hsrs|]. cbn [simulated_parts].
  apply incl_app; [exact Hsim|]. intros x [<-|[]]. exact Hnext.
Qed.

Lemma simulate_incl (parts_to_consider : list Part) (trial : Part) :
  In trial parts_to_consider ->
  incl (simulated_parts (simulate best_stock parts_to_consider trial))
    parts_to_consider.
Proof.
  intro Ht. unfold simulate.
  destruct (partition _ (filter _ parts_to_consider)) as [can cannot] eqn:Ep.
  destruct (partition_incl _ _ _ _ Ep) as [Hcan Hcannot].
  apply simulate_fill_incl.
  - apply incl_app; apply sort_desc_incl; intros x Hx;
      [apply Hcan in Hx | apply Hcannot in Hx]; apply filter_In in Hx; tauto.
  - cbn [simulated_parts]. intros x [<-|[]]. exact Ht.
Qed.

Lemma firstn_incl' {A : Type} (n : nat) (l : list A) : incl (firstn n l) l.
Proof.
  revert l. induction n as [|n IH]; intros [|a l]; cbn [firstn];
    try apply incl_nil_l.
  intros x [<-|Hx]; [left; reflexivity | right; apply IH; exact Hx].
Qed.

Lemma lookahead_incl (rps : list Part) : incl (lookahead best_stock rps) rps.
Proof.
  unfold lookahead.
  set (ptc := if (20 <? List.length rps)%nat then firstn 20 rps else rps).
  assert (Hptc : incl ptc rps).
  { unfold ptc. destruct (_ <? _)%nat; [apply firstn_incl' | apply incl_refl]. }
  set (cands := firstn _ (firstn _ _ ++ _)).
  assert (Hc : incl cands ptc).
  { unfold cands. eapply incl_tran; [apply firstn_incl'|].
    apply incl_app; [eapply incl_tran; [apply firstn_incl'|]|];
      apply filter_incl', incl_refl. }
  assert (Hbest : forall l best,
             incl l ptc ->
             (forall w c, best = Some (w, c) -> incl c ptc) ->
             forall w c,
               fold_left
                 (fun best trial =>
                    let sim := simulate best_stock ptc trial in
                    let waste := best_stock - simulated_length sim in
                    if better_configuration best waste (simulated_parts sim)
                    then Some (waste, simulated_parts sim)
                    else best) l best = Some (w, c) ->
               incl c ptc).
  { induction l as [|trial l IH]; intros best Hl Hb w c; cbn [fold_left].
    - apply Hb.
    - apply IH; [intros x Hx; apply Hl; right; exact Hx|].
      intros w' c'. cbv zeta.
      destruct (better_configuration _ _ _); [|apply Hb].
      intros [= _ <-]. apply simulate_incl. apply Hl. left. reflexivity. }
  destruct (fold_left _ cands None) as [[w [|c0 cs]]|] eqn:E;
    try apply incl_refl.
  apply incl_app.
  - eapply incl_tran; [|exact Hptc].
    eapply (Hbest cands None Hc); [discriminate | exact E].
  - apply sort_desc_incl, filter_incl', incl_refl.
Qed.

Lemma best_start_In (rps : list Part) (b : Part) (score : Z) :
  best_start rps = (Some b, score) -> In b rps.
Proof.
  unfold best_start.
  assert (H : forall (l : list (nat * Part)) best,
             (forall e, In e l -> In (snd e) rps) ->
             (forall b s, best = (Some b, s) -> In b rps) ->
             forall b s,
               fold_left
                 (fun best ic =>
                    let '(best_start_part, best_flush_score) := best in
                    let '(candidate_idx, candidate) := ic in
                    let score := flush_score candidate_idx candidate rps in
                    if (best_flush_score <? score)%Z
                       || ((score =? best_flush_score)%Z
                           && match best_start_part with
                              | None => true
                              | Some b => Qltb (length b) (length candidate)
                              end)
                    then (Some candidate, score)
                    else best) l best = (Some b, s) ->
               In b rps).
  { induction l as [|[i c] l IH]; intros best Hl Hb b0 s; cbn [fold_left].
    - apply Hb.
    - apply IH; [intros e He; apply Hl; right; exact He|].
      destruct best as [bp bs]. cbv zeta.
      destruct (_ || _); [|apply Hb].
      intros b1 s1 [= <- _]. apply (Hl (i, c)). left. reflexivity. }
  apply H; [|discriminate].
  intros [i c] He. apply in_combine_r in He. exact He.
Qed.

Lemma remove_first_incl (p : Part) (l : list Part) :
  incl (remove_first p l) l.
Proof.
  induction l as [|q l IH]; cbn [remove_first]; [apply incl_refl|].
  destruct (part_eqb q p); [apply incl_tl, incl_refl|].
  intros x [<-|Hx]; [left; reflexivity | right; apply IH; exact Hx].
Qed.

Lemma order_candidates_incl (pps : list Placement) (rps : list Part) :
  incl (order_candidates best_stock pps rps) rps.
Proof.
  assert (Hafter : forall prev, incl (order_after prev rps) rps).
  { intro prev. unfold order_after.
    destruct (partition _ rps) as [can cannot] eqn:E1.
    destruct (partition _ cannot) as [unpaired normal] eqn:E2.
    destruct (partition_incl _ _ _ _ E1) as [H1 H2].
    destruct (partition_incl _ _ _ _ E2) as [H3 H4].
    repeat apply incl_app; apply sort_desc_incl; try assumption;
      eapply incl_tran; eassumption. }
  assert (Hempty : incl (order_for_empty_pattern best_stock rps) rps).
  { unfold order_for_empty_pattern.
    destruct (3 <=? _)%nat; [apply lookahead_incl|].
    destruct (_ <=? 50)%nat; [|apply sort_desc_incl, incl_refl].
    destruct (best_start rps) as [[b|] score] eqn:E;
      [|apply sort_desc_incl, incl_refl].
    destruct (0 <? score)%Z; [|apply sort_desc_incl, incl_refl].
    intros x [<-|Hx]; [exact (best_start_In rps _ _ E)|].
    exact (remove_first_incl _ _ _ Hx). }
  unfold order_candidates.
  destruct pps as [|pp pps'], rps as [|r rps']; try apply incl_refl;
    try exact Hempty.
  - destruct (last_placement _); apply sort_desc_incl, incl_refl.
  - destruct (last_placement _);
      [apply Hafter | apply sort_desc_incl, incl_refl].
Qed.

End OneBar.

(** ** Stock selection covers every remaining part *)

Lemma select_best_stock_fits (remaining : list Part) (best : Q) :
  select_best_stock stock_lengths_list remaining = Some best ->
  Forall (fun p => length p <= best) remaining.
Proof.
  unfold select_best_stock.
  pose proof (sort_by_In candidate_lt
                (candidate_stocks stock_lengths_list remaining)) as Hin.
  assert (Hfit : forall c,
            In c (candidate_stocks stock_lengths_list remaining) ->
            Forall (fun p => length p <= cand_stock c) remaining).
  { intros c Hc. apply candidate_stocks_In in Hc.
    destruct Hc as (_ & Hall & _). unfold all_fit_in_stock in Hall.
    apply andb_prop in Hall. destruct Hall as [_ Hall].
    rewrite forallb_forall in Hall. apply Forall_forall. intros p Hp.
    apply Qle_bool_iff. apply Hall. exact Hp. }
  destruct (sort_by candidate_lt (candidate_stocks _ _)) as [|c0 cs].
  - pose proof (sort_by_In candidate_lt
                  (candidate_for_largest stock_lengths_list
                     (list_max (map length remaining)))) as Hin'.
    destruct (sort_by candidate_lt (candidate_for_largest _ _))
      as [|d0 ds]; [discriminate|].
    intros [= <-].
    assert (H : In d0 (d0 :: ds)) by (left; reflexivity).
    apply Hin', candidate_for_largest_In in H. destruct H as (_ & Hle & _).
    apply Forall_forall. intros p Hp.
    assert (length p <= list_max (map length remaining)); [|lra].
    apply list_max_ge. apply in_map. exact Hp.
  - assert (Hall : forall c, In c (c0 :: cs) ->
              Forall (fun p => length p <= cand_stock c) remaining).
    { intros c Hc. apply Hfit, Hin. exact Hc. }
    destruct (_ <? _)%nat.
    + destruct (Qle_bool _ _); intros [= <-]; apply Hall;
        [apply last_In | left; reflexivity].
    + intros [= <-]. apply Hall. left. reflexivity.
Qed.

(** ** Removing the used parts *)

Lemma filter_split_perm {A : Type} (f : A -> bool) (l : list A) :
  Permutation l (filter f l ++ filter (fun x => negb (f x)) l).
Proof.
  induction l as [|a l IH]; cbn [filter]; [constructor|].
  destruct (f a); cbn [negb app].
  - constructor. exact IH.
  - apply Permutation_cons_app. exact IH.
Qed.

Lemma remove_all_perm (ps l : list Part) :
  NoDup (part_ids l) -> NoDup (part_ids ps) ->
  incl (part_ids ps) (part_ids l) ->
  Permutation (part_ids l) (part_ids ps ++ part_ids (remove_all ps l)).
Proof.
  intros Hl Hps Hinc.
  rewrite (remove_all_filter tan estimated_profile_depth) by exact Hl.
  etransitivity;
    [apply Permutation_map, (filter_split_perm (fun q => part_in q ps))|].
  unfold part_ids. rewrite map_app. apply Permutation_app_tail.
  apply NoDup_Permutation.
  - apply (NoDup_ids_filter tan estimated_profile_depth). exact Hl.
  - exact Hps.
  - intro x. rewrite !in_map_iff. split.
    + intros (q & E & Hq). apply filter_In in Hq. destruct Hq as [_ Hq].
      apply part_in_ids in Hq. unfold part_ids in Hq. rewrite E in Hq.
      apply in_map_iff in Hq. exact Hq.
    + intro Hx. assert (Hx' : In x (map product_id l)).
      { apply Hinc. apply in_map_iff. exact Hx. }
      apply in_map_iff in Hx'. destruct Hx' as (q & E & Hq).
      exists q. split; [exact E|]. apply filter_In. split; [exact Hq|].
      apply part_in_ids. rewrite E. apply in_map_iff. exact Hx.
Qed.

Lemma remove_all_nodup (ps l : list Part) :
  NoDup (part_ids l) -> NoDup (part_ids (remove_all ps l)).
Proof.
  intro Hl. rewrite (remove_all_filter tan estimated_profile_depth) by exact Hl.
  apply (NoDup_ids_filter tan estimated_profile_depth). exact Hl.
Qed.

Lemma remove_all_fresh (ps l : list Part) :
  NoDup (part_ids l) ->
  forall q, In q (remove_all ps l) -> part_in q ps = false.
Proof.
  intros Hl q Hq.
  rewrite (remove_all_filter tan estimated_profile_depth) in Hq by exact Hl.
  apply filter_In in Hq. destruct Hq as [_ Hq].
  apply negb_true_iff. exact Hq.
Qed.

Lemma remove_all_twice (ps ps' l : list Part) :
  NoDup (part_ids l) -> part_ids ps' = part_ids ps ->
  remove_all ps' (remove_all ps l) = remove_all ps l.
Proof.
  intros Hl E.
  rewrite (remove_all_filter tan estimated_profile_depth ps' _
             (remove_all_nodup ps l Hl)).
  apply filter_all. intros q Hq.
  apply negb_true_iff. apply part_in_ids_false. rewrite E.
  apply part_in_ids_false. exact (remove_all_fresh ps l Hl q Hq).
Qed.

(** ** Rejection of the oversized parts *)

Lemma reject_oversized_accounted (remaining : list Part)
  (rejected : list Rejected) :
  NoDup (part_ids remaining) ->
  Permutation
    (map rj_product_id rejected ++ part_ids remaining)
    (map rj_product_id
       (snd (reject_oversized stock_lengths_list remaining rejected))
     ++ part_ids
          (fst (reject_oversized stock_lengths_list remaining rejected)))
  /\ NoDup
       (part_ids
          (fst (reject_oversized stock_lengths_list remaining rejected)))
  /\ Forall (fun p => length p <= list_max stock_lengths_list)
       (fst (reject_oversized stock_lengths_list remaining rejected)).
Proof.
  intro Hnd.
  pose proof (reject_oversized_remaining tan estimated_profile_depth
                stock_lengths_list remaining rejected Hnd) as Hfst.
  rewrite Hfst. split; [|split].
  - unfold reject_oversized.
    destruct (Qltb _ _) eqn:E; cbn [snd].
    + rewrite map_app, map_map. cbn [oversize_entry rj_product_id].
      rewrite <- app_assoc. apply Permutation_app_head.
      etransitivity;
        [apply Permutation_map,
           (filter_split_perm
              (fun p => Qltb (list_max stock_lengths_list) (length p)))|].
      unfold part_ids. rewrite map_app. apply Permutation_app_head.
      unfold Qltb.
      rewrite (filter_ext _ (fun q =>
                 Qle_bool (length q) (list_max stock_lengths_list))
                 (fun q => negb_involutive _)).
      reflexivity.
    + apply Permutation_app_head.
      rewrite filter_all; [reflexivity|].
      intros q Hq. apply Qle_bool_iff. apply Qltb_false in E.
      assert (length q <= list_max (map length remaining)); [|lra].
      apply list_max_ge. apply in_map. exact Hq.
  - apply (NoDup_ids_filter tan estimated_profile_depth). exact Hnd.
  - apply Forall_forall. intros p Hp. apply filter_In in Hp.
    apply Qle_bool_iff. tauto.
Qed.

(** ** Validation records every part of the bar *)

Lemma no_invalid_parts (best_stock : Q) (pps : list Placement) :
  Forall (fun pp => pp_length pp <= best_stock) pps ->
  filter (fun pp => Qltb best_stock (pp_length pp)) pps = [].
Proof.
  induction 1 as [|x l Hx Hl IH]; cbn [filter]; [reflexivity|].
  apply Qltb_false in Hx. rewrite Hx. exact IH.
Qed.

Lemma validate_accounted (best_stock : Q) (V : list Part) (bar : Bar)
  (remaining : list Part) (patterns : list CuttingPattern)
  (rejected : list Rejected) :
  bar_ok best_stock V bar ->
  NoDup (part_ids remaining) ->
  (forall q, In q remaining -> part_in q (parts_to_remove bar) = false) ->
  remaining_parts (validate best_stock bar remaining patterns rejected)
  = remaining
  /\ Permutation
       (accounted (validate best_stock bar remaining patterns rejected))
       (placement_ids (pattern_parts bar)
        ++ accounted (mkLoop remaining patterns rejected)).
Proof.
  intros [Hids Hnd Hval Hlen] Hrem Hfresh.
  assert (Hwithout : remove_all (map pp_part (pattern_parts bar)) remaining
                     = remaining).
  { rewrite (remove_all_filter tan estimated_profile_depth) by exact Hrem.
    apply filter_all. intros q Hq. apply negb_true_iff.
    apply part_in_ids_false.
    replace (part_ids (map pp_part (pattern_parts bar)))
      with (placement_ids (pattern_parts bar))
      by (unfold part_ids, placement_ids; now rewrite map_map).
    rewrite Hids. apply part_in_ids_false. apply Hfresh. exact Hq. }
  assert (Hrej : forall reason,
            map rj_product_id
              (reject_pattern reason best_stock (pattern_parts bar))
            = placement_ids (pattern_parts bar)).
  { intro reason. unfold reject_pattern, placement_ids.
    rewrite map_map. reflexivity. }
  assert (Hperm : forall (P RJ I R : list Z),
            Permutation (P ++ (RJ ++ I) ++ R) (I ++ P ++ RJ ++ R)).
  { intros P RJ I R. rewrite <- app_assoc.
    rewrite (app_assoc P RJ), (app_assoc P RJ R).
    apply Permutation_app_swap_app. }
  unfold validate.
  destruct (pattern_parts bar) as [|pp pps] eqn:Epps.
  { split; [reflexivity|]. reflexivity. }
  rewrite <- Epps in *.
  assert (Hinvalid : filter (fun pp => Qltb best_stock (pp_length pp))
                       (pattern_parts bar) = []).
  { apply no_invalid_parts. exact Hlen. }
  rewrite Hinvalid, Hwithout.
  destruct (Qltb (best_stock + 0.1) (current_length bar)).
  { split; [reflexivity|]. unfold accounted.
    cbn [cutting_patterns rejected_parts remaining_parts].
    rewrite map_app, Hrej. apply Hperm. }
  destruct (negb _ && _)%bool.
  { split; [reflexivity|]. unfold accounted.
    cbn [cutting_patterns rejected_parts remaining_parts].
    rewrite map_app, Hrej. apply Hperm. }
  destruct (Qltb (_ + _ + 10) _).
  { split; [reflexivity|]. unfold accounted.
    cbn [cutting_patterns rejected_parts remaining_parts].
    rewrite map_app, Hrej. apply Hperm. }
  split; [reflexivity|]. unfold accounted.
  cbn [cutting_patterns rejected_parts remaining_parts].
  rewrite flat_map_app. cbn [flat_map parts]. rewrite app_nil_r.
  rewrite <- app_assoc. apply Permutation_app_swap_app.
Qed.

Lemma fill_pool_fits (best_stock : Q) (V valid rps : list Part) :
  Forall (fun p => length p <= best_stock) V -> incl rps V ->
  forall bar pool,
    Forall (fun p => length p <= best_stock) pool ->
    Forall (fun p => length p <= best_stock)
      (snd (fill best_stock valid rps bar pool)).
Proof.
  intros HV. induction rps as [|part rest IH]; intros Hinc bar pool Hpool;
    cbn [fill]; [exact Hpool|].
  assert (Hrest : incl rest V) by (intros x Hx; apply Hinc; right; exact Hx).
  assert (Hpart : length part <= best_stock).
  { rewrite Forall_forall in HV. apply HV, Hinc. left. reflexivity. }
  destruct (part_in part (parts_to_remove bar)); [now apply IH|].
  destruct (negb (part_in part valid)); [now apply IH|].
  destruct (Qltb (best_stock + tolerance_mm) (current_length bar));
    [exact Hpool|].
  destruct (boundary (pattern_parts bar) part) as [flip_it kerf_mm].
  assert (Hpool' : Forall (fun p => length p <= best_stock)
                     (if flip_it
                      then update_pool (if flip_it then flip part else part)
                             pool
                      else pool)).
  { destruct flip_it; [|exact Hpool]. unfold update_pool.
    apply Forall_forall. intros x Hx. apply in_map_iff in Hx.
    destruct Hx as (q & E & Hq). destruct (part_eqb q (flip part)).
    - subst x. exact Hpart.
    - subst x. rewrite Forall_forall in Hpool. apply Hpool. exact Hq. }
  destruct (Qltb (best_stock + tolerance_mm) _); [now apply IH|].
  destruct (Qltb (best_stock + 0.1) _); [exact Hpool'|].
  destruct (Qle_bool _ _); [exact Hpool'|].
  now apply IH.
Qed.

(** ** One pass of the loop accounts for every part *)

Lemma built_bar_ok (best_stock : Q) (remaining : list Part) :
  NoDup (part_ids remaining) ->
  Forall (fun p => length p <= best_stock) remaining ->
  bar_ok best_stock remaining (fst (built best_stock remaining))
  /\ part_ids (snd (built best_stock remaining)) = part_ids remaining
  /\ Forall (fun p => length p <= best_stock)
       (snd (built best_stock remaining)).
Proof.
  intros Hnd Hfit. unfold built_bar.
  set (V := sort_desc length
              (filter (fun p => Qle_bool (length p) best_stock) remaining)).
  assert (HV : incl V remaining).
  { intros x Hx. unfold V in Hx. apply sort_desc_In in Hx.
    apply filter_In in Hx. tauto. }
  assert (HVnd : NoDup (part_ids V)).
  { unfold V, part_ids, sort_desc.
    eapply Permutation_NoDup;
      [apply Permutation_map, Permutation_sym,
         PlateNestingFacts.sort_by_perm|].
    apply (NoDup_ids_filter tan estimated_profile_depth). exact Hnd. }
  set (paired := pair_search tan estimated_profile_depth stock_lengths_list
                   best_stock V empty_bar).
  assert (Hpaired : bar_ok best_stock remaining paired).
  { apply pair_search_ok; assumption. }
  split; [|split].
  - apply fill_ok; [exact Hfit | exact Hpaired |].
    eapply incl_tran; [apply order_candidates_incl|].
    eapply incl_tran; [|exact HV]. apply filter_incl', incl_refl.
  - apply fill_pool_ids.
  - apply (fill_pool_fits best_stock remaining); [exact Hfit | | exact Hfit].
    eapply incl_tran; [apply order_candidates_incl|].
    eapply incl_tran; [|exact HV]. apply filter_incl', incl_refl.
Qed.

Lemma iteration_unfold (st : Loop) :
  iteration tan estimated_profile_depth stock_lengths_list st
  = one_bar
      (fst (reject_oversized stock_lengths_list (remaining_parts st)
              (rejected_parts st)))
      (cutting_patterns st)
      (snd (reject_oversized stock_lengths_list (remaining_parts st)
              (rejected_parts st))).
Proof.
  unfold iteration, nest_one_bar, built_bar.
  destruct (reject_oversized _ _ _) as [remaining rejected]. cbn [fst snd].
  destruct remaining as [|r0 rs]; [reflexivity|].
  destruct (select_best_stock _ _) as [best|]; [|reflexivity].
  destruct (filter _ (r0 :: rs)) as [|f0 fs]; reflexivity.
Qed.

Lemma nest_one_bar_accounted (remaining : list Part)
  (patterns : list CuttingPattern) (rejected : list Rejected) :
  NoDup (part_ids remaining) ->
  Permutation (accounted (mkLoop remaining patterns rejected))
    (accounted (fst (one_bar remaining patterns rejected)))
  /\ NoDup
       (part_ids
          (remaining_parts (fst (one_bar remaining patterns rejected)))).
Proof.
  intro Hnd. unfold nest_one_bar.
  destruct remaining as [|r0 rs] eqn:Er; [split; [reflexivity | exact Hnd]|].
  rewrite <- Er in *. clear Er r0 rs.
  destruct (select_best_stock stock_lengths_list remaining) as [best|] eqn:Es;
    [|split; [reflexivity | exact Hnd]].
  pose proof (select_best_stock_fits remaining best Es) as Hfit.
  destruct (filter _ remaining) as [|f0 fs];
    [split; [reflexivity | exact Hnd]|].
  destruct (built_bar_ok best remaining Hnd Hfit) as (Hok & Hpool & Hpfit).
  destruct (built best remaining) as [bar pool]. cbn [fst snd] in *.
  assert (Hpnd : NoDup (part_ids pool)) by (rewrite Hpool; exact Hnd).
  pose proof (remove_all_perm (parts_to_remove bar) pool Hpnd
                (ok_nodup _ _ _ Hok)) as Hperm.
  rewrite Hpool in Hperm. specialize (Hperm (ok_valid _ _ _ Hok)).
  pose proof (remove_all_nodup (parts_to_remove bar) pool Hpnd) as Hrnd.
  pose proof (remove_all_fresh (parts_to_remove bar) pool Hpnd) as Hfresh.
  assert (Hsame : forall rem',
            Permutation (part_ids remaining) (part_ids rem') ->
            Permutation (accounted (mkLoop remaining patterns rejected))
              (accounted (mkLoop rem' patterns rejected))).
  { intros rem' H. unfold accounted.
    cbn [cutting_patterns rejected_parts remaining_parts].
    do 2 apply Permutation_app_head. exact H. }
  destruct (parts_to_remove bar) as [|u0 us] eqn:Eu.
  - cbn [part_ids map app] in Hperm.
    destruct (remove_all [] pool) as [|first others] eqn:Erem.
    + split; [apply Hsame; exact Hperm | constructor].
    + assert (Hfirst : Qltb best (length first) = false).
      { apply Qltb_false. rewrite Forall_forall in Hpfit. apply Hpfit.
        assert (H : In first (remove_all [] pool))
          by (rewrite Erem; left; reflexivity).
        rewrite (remove_all_filter tan estimated_profile_depth) in H
          by exact Hpnd.
        apply filter_In in H. tauto. }
      rewrite Hfirst. cbn [fst].
      split; [apply Hsame; exact Hperm | exact Hrnd].
  - rewrite <- Eu in *. cbn [fst].
    destruct (validate_accounted best remaining bar
                (remove_all (parts_to_remove bar) pool) patterns rejected
                Hok Hrnd Hfresh) as [Hrem Hacc].
    split; [|rewrite Hrem; exact Hrnd].
    etransitivity; [|apply Permutation_sym; exact Hacc].
    unfold accounted.
    cbn [cutting_patterns rejected_parts remaining_parts].
    rewrite (ok_ids _ _ _ Hok).
    etransitivity;
      [do 2 apply Permutation_app_head; exact Hperm|].
    rewrite !app_assoc. apply Permutation_app_tail.
    rewrite <- (app_assoc (part_ids (parts_to_remove bar))).
    apply Permutation_app_comm.
Qed.

Lemma iteration_accounted (st : Loop) :
  NoDup (part_ids (remaining_parts st)) ->
  Permutation (accounted st)
    (accounted
       (fst (iteration tan estimated_profile_depth stock_lengths_list st)))
  /\ NoDup
       (part_ids
          (remaining_parts
             (fst (iteration tan estimated_profile_depth stock_lengths_list
                     st)))).
Proof.
  intro Hnd. rewrite iteration_unfold.
  destruct (reject_oversized_accounted (remaining_parts st)
              (rejected_parts st) Hnd) as (Hperm & Hnd' & _).
  destruct (nest_one_bar_accounted
              (fst (reject_oversized stock_lengths_list (remaining_parts st)
                      (rejected_parts st)))
              (cutting_patterns st)
              (snd (reject_oversized stock_lengths_list (remaining_parts st)
                      (rejected_parts st))) Hnd') as [Hacc Hnd''].
  split; [|exact Hnd''].
  etransitivity; [|exact Hacc].
  unfold accounted. cbn [cutting_patterns rejected_parts remaining_parts].
  apply Permutation_app_head. exact Hperm.
Qed.

Lemma nesting_loop_accounted (fuel : nat) : forall st,
  NoDup (part_ids (remaining_parts st)) ->
  Permutation (accounted st)
    (accounted
       (nesting_loop tan estimated_profile_depth stock_lengths_list fuel st)).
Proof.
  induction fuel as [|fuel IH]; intros st Hnd; cbn [nesting_loop];
    [reflexivity|].
  destruct (remaining_parts st) as [|r0 rs] eqn:Er; [reflexivity|].
  rewrite <- Er in Hnd.
  destruct (iteration_accounted st Hnd) as [Hacc Hnd'].
  destruct (iteration tan estimated_profile_depth stock_lengths_list st)
    as [st' [|]]; cbn [fst] in *; [|exact Hacc].
  etransitivity; [exact Hacc | apply IH; exact Hnd'].
Qed.

(** X10 ([generate_nesting], main.py 2775-4301).  When the parts of a
    profile group have pairwise different product ids, the loop loses no
    part and counts none twice: the ids placed in the cutting patterns, the
    ids recorded in [rejected_parts] and the ids left in [remaining_parts]
    are together a rearrangement of the ids of the input. *)
Theorem every_part_accounted_for (parts : list Part) :
  NoDup (part_ids parts) ->
  Permutation (part_ids parts)
    (accounted
       (nest_profile tan estimated_profile_depth stock_lengths_list parts)).
Proof.
  intro Hnd. unfold nest_profile.
  etransitivity; [|apply nesting_loop_accounted; exact Hnd].
  unfold accounted. cbn [cutting_patterns rejected_parts remaining_parts].
  reflexivity.
Qed.

(** ** Every pass places a part *)

Lemma pair_step_idle (best_stock : Q) (t : PairingType) (part1 part2 : Part)
  (bar : Bar) :
  idle_is_empty bar ->
  idle_is_empty
    (fst (pair_step tan estimated_profile_depth stock_lengths_list best_stock
            t part1 part2 bar)).
Proof.
  intro H.
  destruct (pair_step_outcome best_stock t part1 part2 bar)
    as [flow | pps Hpps | shared combined Epl Hfit]; cbn [fst].
  - exact H.
  - exact H.
  - intro E. cbn [parts_to_remove] in E. apply app_eq_nil in E.
    destruct E as [_ E]. discriminate.
Qed.

Lemma pair_inner_idle (best_stock : Q) (part1 : Part)
  (candidates : list Part) : forall bar,
  idle_is_empty bar ->
  idle_is_empty
    (pair_inner tan estimated_profile_depth stock_lengths_list best_stock
       part1 candidates bar).
Proof.
  induction candidates as [|part2 rest IH]; intros bar H; cbn [pair_inner];
    [exact H|].
  destruct (part_in part2 (parts_to_remove bar)); [now apply IH|].
  destruct (find_pairing part1 part2) as [t|]; [|now apply IH].
  pose proof (pair_step_idle best_stock t part1 part2 bar H) as Hstep.
  destruct (pair_step _ _ _ _ _ _ _ _) as [bar' [|]]; cbn [fst] in Hstep;
    [now apply IH | exact Hstep].
Qed.

Lemma pair_outer_idle (best_stock : Q) (valid : list Part) : forall bar,
  idle_is_empty bar ->
  idle_is_empty
    (pair_outer tan estimated_profile_depth stock_lengths_list best_stock
       valid bar).
Proof.
  induction valid as [|part1 rest IH]; intros bar H; cbn [pair_outer];
    [exact H|].
  destruct (Qltb _ _); [exact H|].
  destruct (part_in part1 _); [now apply IH|].
  destruct (negb _); [now apply IH|].
  apply IH. apply pair_inner_idle. exact H.
Qed.

Lemma pair_search_idle (best_stock : Q) (valid : list Part) :
  idle_is_empty
    (pair_search tan estimated_profile_depth stock_lengths_list best_stock
       valid empty_bar).
Proof.
  unfold pair_search.
  destruct (_ <=? _)%nat; [apply pair_outer_idle|]; intros _; reflexivity.
Qed.

Lemma fill_grows (best_stock : Q) (valid rps : list Part) : forall bar pool,
  exists added,
    parts_to_remove (fst (fill best_stock valid rps bar pool))
    = parts_to_remove bar ++ added.
Proof.
  induction rps as [|part rest IH]; intros bar pool; cbn [fill].
  - exists []. now rewrite app_nil_r.
  - destruct (part_in part (parts_to_remove bar)); [apply IH|].
    destruct (negb (part_in part valid)); [apply IH|].
    destruct (Qltb (best_stock + tolerance_mm) (current_length bar)).
    { exists []. now rewrite app_nil_r. }
    destruct (boundary (pattern_parts bar) part) as [flip_it kerf_mm].
    destruct (Qltb (best_stock + tolerance_mm)
                (current_length bar + length part + kerf_mm)) eqn:E1;
      [apply IH|].
    unfold tolerance_mm in E1. rewrite E1.
    destruct (Qle_bool _ _).
    + cbn [fst parts_to_remove]. eexists. reflexivity.
    + match goal with
      | |- context [fill best_stock valid rest ?b ?p] =>
          destruct (IH b p) as (added & E)
      end.
      rewrite E. cbn [parts_to_remove]. rewrite <- app_assoc.
      eexists. reflexivity.
Qed.

Lemma fill_progress (best_stock : Q) (valid rest : list Part) (h : Part)
  (bar : Bar) (pool : list Part) :
  parts_to_remove bar = [] -> pattern_parts bar = [] ->
  current_length bar = 0 ->
  part_in h valid = true -> length h <= best_stock -> 0 <= best_stock ->
  parts_to_remove (fst (fill best_stock valid (h :: rest) bar pool)) <> [].
Proof.
  intros Hptr Hpps Hcur Hvalid Hlen Hbest. cbn [fill].
  rewrite Hptr, Hpps, Hcur. cbn [part_in existsb]. rewrite Hvalid.
  cbn [negb boundary last_placement rev].
  assert (E0 : Qltb (best_stock + tolerance_mm) 0 = false).
  { apply Qltb_false. unfold tolerance_mm. lra. }
  rewrite E0.
  assert (E1 : Qltb (best_stock + tolerance_mm) (0 + length h + 0) = false).
  { apply Qltb_false. unfold tolerance_mm. lra. }
  rewrite E1. unfold tolerance_mm in E1. rewrite E1.
  destruct (Qle_bool _ _).
  - cbn [fst parts_to_remove]. discriminate.
  - match goal with
    | |- context [fill best_stock valid rest ?b ?p] =>
        destruct (fill_grows best_stock valid rest b p) as (added & E)
    end.
    rewrite E. cbn [parts_to_remove]. discriminate.
Qed.

Lemma sort_desc_nonempty (key : Part -> Q) (l : list Part) :
  l <> [] -> sort_desc key l <> [].
Proof.
  intros H E. apply H. unfold sort_desc in E.
  exact (sort_by_nil _ _ E).
Qed.

Lemma order_candidates_nonempty (best_stock : Q) (pps : list Placement)
  (rps : list Part) :
  rps <> [] -> order_candidates best_stock pps rps <> [].
Proof.
  intro Hne.
  assert (Hsort : sort_desc length rps <> [])
    by (apply sort_desc_nonempty; exact Hne).
  assert (Hafter : forall prev, order_after prev rps <> []).
  { intros prev E. unfold order_after in E.
    destruct (partition _ rps) as [can cannot] eqn:E1.
    destruct (partition _ cannot) as [unpaired normal] eqn:E2.
    apply app_eq_nil in E. destruct E as [Ea E].
    apply app_eq_nil in E. destruct E as [Eb Ec].
    unfold sort_desc in Ea, Eb, Ec.
    apply sort_by_nil in Ea, Eb, Ec. subst.
    apply partition_length in E1, E2. cbn [List.length] in E1, E2.
    destruct rps; [now apply Hne | cbn [List.length] in E1; lia]. }
  assert (Hempty : order_for_empty_pattern best_stock rps <> []).
  { unfold order_for_empty_pattern.
    destruct (3 <=? _)%nat.
    - unfold lookahead.
      destruct (fold_left _ _ None) as [[w [|c0 cs]]|]; try exact Hne.
      discriminate.
    - destruct (_ <=? 50)%nat; [|exact Hsort].
      destruct (best_start rps) as [[b|] score]; [|exact Hsort].
      destruct (0 <? score)%Z; [discriminate | exact Hsort]. }
  unfold order_candidates.
  destruct pps as [|pp pps'], rps as [|r rps']; try (now elim Hne);
    try exact Hempty.
  destruct (last_placement _); [apply Hafter | exact Hsort].
Qed.

Lemma select_best_stock_some (remaining : list Part) :
  stock_lengths_list <> [] ->
  Forall (fun p => length p <= list_max stock_lengths_list) remaining ->
  remaining <> [] ->
  exists best, select_best_stock stock_lengths_list remaining = Some best.
Proof.
  intros Hstocks Hfit Hne. unfold select_best_stock.
  destruct (sort_by candidate_lt (candidate_stocks _ _)) as [|c0 cs].
  - pose proof (sort_by_In candidate_lt
                  (candidate_for_largest stock_lengths_list
                     (list_max (map length remaining)))) as Hin.
    destruct (sort_by candidate_lt (candidate_for_largest _ _))
      as [|d0 ds]; [|eexists; reflexivity].
    exfalso.
    set (s := list_max stock_lengths_list).
    set (largest := list_max (map length remaining)) in *.
    apply (Hin (s, s - largest, waste_pct (s - largest) s)).
    apply candidate_for_largest_In. cbn [cand_stock fst].
    split; [apply list_max_in; exact Hstocks|]. split; [|reflexivity].
    assert (Hl : In largest (map length remaining)).
    { apply list_max_in. destruct remaining; [now elim Hne | discriminate]. }
    apply in_map_iff in Hl. destruct Hl as (p & <- & Hp).
    rewrite Forall_forall in Hfit. apply Hfit. exact Hp.
  - destruct (_ <? _)%nat; [destruct (Qle_bool _ _)|]; eexists; reflexivity.
Qed.

Section Progress.

Hypothesis stocks_nonempty : stock_lengths_list <> [].
Hypothesis stocks_nonneg : Forall (fun s => 0 <= s) stock_lengths_list.

Lemma built_bar_progress (best_stock : Q) (remaining : list Part) :
  NoDup (part_ids remaining) ->
  Forall (fun p => length p <= best_stock) remaining ->
  remaining <> [] -> 0 <= best_stock ->
  parts_to_remove (fst (built best_stock remaining)) <> [].
Proof.
  intros Hnd Hfit Hne Hbest. unfold built_bar.
  set (V := sort_desc length
              (filter (fun p => Qle_bool (length p) best_stock) remaining)).
  assert (HVeq : filter (fun p => Qle_bool (length p) best_stock) remaining
                 = remaining).
  { apply filter_all. intros x Hx. apply Qle_bool_iff.
    rewrite Forall_forall in Hfit. apply Hfit. exact Hx. }
  assert (HV : incl V remaining).
  { intros x Hx. unfold V in Hx. apply sort_desc_In in Hx.
    apply filter_In in Hx. tauto. }
  assert (HVne : V <> []).
  { unfold V. apply sort_desc_nonempty. rewrite HVeq. exact Hne. }
  assert (HVnd : NoDup (part_ids V)).
  { unfold V, part_ids, sort_desc.
    eapply Permutation_NoDup;
      [apply Permutation_map, Permutation_sym,
         PlateNestingFacts.sort_by_perm|].
    apply (NoDup_ids_filter tan estimated_profile_depth). exact Hnd. }
  set (paired := pair_search tan estimated_profile_depth stock_lengths_list
                   best_stock V empty_bar).
  pose proof (pair_search_ok best_stock remaining Hfit V HV HVnd) as Hok.
  pose proof (pair_search_idle best_stock V) as Hidle.
  fold paired in Hok, Hidle.
  destruct (parts_to_remove paired) as [|u0 us] eqn:Eptr.
  - assert (Hpps : pattern_parts paired = []).
    { pose proof (ok_ids _ _ _ Hok) as Hids. rewrite Eptr in Hids.
      unfold placement_ids in Hids. cbn [part_ids map] in Hids.
      apply map_eq_nil in Hids. exact Hids. }
    assert (HfV : filter (fun p => negb (part_in p [])) V = V).
    { apply filter_all. reflexivity. }
    rewrite Hpps, HfV.
    pose proof (order_candidates_nonempty best_stock [] V HVne) as Hrps.
    pose proof (order_candidates_incl best_stock [] V) as Hinc.
    destruct (order_candidates best_stock [] V) as [|h rest];
      [now elim Hrps|].
    assert (Hh : In h V) by (apply Hinc; left; reflexivity).
    apply fill_progress; try assumption.
    + apply Hidle. exact Eptr.
    + apply part_in_ids. unfold part_ids. apply in_map. exact Hh.
    + rewrite Forall_forall in Hfit. apply Hfit, HV, Hh.
  - match goal with
    | |- parts_to_remove (fst (fill ?b ?v ?r ?bar ?pool)) <> [] =>
        destruct (fill_grows b v r bar pool) as (added & E)
    end.
    rewrite E, Eptr. discriminate.
Qed.

Lemma match_nonempty {A B : Type} (l : list A) (a b : B) :
  l <> [] -> match l with [] => a | _ :: _ => b end = b.
Proof. destruct l; [intro H; now elim H | reflexivity]. Qed.

Lemma nest_one_bar_progress (remaining : list Part)
  (patterns : list CuttingPattern) (rejected : list Rejected) :
  NoDup (part_ids remaining) ->
  Forall (fun p => length p <= list_max stock_lengths_list) remaining ->
  remaining <> [] ->
  snd (one_bar remaining patterns rejected) = Continue
  /\ (List.length
        (remaining_parts (fst (one_bar remaining patterns rejected)))
      < List.length remaining)%nat.
Proof.
  intros Hnd Hmax Hne. unfold nest_one_bar.
  rewrite match_nonempty by exact Hne.
  destruct (select_best_stock_some remaining stocks_nonempty Hmax Hne)
    as (best & Es).
  rewrite Es.
  pose proof (select_best_stock_fits remaining best Es) as Hfit.
  assert (Hbest : 0 <= best).
  { rewrite Forall_forall in stocks_nonneg. apply stocks_nonneg.
    exact (select_best_stock_In tan estimated_profile_depth
             stock_lengths_list remaining best Es). }
  assert (HVeq : filter (fun p => Qle_bool (length p) best) remaining
                 = remaining).
  { apply filter_all. intros x Hx. apply Qle_bool_iff.
    rewrite Forall_forall in Hfit. apply Hfit. exact Hx. }
  rewrite HVeq. rewrite match_nonempty by exact Hne.
  pose proof (built_bar_progress best remaining Hnd Hfit Hne Hbest) as Hprog.
  destruct (built_bar_ok best remaining Hnd Hfit) as (Hok & Hpool & Hpfit).
  destruct (built best remaining) as [bar pool]. cbn [fst snd] in *.
  assert (Hpnd : NoDup (part_ids pool)) by (rewrite Hpool; exact Hnd).
  pose proof (remove_all_perm (parts_to_remove bar) pool Hpnd
                (ok_nodup _ _ _ Hok)) as Hperm.
  rewrite Hpool in Hperm. specialize (Hperm (ok_valid _ _ _ Hok)).
  pose proof (remove_all_nodup (parts_to_remove bar) pool Hpnd) as Hrnd.
  pose proof (remove_all_fresh (parts_to_remove bar) pool Hpnd) as Hfresh.
  destruct (parts_to_remove bar) as [|u0 us] eqn:Eu; [now elim Hprog|].
  rewrite <- Eu in *. cbn [fst snd]. split; [reflexivity|].
  destruct (validate_accounted best remaining bar
              (remove_all (parts_to_remove bar) pool) patterns rejected
              Hok Hrnd Hfresh) as [Hrem _].
  rewrite Hrem. apply Permutation_length in Hperm.
  unfold part_ids in Hperm. rewrite length_app, !length_map in Hperm.
  assert (Hpos : (0 < List.length (parts_to_remove bar))%nat)
    by (rewrite Eu; cbn [List.length]; lia).
  lia.
Qed.

Lemma reject_oversized_length (remaining : list Part)
  (rejected : list Rejected) :
  NoDup (part_ids remaining) ->
  (List.length
     (fst (reject_oversized stock_lengths_list remaining rejected))
   <= List.length remaining)%nat.
Proof.
  intro Hnd.
  rewrite (reject_oversized_remaining tan estimated_profile_depth
             stock_lengths_list remaining rejected Hnd).
  apply filter_length_le.
Qed.

Lemma nesting_loop_completes (fuel : nat) : forall st,
  NoDup (part_ids (remaining_parts st)) ->
  (List.length (remaining_parts st) <= fuel)%nat ->
  remaining_parts
    (nesting_loop tan estimated_profile_depth stock_lengths_list fuel st)
  = [].
Proof.
  induction fuel as [|fuel IH]; intros st Hnd Hlen; cbn [nesting_loop].
  - destruct (remaining_parts st); [reflexivity | cbn in Hlen; lia].
  - destruct (remaining_parts st) as [|r0 rs] eqn:Er; [exact Er|].
    rewrite <- Er in *.
    destruct (iteration_accounted st Hnd) as [_ Hnd'].
    rewrite iteration_unfold in *.
    destruct (reject_oversized_accounted (remaining_parts st)
                (rejected_parts st) Hnd) as (_ & Hnd1 & Hmax).
    pose proof (reject_oversized_length (remaining_parts st)
                  (rejected_parts st) Hnd) as Hlen1.
    destruct (fst (reject_oversized stock_lengths_list (remaining_parts st)
                     (rejected_parts st))) as [|q0 qs] eqn:E1.
    + reflexivity.
    + rewrite <- E1 in *.
      assert (Hne : fst (reject_oversized stock_lengths_list
                           (remaining_parts st) (rejected_parts st)) <> [])
        by (rewrite E1; discriminate).
      destruct (nest_one_bar_progress _ (cutting_patterns st)
                  (snd (reject_oversized stock_lengths_list
                          (remaining_parts st) (rejected_parts st)))
                  Hnd1 Hmax Hne) as [Hflow Hless].
      destruct (one_bar _ _ _) as [st' flow]. cbn [fst snd] in *.
      subst flow. apply IH; [exact Hnd' | lia].
Qed.

End Progress.

(** X11 ([generate_nesting], main.py 2775-4301).  With at least one
    stock length, none of them negative, pairwise different product ids
    and at most 500 parts, the loop ends with [remaining_parts] empty:
    every part is either placed in exactly one cutting pattern or recorded
    once in [rejected_parts].  The iteration bound
    [min(len(parts) * 3, 500)] is never what stops the loop. *)
Theorem every_part_nested_or_rejected (pool : list Part) :
  stock_lengths_list <> [] ->
  Forall (fun s => 0 <= s) stock_lengths_list ->
  NoDup (part_ids pool) ->
  (List.length pool <= 500)%nat ->
  remaining_parts
    (nest_profile tan estimated_profile_depth stock_lengths_list pool) = []
  /\ Permutation (part_ids pool)
       (flat_map (fun pat => placement_ids (parts pat))
          (cutting_patterns
             (nest_profile tan estimated_profile_depth stock_lengths_list
                pool))
        ++ map rj_product_id
             (rejected_parts
                (nest_profile tan estimated_profile_depth stock_lengths_list
                   pool))).
Proof.
  intros Hne Hnn Hnd Hlen.
  set (st :=
         nest_profile tan estimated_profile_depth stock_lengths_list pool).
  assert (Hrem : remaining_parts st = []).
  { unfold st, nest_profile.
    apply nesting_loop_completes; cbn [remaining_parts]; try assumption.
    unfold max_iterations. lia. }
  split; [exact Hrem|].
  pose proof (nesting_loop_accounted (max_iterations pool)
                (mkLoop pool [] []) Hnd) as Hacc.
  fold (nest_profile tan estimated_profile_depth stock_lengths_list pool)
    in Hacc.
  fold st in Hacc. unfold accounted in Hacc.
  cbn [cutting_patterns rejected_parts remaining_parts flat_map map app]
    in Hacc.
  rewrite Hrem in Hacc. cbn [part_ids map] in Hacc.
  rewrite app_nil_r in Hacc. exact Hacc.
Qed.

(** ** Where the placements lie *)

Lemma pair_lengths_bounds (length1 length2 : Q) (angle : option Q)
  (shared combined : Q) :
  0 <= length1 -> 0 <= length2 ->
  pair_lengths tan estimated_profile_depth length1 length2 angle
  = (shared, combined) ->
  combined == length1 + length2 - shared
  /\ shared <= length1 /\ shared <= length2.
Proof.
  intros H1 H2. unfold pair_lengths.
  pose proof (pymin_value length1 length2) as [Hm1 Hm2].
  assert (Hm0 : 0 <= pymin length1 length2).
  { destruct (pymin_spec length1 length2) as [[-> _]|[-> _]]; assumption. }
  destruct angle as [a|]; [|intros [= <- <-]; split; [|split]; lra].
  destruct (Qltb 1 (Qabs a)); [|intros [= <- <-]; split; [|split]; lra].
  set (angle_rad := Qabs a * (math_pi / 180)).
  set (s := estimated_profile_depth * tan angle_rad).
  assert (Hsh : forall sh,
            sh = (if Qltb 0.01 angle_rad
                  then if Qltb (pymin length1 length2 * 0.9) s
                       then pymin length1 length2 * 0.9 else s
                  else 0) ->
            sh <= length1 /\ sh <= length2).
  { intros sh ->. destruct (Qltb 0.01 angle_rad); [|split; lra].
    destruct (Qltb (pymin length1 length2 * 0.9) s) eqn:E; qprop; split; lra. }
  destruct (Hsh _ eq_refl) as [Hs1 Hs2]. clear Hsh.
  destruct (Qltb (length1 + length2 - _) 0);
    [destruct (Qltb (pymin length1 length2 * 0.5) _)|];
    intros [= <- <-]; split; try reflexivity; split; lra.
Qed.

Lemma boundary_kerf (pps : list Placement) (part : Part) :
  0 <= snd (boundary pps part).
Proof.
  unfold boundary. destruct (last_placement pps); cbn [snd]; [|lra].
  destruct (can_share _ _ _ _); cbn [snd]; [lra|].
  destruct (can_share _ _ _ _); cbn [snd]; unfold kerf_allowance; lra.
Qed.

Lemma ForallOrdPairs_filter {A : Type} (R : A -> A -> Prop) (f : A -> bool)
  (l : list A) :
  ForallOrdPairs R l -> ForallOrdPairs R (filter f l).
Proof.
  induction 1 as [|a l Ha Hl IH]; cbn [filter]; [constructor|].
  destruct (f a); [|exact IH].
  constructor; [|exact IH]. apply Forall_filter. exact Ha.
Qed.

Lemma drop_pair_last (part1 part2 : Part) (pps : list Placement)
  (pl1 pl2 : Placement) :
  pp_part pl1 = part1 -> pp_part pl2 = part2 ->
  drop_pair part1 part2 (pps ++ [pl1; pl2]) = drop_pair part1 part2 pps.
Proof.
  intros E1 E2. unfold drop_pair. rewrite filter_app.
  cbn [filter]. rewrite E1, E2. cbn [part_in existsb].
  rewrite !part_eqb_refl. cbn [orb negb]. rewrite orb_true_r. cbn [negb].
  apply app_nil_r.
Qed.

Lemma pair_step_geom (best_stock : Q) (t : PairingType) (part1 part2 : Part)
  (bar : Bar) :
  bar_geom bar -> 0 <= length part1 -> 0 <= length part2 ->
  bar_geom
    (fst (pair_step tan estimated_profile_depth stock_lengths_list best_stock
            t part1 part2 bar)).
Proof.
  intros [Hcut Hnn Hlen Hin Hap] H1 H2.
  destruct (pair_step_outcome best_stock t part1 part2 bar)
    as [flow | pps Hpps | shared combined Epl Hfit]; cbn [fst].
  - constructor; assumption.
  - rewrite drop_pair_last in Hpps by reflexivity. subst pps.
    constructor; cbn [cut_position current_length pattern_parts].
    + reflexivity.
    + exact Hnn.
    + apply Forall_filter. exact Hlen.
    + apply Forall_filter. exact Hin.
    + apply ForallOrdPairs_filter. exact Hap.
  - destruct (pair_lengths_bounds _ _ _ _ _ H1 H2 Epl) as (Hc & Hs1 & Hs2).
    constructor; cbn [cut_position current_length pattern_parts].
    + rewrite Hc, Hcut. ring.
    + rewrite Hc. lra.
    + apply Forall_app; split; [exact Hlen|].
      constructor; [|constructor; [|constructor]]; cbn [pp_length];
        assumption.
    + apply Forall_app; split.
      * eapply Forall_impl; [|exact Hin]. cbv beta.
        intros pp [Ha Hb]. split; [exact Ha|]. rewrite Hc. lra.
      * constructor; [|constructor; [|constructor]];
          unfold placement_end; cbn [pp_cut_position pp_length];
          rewrite Hc; split; lra.
    + change (pattern_parts bar ++ [?a; ?b])
        with (pattern_parts bar ++ [a] ++ [b]).
      rewrite app_assoc.
      apply PlateNestingFacts.ForallOrdPairs_snoc;
        [apply PlateNestingFacts.ForallOrdPairs_snoc; [exact Hap|]|].
      * eapply Forall_impl; [|exact Hin]. cbv beta.
        intros pp [Ha Hb]. left. cbn [pp_cut_position]. lra.
      * apply Forall_app; split.
        -- eapply Forall_impl; [|exact Hin]. cbv beta.
           intros pp [Ha Hb]. left. cbn [pp_cut_position]. lra.
        -- constructor; [|constructor]. right. split; reflexivity.
Qed.

Lemma pair_inner_geom (best_stock : Q) (part1 : Part)
  (candidates : list Part) : forall bar,
  bar_geom bar -> 0 <= length part1 ->
  Forall (fun p => 0 <= length p) candidates ->
  bar_geom
    (pair_inner tan estimated_profile_depth stock_lengths_list best_stock
       part1 candidates bar).
Proof.
  induction candidates as [|part2 rest IH]; intros bar Hg H1 Hc;
    cbn [pair_inner]; [exact Hg|].
  inversion Hc as [|x l H2 Hrest]; subst.
  destruct (part_in part2 (parts_to_remove bar)); [now apply IH|].
  destruct (find_pairing part1 part2) as [t|]; [|now apply IH].
  pose proof (pair_step_geom best_stock t part1 part2 bar Hg H1 H2) as Hstep.
  destruct (pair_step _ _ _ _ _ _ _ _) as [bar' [|]]; cbn [fst] in Hstep;
    [now apply IH | exact Hstep].
Qed.

Lemma pair_outer_geom (best_stock : Q) (valid : list Part) : forall bar,
  bar_geom bar -> Forall (fun p => 0 <= length p) valid ->
  bar_geom
    (pair_outer tan estimated_profile_depth stock_lengths_list best_stock
       valid bar).
Proof.
  induction valid as [|part1 rest IH]; intros bar Hg Hv; cbn [pair_outer];
    [exact Hg|].
  inversion Hv as [|x l H1 Hrest]; subst.
  destruct (Qltb _ _); [exact Hg|].
  destruct (part_in part1 _); [now apply IH|].
  destruct (negb _); [now apply IH|].
  apply IH; [|exact Hrest]. apply pair_inner_geom; assumption.
Qed.

Lemma empty_bar_geom : bar_geom empty_bar.
Proof.
  constructor; cbn; try reflexivity; try lra; constructor.
Qed.

Lemma pair_search_geom (best_stock : Q) (valid : list Part) :
  Forall (fun p => 0 <= length p) valid ->
  bar_geom
    (pair_search tan estimated_profile_depth stock_lengths_list best_stock
       valid empty_bar).
Proof.
  intro Hv. unfold pair_search.
  destruct (_ <=? _)%nat; [|apply empty_bar_geom].
  apply pair_outer_geom; [apply empty_bar_geom | exact Hv].
Qed.

Lemma fill_geom (best_stock : Q) (valid rps : list Part) : forall bar pool,
  bar_geom bar -> Forall (fun p => 0 <= length p) rps ->
  bar_geom (fst (fill best_stock valid rps bar pool)).
Proof.
  induction rps as [|part rest IH]; intros bar pool Hg Hr; cbn [fill];
    [exact Hg|].
  inversion Hr as [|x l Hpart Hrest]; subst.
  destruct (part_in part (parts_to_remove bar)); [now apply IH|].
  destruct (negb (part_in part valid)); [now apply IH|].
  destruct (Qltb (best_stock + tolerance_mm) (current_length bar));
    [exact Hg|].
  pose proof (boundary_kerf (pattern_parts bar) part) as Hkerf.
  destruct (boundary (pattern_parts bar) part) as [flip_it kerf_mm].
  cbn [snd] in Hkerf.
  set (placed_part := if flip_it then flip part else part).
  destruct (Qltb (best_stock + tolerance_mm)
              (current_length bar + length part + kerf_mm)) eqn:E1;
    [now apply IH|].
  unfold tolerance_mm in E1. rewrite E1.
  assert (Hg' : bar_geom
            (mkBar
               (pattern_parts bar
                ++ [mkPlacement placed_part (cut_position bar) (length part)
                      (part_slope_info placed_part) false])
               (current_length bar + length part + kerf_mm)
               (total_parts_length bar + length part)
               (cut_position bar + (length part + kerf_mm))
               (parts_to_remove bar ++ [placed_part]))).
  { destruct Hg as [Hcut Hnn Hlen Hin Hap].
    constructor; cbn [cut_position current_length pattern_parts].
    - rewrite Hcut. ring.
    - lra.
    - apply Forall_app; split; [exact Hlen|].
      constructor; [exact Hpart | constructor].
    - apply Forall_app; split.
      + eapply Forall_impl; [|exact Hin]. cbv beta.
        intros pp [Ha Hb]. split; [exact Ha | lra].
      + constructor; [|constructor]. unfold placement_end.
        cbn [pp_cut_position pp_length]. split; lra.
    - apply PlateNestingFacts.ForallOrdPairs_snoc; [exact Hap|].
      eapply Forall_impl; [|exact Hin]. cbv beta.
      intros pp [Ha Hb]. left. cbn [pp_cut_position]. lra. }
  destruct (Qle_bool _ _); [exact Hg'|].
  apply IH; assumption.
Qed.

Lemma fill_pool_nonneg (best_stock : Q) (valid rps : list Part) :
  forall bar pool,
    Forall (fun p => 0 <= length p) rps ->
    Forall (fun p => 0 <= length p) pool ->
    Forall (fun p => 0 <= length p)
      (snd (fill best_stock valid rps bar pool)).
Proof.
  induction rps as [|part rest IH]; intros bar pool Hr Hpool;
    cbn [fill]; [exact Hpool|].
  inversion Hr as [|x l Hpart Hrest]; subst.
  destruct (part_in part (parts_to_remove bar)); [now apply IH|].
  destruct (negb (part_in part valid)); [now apply IH|].
  destruct (Qltb (best_stock + tolerance_mm) (current_length bar));
    [exact Hpool|].
  destruct (boundary (pattern_parts bar) part) as [flip_it kerf_mm].
  assert (Hpool' : Forall (fun p => 0 <= length p)
                     (if flip_it
                      then update_pool (if flip_it then flip part else part)
                             pool
                      else pool)).
  { destruct flip_it; [|exact Hpool]. unfold update_pool.
    apply Forall_forall. intros x Hx. apply in_map_iff in Hx.
    destruct Hx as (q & E & Hq). destruct (part_eqb q (flip part)).
    - subst x. exact Hpart.
    - subst x. rewrite Forall_forall in Hpool. apply Hpool. exact Hq. }
  destruct (Qltb (best_stock + tolerance_mm) _); [now apply IH|].
  destruct (Qltb (best_stock + 0.1) _); [exact Hpool'|].
  destruct (Qle_bool _ _); [exact Hpool'|].
  now apply IH.
Qed.

Lemma Forall_incl {A : Type} (P : A -> Prop) (l l' : list A) :
  incl l l' -> Forall P l' -> Forall P l.
Proof.
  intros Hinc H. rewrite Forall_forall in *. intros x Hx. apply H, Hinc, Hx.
Qed.

Lemma built_bar_geom (best_stock : Q) (remaining : list Part) :
  Forall (fun p => 0 <= length p) remaining ->
  bar_geom (fst (built best_stock remaining))
  /\ Forall (fun p => 0 <= length p) (snd (built best_stock remaining)).
Proof.
  intro Hnn. unfold built_bar.
  set (V := sort_desc length
              (filter (fun p => Qle_bool (length p) best_stock) remaining)).
  assert (HV : Forall (fun p => 0 <= length p) V).
  { apply (Forall_incl _ V remaining); [|exact Hnn].
    intros x Hx. unfold V in Hx. apply sort_desc_In in Hx.
    apply filter_In in Hx. tauto. }
  set (paired := pair_search tan estimated_profile_depth stock_lengths_list
                   best_stock V empty_bar).
  assert (Hrps : Forall (fun p => 0 <= length p)
                   (order_candidates best_stock (pattern_parts paired)
                      (filter
                         (fun p => negb (part_in p (parts_to_remove paired)))
                         V))).
  { eapply Forall_incl; [|exact HV].
    eapply incl_tran; [apply order_candidates_incl|].
    apply filter_incl', incl_refl. }
  split.
  - apply fill_geom; [apply pair_search_geom; exact HV | exact Hrps].
  - apply fill_pool_nonneg; assumption.
Qed.

Lemma remove_all_incl (ps : list Part) : forall l, incl (remove_all ps l) l.
Proof.
  unfold remove_all. induction ps as [|p ps IH]; intro l; cbn [fold_left];
    [apply incl_refl|].
  eapply incl_tran; [apply IH|].
  destruct (part_in p l); [apply remove_first_incl | apply incl_refl].
Qed.

Lemma validate_geom (best_stock : Q) (bar : Bar) (remaining : list Part)
  (patterns : list CuttingPattern) (rejected : list Rejected) :
  bar_geom bar -> Forall pattern_geom patterns ->
  Forall pattern_geom
    (cutting_patterns (validate best_stock bar remaining patterns rejected))
  /\ incl
       (remaining_parts (validate best_stock bar remaining patterns rejected))
       remaining.
Proof.
  intros [Hcut Hnn Hlen Hin Hap] Hpats. unfold validate.
  destruct (pattern_parts bar) as [|pp pps] eqn:Epps.
  { split; [exact Hpats | apply incl_refl]. }
  rewrite <- Epps in *.
  destruct (Qltb (best_stock + 0.1) (current_length bar)).
  { split; [exact Hpats | apply remove_all_incl]. }
  destruct (negb _ && _)%bool.
  { split; [exact Hpats | apply remove_all_incl]. }
  destruct (Qltb (_ + _ + 10) _).
  { split; [exact Hpats | apply remove_all_incl]. }
  destruct (filter _ (pattern_parts bar)) eqn:Einv.
  - split; [|apply incl_refl]. cbn [cutting_patterns].
    apply Forall_app; split; [exact Hpats|].
    constructor; [|constructor].
    constructor;
      cbn [consumed_length parts stock_length waste waste_percentage];
      try assumption; try reflexivity.
    + rewrite Epps. discriminate.
    + apply filter_nil_Forall in Einv.
      rewrite Forall_forall in *. intros x Hx. split; [now apply Hlen|].
      specialize (Einv x Hx). apply Qltb_false. exact Einv.
  - split; [exact Hpats | apply remove_all_incl].
Qed.

Lemma nest_one_bar_geom (remaining : list Part)
  (patterns : list CuttingPattern) (rejected : list Rejected) :
  Forall (fun p => 0 <= length p) remaining ->
  Forall pattern_geom patterns ->
  Forall pattern_geom
    (cutting_patterns (fst (one_bar remaining patterns rejected)))
  /\ Forall (fun p => 0 <= length p)
       (remaining_parts (fst (one_bar remaining patterns rejected))).
Proof.
  intros Hnn Hpats. unfold nest_one_bar.
  destruct remaining as [|r0 rs] eqn:Er; [split; assumption|].
  rewrite <- Er in *. clear Er r0 rs.
  destruct (select_best_stock stock_lengths_list remaining) as [best|];
    [|split; assumption].
  destruct (filter _ remaining) as [|f0 fs]; [split; assumption|].
  destruct (built_bar_geom best remaining Hnn) as [Hg Hpool].
  destruct (built best remaining) as [bar pool]. cbn [fst snd] in *.
  assert (Hrem : Forall (fun p => 0 <= length p)
                   (remove_all (parts_to_remove bar) pool)).
  { eapply Forall_incl; [apply remove_all_incl | exact Hpool]. }
  destruct (parts_to_remove bar) as [|u0 us] eqn:Eu.
  - destruct (remove_all [] pool) as [|first others] eqn:Erem;
      [split; assumption|].
    destruct (Qltb best (length first)); [|split; assumption].
    cbn [fst].
    destruct (validate_geom best bar others patterns rejected Hg Hpats)
      as [H1 H2].
    split; [exact H1|]. eapply Forall_incl; [exact H2|].
    inversion Hrem; assumption.
  - cbn [fst].
    destruct (validate_geom best bar (remove_all (u0 :: us) pool) patterns
                rejected Hg Hpats) as [H1 H2].
    split; [exact H1|]. eapply Forall_incl; [exact H2 | exact Hrem].
Qed.

Lemma reject_oversized_sub (remaining : list Part)
  (rejected : list Rejected) :
  incl (fst (reject_oversized stock_lengths_list remaining rejected))
    remaining.
Proof.
  unfold reject_oversized. destruct (Qltb _ _); cbn [fst];
    [apply remove_all_incl | apply incl_refl].
Qed.

Lemma nesting_loop_geom (fuel : nat) : forall st,
  Forall (fun p => 0 <= length p) (remaining_parts st) ->
  Forall pattern_geom (cutting_patterns st) ->
  Forall pattern_geom
    (cutting_patterns
       (nesting_loop tan estimated_profile_depth stock_lengths_list fuel st)).
Proof.
  induction fuel as [|fuel IH]; intros st Hnn Hpats; cbn [nesting_loop];
    [exact Hpats|].
  destruct (remaining_parts st) as [|r0 rs] eqn:Er; [exact Hpats|].
  rewrite <- Er in *.
  rewrite iteration_unfold.
  destruct (nest_one_bar_geom
              (fst (reject_oversized stock_lengths_list (remaining_parts st)
                      (rejected_parts st)))
              (cutting_patterns st)
              (snd (reject_oversized stock_lengths_list (remaining_parts st)
                      (rejected_parts st)))) as [H1 H2];
    [eapply Forall_incl; [apply reject_oversized_sub | exact Hnn]
    | exact Hpats |].
  destruct (one_bar _ _ _) as [st' [|]]; cbn [fst] in *;
    [apply IH; assumption | exact H1].
Qed.

Lemma nest_profile_geom (pool : list Part) :
  Forall (fun p => 0 <= length p) pool ->
  Forall pattern_geom
    (cutting_patterns
       (nest_profile tan estimated_profile_depth stock_lengths_list pool)).
Proof.
  intro Hnn. unfold nest_profile. apply nesting_loop_geom; [exact Hnn|].
  constructor.
Qed.

Lemma waste_pct_range (w s : Q) :
  0 <= w -> w <= s -> 0 <= waste_pct w s <= 100.
Proof.
  intros Hw Hs. unfold waste_pct.
  destruct (Qltb 0 s) eqn:E; qprop; [|split; lra].
  assert (H0 : 0 <= w / s).
  { apply Qle_shift_div_l; [exact E | lra]. }
  assert (H1 : w / s <= 1).
  { apply Qle_shift_div_r; [exact E | lra]. }
  split; lra.
Qed.

(** X12 ([generate_nesting], main.py 3462-3520, 4020-4061 and
    4063-4301).  For parts of non-negative length, every emitted pattern
    holds at least one piece; each piece starts at a non-negative
    [cut_position], has a non-negative length and ends within the stock
    length plus the 0.1 mm tolerance; and of two pieces of a pattern the
    earlier one ends where the later one starts or before it, unless both
    are halves of complementary pairs. *)
Theorem pieces_lie_on_the_bar (pool : list Part) :
  Forall (fun p => 0 <= length p) pool ->
  Forall
    (fun pat =>
       parts pat <> []
       /\ Forall
            (fun pp =>
               0 <= pp_cut_position pp
               /\ 0 <= pp_length pp
               /\ placement_end pp <= stock_length pat + 0.1)
            (parts pat)
       /\ ForallOrdPairs apart (parts pat))
    (cutting_patterns
       (nest_profile tan estimated_profile_depth stock_lengths_list pool)).
Proof.
  intro Hnn.
  pose proof (nest_profile_geom pool Hnn) as Hgeom.
  pose proof (nest_profile_sound tan estimated_profile_depth
                stock_lengths_list pool) as Hsound.
  rewrite Forall_forall in *. intros pat Hpat.
  destruct (Hgeom pat Hpat) as [_ Hne Hlen Hin Hap _ _].
  destruct (Hsound pat Hpat) as (_ & Hcons & _).
  unfold tolerance_mm in Hcons.
  split; [exact Hne|]. split; [|exact Hap].
  rewrite Forall_forall in *. intros pp Hpp.
  destruct (Hin pp Hpp) as [H0 H1]. destruct (Hlen pp Hpp) as [H2 _].
  split; [exact H0|]. split; [exact H2 | lra].
Qed.

(** X13 ([generate_nesting], main.py 4263-4294).  For parts of
    non-negative length, the waste of every emitted pattern lies between 0
    and the stock length, and its [waste_percentage] between 0 and 100. *)
Theorem waste_within_the_stock (pool : list Part) :
  Forall (fun p => 0 <= length p) pool ->
  Forall
    (fun pat =>
       0 <= waste pat <= stock_length pat
       /\ 0 <= waste_percentage pat <= 100)
    (cutting_patterns
       (nest_profile tan estimated_profile_depth stock_lengths_list pool)).
Proof.
  intro Hnn.
  pose proof (nest_profile_geom pool Hnn) as Hgeom.
  rewrite Forall_forall in *. intros pat Hpat.
  destruct (Hgeom pat Hpat) as [Hc Hne Hlen _ _ Hw Hp].
  assert (Hs : 0 <= stock_length pat).
  { destruct (parts pat) as [|pp pps]; [now contradiction Hne|].
    inversion Hlen as [|x l [Ha Hb] _]; subst. lra. }
  assert (Hwaste : 0 <= waste pat <= stock_length pat).
  { rewrite Hw.
    destruct (pymin_spec (consumed_length pat) (stock_length pat))
      as [[-> H]|[-> H]]; split; lra. }
  split; [exact Hwaste|]. rewrite Hp.
  apply waste_pct_range; tauto.
Qed.

End Loop.

(** ** Closed instances *)

Lemma sample_pool_ids : NoDup (part_ids sample_pool).
Proof.
  cbn. repeat constructor; cbn; intuition discriminate.
Qed.

Lemma sample_pool_nonneg : Forall (fun p => 0 <= length p) sample_pool.
Proof.
  unfold sample_pool. repeat constructor; cbn; lra.
Qed.

Lemma sample_stocks_nonneg : Forall (fun s => 0 <= s) sample_stock_lengths.
Proof.
  unfold sample_stock_lengths. repeat constructor. lra.
Qed.

Lemma every_part_accounted_for_witness :
  NoDup (part_ids sample_pool)
  /\ Permutation (part_ids sample_pool)
       (accounted
          (nest_profile tan_unused 200 sample_stock_lengths sample_pool)).
Proof.
  split; [exact sample_pool_ids|].
  exact (every_part_accounted_for tan_unused 200 sample_stock_lengths
           sample_pool sample_pool_ids).
Defined.

Lemma every_part_nested_or_rejected_witness :
  NoDup (part_ids sample_pool)
  /\ Forall (fun s => 0 <= s) sample_stock_lengths
  /\ (List.length sample_pool <= 500)%nat
  /\ remaining_parts
       (nest_profile tan_unused 200 sample_stock_lengths sample_pool) = []
  /\ Permutation (part_ids sample_pool)
       (flat_map (fun pat => placement_ids (parts pat))
          (cutting_patterns
             (nest_profile tan_unused 200 sample_stock_lengths sample_pool))
        ++ map rj_product_id
             (rejected_parts
                (nest_profile tan_unused 200 sample_stock_lengths
                   sample_pool))).
Proof.
  split; [exact sample_pool_ids|].
  split; [exact sample_stocks_nonneg|].
  split; [cbn; lia|].
  apply (every_part_nested_or_rejected tan_unused 200 sample_stock_lengths
           sample_pool).
  - discriminate.
  - exact sample_stocks_nonneg.
  - exact sample_pool_ids.
  - cbn. lia.
Defined.

Lemma pieces_lie_on_the_bar_witness :
  Forall (fun p => 0 <= length p) sample_pool
  /\ Forall
       (fun pat =>
          parts pat <> []
          /\ Forall
               (fun pp =>
                  0 <= pp_cut_position pp
                  /\ 0 <= pp_length pp
                  /\ placement_end pp <= stock_length pat + 0.1)
               (parts pat)
          /\ ForallOrdPairs apart (parts pat))
       (cutting_patterns
          (nest_profile tan_unused 200 sample_stock_lengths sample_pool)).
Proof.
  split; [exact sample_pool_nonneg|].
  exact (pieces_lie_on_the_bar tan_unused 200 sample_stock_lengths
           sample_pool sample_pool_nonneg).
Defined.

Lemma waste_within_the_stock_witness :
  Forall (fun p => 0 <= length p) sample_pool
  /\ Forall
       (fun pat =>
          0 <= waste pat <= stock_length pat
          /\ 0 <= waste_percentage pat <= 100)
       (cutting_patterns
          (nest_profile tan_unused 200 sample_stock_lengths sample_pool)).
Proof.
  split; [exact sample_pool_nonneg|].
  exact (waste_within_the_stock tan_unused 200 sample_stock_lengths
           sample_pool sample_pool_nonneg).
Defined.

End BarLoopFacts.

Module ReportFacts.

Import Nesting.
Import BarLoop.
Import Report.
Import NestingFacts.

Local Open Scope Q_scope.

(** ** Sums *)

Lemma qsum_acc (xs : list Q) : forall a, fold_left Qplus xs a == a + qsum xs.
Proof.
  unfold qsum. induction xs as [|x xs IH]; intro a; cbn [fold_left].
  - ring.
  - rewrite IH, (IH (0 + x)). ring.
Qed.

Lemma qsum_cons (x : Q) (xs : list Q) : qsum (x :: xs) == x + qsum xs.
Proof.
  unfold qsum at 1. cbn [fold_left]. rewrite qsum_acc. ring.
Qed.

Lemma qsum_app (xs ys : list Q) : qsum (xs ++ ys) == qsum xs + qsum ys.
Proof.
  induction xs as [|x xs IH]; cbn [app].
  - unfold qsum at 2. cbn [fold_left]. ring.
  - rewrite !qsum_cons, IH. ring.
Qed.

Lemma zsum_shift (xs : list Z) : forall a,
  fold_left Z.add xs a = (a + zsum xs)%Z.
Proof.
  unfold zsum. induction xs as [|x xs IH]; intro a; cbn [fold_left].
  - lia.
  - rewrite IH, (IH (0 + x)%Z). lia.
Qed.

Lemma zsum_cons (x : Z) (xs : list Z) : zsum (x :: xs) = (x + zsum xs)%Z.
Proof.
  unfold zsum at 1. cbn [fold_left]. rewrite zsum_shift. lia.
Qed.

Lemma zsum_app (xs ys : list Z) : zsum (xs ++ ys) = (zsum xs + zsum ys)%Z.
Proof.
  induction xs as [|x xs IH]; cbn [app]; [reflexivity|].
  rewrite !zsum_cons, IH. lia.
Qed.

Lemma qsum_between (ws ss : list (Q * Q)) :
  Forall (fun e => 0 <= fst e <= snd e) ws ->
  0 <= qsum (map fst ws) <= qsum (map snd ws).
Proof.
  induction 1 as [|e l He Hl IH]; cbn [map].
  - unfold qsum. cbn. split; lra.
  - rewrite !qsum_cons. split; lra.
Qed.

(** ** The usage dictionary *)

Lemma count_bar_total (best_stock : Q) (used : StockUsage) :
  usage_total (count_bar best_stock used) == usage_total used + best_stock.
Proof.
  unfold usage_total.
  induction used as [|[k n] rest IH]; cbn [count_bar map fst snd].
  - rewrite qsum_cons. unfold qsum. cbn [fold_left]. ring.
  - destruct (Qeq_bool k best_stock) eqn:E; cbn [map fst snd];
      rewrite !qsum_cons.
    + apply Qeq_bool_iff in E. rewrite inject_Z_plus, <- E.
      change (inject_Z 1) with 1. ring.
    + rewrite IH. ring.
Qed.

Lemma count_bar_counted (best_stock : Q) (used : StockUsage) :
  bars_counted (count_bar best_stock used) = (bars_counted used + 1)%Z.
Proof.
  unfold bars_counted.
  induction used as [|[k n] rest IH]; cbn [count_bar map snd].
  - reflexivity.
  - destruct (Qeq_bool k best_stock); cbn [map snd]; rewrite !zsum_cons;
      [lia | rewrite IH; lia].
Qed.

Lemma track_all (patterns : list CuttingPattern) : forall t,
  usage_total (stock_lengths_used (fold_left track patterns t))
  == usage_total (stock_lengths_used t) + qsum (map stock_length patterns)
  /\ bars_counted (stock_lengths_used (fold_left track patterns t))
     = (bars_counted (stock_lengths_used t)
        + Z.of_nat (List.length patterns))%Z
  /\ total_stock_bars (fold_left track patterns t)
     = (total_stock_bars t + Z.of_nat (List.length patterns))%Z
  /\ total_waste (fold_left track patterns t)
     == total_waste t + qsum (map waste patterns).
Proof.
  induction patterns as [|pat pats IH]; intro t; cbn [fold_left map].
  - unfold qsum. cbn [fold_left List.length]. repeat split; try ring; lia.
  - destruct (IH (track t pat)) as (H1 & H2 & H3 & H4).
    rewrite H1, H2, H3, H4. unfold track at 1 2 3 4.
    cbn [stock_lengths_used total_stock_bars total_waste].
    rewrite count_bar_total, count_bar_counted, !qsum_cons.
    cbn [List.length]. repeat split; try ring; lia.
Qed.

Lemma track_usage (patterns : list CuttingPattern) : forall used b w b' w',
  stock_lengths_used (fold_left track patterns (mkTally used b w))
  = stock_lengths_used (fold_left track patterns (mkTally used b' w')).
Proof.
  induction patterns as [|pat pats IH]; intros used b w b' w';
    cbn [fold_left]; [reflexivity|].
  unfold track at 2 4. cbn [stock_lengths_used total_stock_bars total_waste].
  apply IH.
Qed.

(** ** The pass over the groups *)

Section Groups.

Variable tan : Q -> Q.
Variable stock_lengths_list : list Q.

Lemma nest_group_entries (run : Run) (group : Q * list Part) :
  profile_nestings (nest_group tan stock_lengths_list run group)
  = profile_nestings run ++ entries_of tan stock_lengths_list group.
Proof.
  unfold entries_of, nest_group. destruct group as [depth pool].
  destruct pool as [|p0 ps]; cbn [profile_nestings];
    [now rewrite app_nil_r|].
  cbn [app]. do 2 f_equal.
  f_equal. apply track_usage.
Qed.

Lemma fold_nest_group_entries (groups : list (Q * list Part)) : forall run,
  profile_nestings (fold_left (nest_group tan stock_lengths_list) groups run)
  = profile_nestings run
    ++ flat_map (entries_of tan stock_lengths_list) groups.
Proof.
  induction groups as [|g gs IH]; intro run; cbn [fold_left flat_map].
  - now rewrite app_nil_r.
  - rewrite IH, nest_group_entries, app_assoc. reflexivity.
Qed.

(** What the counters hold between two groups. *)
Lemma nest_group_counters (run : Run) (group : Q * list Part) :
  total_stock_length_used (profile_nestings run)
  == qsum (map stock_length (all_patterns (profile_nestings run))) ->
  run_total_stock_bars run
  = Z.of_nat (List.length (all_patterns (profile_nestings run))) ->
  run_total_waste run
  == qsum (map waste (all_patterns (profile_nestings run))) ->
  run_total_parts run = zsum (map pn_total_parts (profile_nestings run)) ->
  Forall
    (fun p =>
       bars_counted (pn_stock_lengths_used p)
       = Z.of_nat (List.length (pn_cutting_patterns p)))
    (profile_nestings run) ->
  let run' := nest_group tan stock_lengths_list run group in
  total_stock_length_used (profile_nestings run')
  == qsum (map stock_length (all_patterns (profile_nestings run')))
  /\ run_total_stock_bars run'
     = Z.of_nat (List.length (all_patterns (profile_nestings run')))
  /\ run_total_waste run'
     == qsum (map waste (all_patterns (profile_nestings run')))
  /\ run_total_parts run' = zsum (map pn_total_parts (profile_nestings run'))
  /\ Forall
       (fun p =>
          bars_counted (pn_stock_lengths_used p)
          = Z.of_nat (List.length (pn_cutting_patterns p)))
       (profile_nestings run').
Proof.
  intros Hused Hbars Hwaste Hparts Hcount. unfold nest_group.
  destruct group as [depth pool].
  destruct pool as [|p0 ps]; [cbv zeta; tauto|].
  set (patterns :=
         cutting_patterns
           (nest_profile tan depth stock_lengths_list (p0 :: ps))).
  cbv zeta. cbn [profile_nestings run_total_stock_bars run_total_waste
                 run_total_parts].
  destruct (track_all patterns
              (mkTally [] (run_total_stock_bars run) (run_total_waste run)))
    as (H1 & H2 & H3 & H4).
  cbn [stock_lengths_used total_stock_bars total_waste] in H1, H2, H3, H4.
  unfold total_stock_length_used, all_patterns in *.
  rewrite !flat_map_app, !map_app, !qsum_app, !length_app, zsum_app.
  cbn [flat_map map pn_stock_lengths_used pn_cutting_patterns pn_total_parts].
  rewrite !app_nil_r.
  fold (usage_total
          (stock_lengths_used
             (fold_left track patterns
                (mkTally [] (run_total_stock_bars run)
                   (run_total_waste run))))).
  split; [rewrite H1, Hused; unfold usage_total, qsum; cbn [map fold_left];
          ring|].
  split; [rewrite H3, Hbars; lia|].
  split; [rewrite H4, Hwaste; reflexivity|].
  split; [rewrite Hparts, zsum_cons; change (zsum []) with 0%Z; lia|].
  apply Forall_app; split; [exact Hcount|].
  constructor; [|constructor]. cbn [pn_stock_lengths_used pn_cutting_patterns].
  rewrite H2. reflexivity.
Qed.

Lemma fold_nest_group_counters (groups : list (Q * list Part)) :
  forall run,
    total_stock_length_used (profile_nestings run)
    == qsum (map stock_length (all_patterns (profile_nestings run))) ->
    run_total_stock_bars run
    = Z.of_nat (List.length (all_patterns (profile_nestings run))) ->
    run_total_waste run
    == qsum (map waste (all_patterns (profile_nestings run))) ->
    run_total_parts run = zsum (map pn_total_parts (profile_nestings run)) ->
    Forall
      (fun p =>
         bars_counted (pn_stock_lengths_used p)
         = Z.of_nat (List.length (pn_cutting_patterns p)))
      (profile_nestings run) ->
    let run' := fold_left (nest_group tan stock_lengths_list) groups run in
    total_stock_length_used (profile_nestings run')
    == qsum (map stock_length (all_patterns (profile_nestings run')))
    /\ run_total_stock_bars run'
       = Z.of_nat (List.length (all_patterns (profile_nestings run')))
    /\ run_total_waste run'
       == qsum (map waste (all_patterns (profile_nestings run')))
    /\ run_total_parts run'
       = zsum (map pn_total_parts (profile_nestings run'))
    /\ Forall
         (fun p =>
            bars_counted (pn_stock_lengths_used p)
            = Z.of_nat (List.length (pn_cutting_patterns p)))
         (profile_nestings run').
Proof.
  induction groups as [|g gs IH]; intros run H1 H2 H3 H4 H5;
    cbn [fold_left]; [cbv zeta; tauto|].
  destruct (nest_group_counters run g H1 H2 H3 H4 H5)
    as (K1 & K2 & K3 & K4 & K5).
  apply IH; assumption.
Qed.

(** X14 ([generate_nesting], main.py 2742-2773 and 4296-4345).  The
    counters of the report agree with its patterns: the stock length read
    back from the [stock_lengths_used] dictionaries is the sum of the
    stock lengths of all patterns, [total_stock_bars] is the number of
    patterns, [total_waste] the sum of their waste, [total_parts] the sum
    of the [total_parts] of the profiles, and the counts of every
    [stock_lengths_used] add up to the number of patterns of its
    profile. *)
Theorem report_counters_add_up (groups : list (Q * list Part)) :
  total_stock_length_used (fst (nesting_report tan stock_lengths_list groups))
  == qsum
       (map stock_length
          (all_patterns (fst (nesting_report tan stock_lengths_list groups))))
  /\ sm_total_stock_bars (snd (nesting_report tan stock_lengths_list groups))
     = Z.of_nat
         (List.length
            (all_patterns
               (fst (nesting_report tan stock_lengths_list groups))))
  /\ sm_total_waste (snd (nesting_report tan stock_lengths_list groups))
     == qsum
          (map waste
             (all_patterns
                (fst (nesting_report tan stock_lengths_list groups))))
  /\ sm_total_parts (snd (nesting_report tan stock_lengths_list groups))
     = zsum
         (map pn_total_parts
            (fst (nesting_report tan stock_lengths_list groups)))
  /\ Forall
       (fun p =>
          bars_counted (pn_stock_lengths_used p)
          = Z.of_nat (List.length (pn_cutting_patterns p)))
       (fst (nesting_report tan stock_lengths_list groups)).
Proof.
  unfold nesting_report.
  cbn [fst snd sm_total_stock_bars sm_total_waste sm_total_parts].
  apply fold_nest_group_counters; cbn [profile_nestings run_total_stock_bars
    run_total_waste run_total_parts]; try reflexivity.
  constructor.
Qed.

(** ** The entry of one group *)

Lemma entries_of_empty (depth : Q) :
  entries_of tan stock_lengths_list (depth, []) = [].
Proof. reflexivity. Qed.

Lemma entries_of_group (depth : Q) (pool : list Part) :
  pool <> [] ->
  exists p,
    entries_of tan stock_lengths_list (depth, pool) = [p]
    /\ pn_cutting_patterns p
       = cutting_patterns (nest_profile tan depth stock_lengths_list pool)
    /\ pn_rejected_parts p
       = rejected_parts (nest_profile tan depth stock_lengths_list pool)
    /\ pn_total_parts p
       = (let placed :=
            zsum
              (map (fun pat => Z.of_nat (List.length (parts pat)))
                 (cutting_patterns
                    (nest_profile tan depth stock_lengths_list pool))) in
          if (0 <? placed)%Z then placed else Z.of_nat (List.length pool))
    /\ pn_total_waste p
       = qsum
           (map waste
              (cutting_patterns
                 (nest_profile tan depth stock_lengths_list pool)))
    /\ pn_total_waste_percentage p
       = waste_pct (pn_total_waste p)
           (qsum
              (map stock_length
                 (cutting_patterns
                    (nest_profile tan depth stock_lengths_list pool)))).
Proof.
  intro Hne. destruct pool as [|p0 ps]; [now contradiction Hne|].
  unfold entries_of, nest_group. cbn [profile_nestings app].
  eexists. split; [reflexivity|].
  cbn [pn_cutting_patterns pn_rejected_parts pn_total_parts pn_total_waste
       pn_total_waste_percentage].
  repeat split; reflexivity.
Qed.

Lemma pattern_waste_bounds (depth : Q) (pool : list Part) :
  Forall (fun p => 0 <= length p) pool ->
  Forall (fun pat => 0 <= waste pat <= stock_length pat)
    (cutting_patterns (nest_profile tan depth stock_lengths_list pool)).
Proof.
  intro Hnn.
  pose proof (BarLoopFacts.nest_profile_geom tan depth stock_lengths_list pool Hnn)
    as Hgeom.
  eapply Forall_impl; [|exact Hgeom]. cbv beta.
  intros pat [Hc Hne Hlen _ _ Hw _].
  assert (Hs : 0 <= stock_length pat).
  { destruct (parts pat) as [|pp pps]; [now contradiction Hne|].
    inversion Hlen as [|x l [Ha Hb] _]; subst. lra. }
  rewrite Hw.
  destruct (pymin_spec (consumed_length pat) (stock_length pat))
    as [[-> H]|[-> H]]; split; lra.
Qed.

Lemma waste_sum_bounds (patterns : list CuttingPattern) :
  Forall (fun pat => 0 <= waste pat <= stock_length pat) patterns ->
  0 <= qsum (map waste patterns) <= qsum (map stock_length patterns).
Proof.
  induction 1 as [|pat l Hpat Hl IH]; cbn [map].
  - unfold qsum. cbn. split; lra.
  - rewrite !qsum_cons. split; lra.
Qed.

Lemma entries_patterns_bounds (group : Q * list Part) :
  Forall (fun p => 0 <= length p) (snd group) ->
  Forall
    (fun p =>
       Forall (fun pat => 0 <= waste pat <= stock_length pat)
         (pn_cutting_patterns p)
       /\ 0 <= pn_total_waste p
       /\ 0 <= pn_total_waste_percentage p <= 100)
    (entries_of tan stock_lengths_list group).
Proof.
  destruct group as [depth pool]. cbn [snd]. intro Hnn.
  destruct pool as [|p0 ps]; [rewrite entries_of_empty; constructor|].
  destruct (entries_of_group depth (p0 :: ps))
    as (p & -> & Hpat & _ & _ & Hw & Hpct); [discriminate|].
  constructor; [|constructor].
  pose proof (pattern_waste_bounds depth (p0 :: ps) Hnn) as Hb.
  pose proof (waste_sum_bounds _ Hb) as Hsum.
  rewrite Hpat, Hpct, Hw. split; [exact Hb|]. split; [tauto|].
  apply BarLoopFacts.waste_pct_range; tauto.
Qed.

Lemma all_patterns_bounds (groups : list (Q * list Part)) :
  Forall (fun g => Forall (fun p => 0 <= length p) (snd g)) groups ->
  Forall
    (fun p =>
       Forall (fun pat => 0 <= waste pat <= stock_length pat)
         (pn_cutting_patterns p)
       /\ 0 <= pn_total_waste p
       /\ 0 <= pn_total_waste_percentage p <= 100)
    (flat_map (entries_of tan stock_lengths_list) groups).
Proof.
  induction 1 as [|g gs Hg Hgs IH]; cbn [flat_map]; [constructor|].
  apply Forall_app; split; [apply entries_patterns_bounds; exact Hg | exact IH].
Qed.

Lemma report_profiles (groups : list (Q * list Part)) :
  fst (nesting_report tan stock_lengths_list groups)
  = flat_map (entries_of tan stock_lengths_list) groups.
Proof.
  unfold nesting_report. cbn [fst]. rewrite fold_nest_group_entries.
  reflexivity.
Qed.

Lemma Forall_flat_map {A B : Type} (P : B -> Prop) (f : A -> list B)
  (l : list A) :
  Forall (fun x => Forall P (f x)) l -> Forall P (flat_map f l).
Proof.
  induction 1 as [|x l Hx Hl IH]; cbn [flat_map]; [constructor|].
  apply Forall_app; split; assumption.
Qed.

(** X15 ([generate_nesting], main.py 4311-4345).  For parts of
    non-negative length, the [total_waste] of the summary lies between 0
    and the stock length used, [average_waste_percentage] between 0 and
    100, and every profile has a non-negative [total_waste] and a
    [total_waste_percentage] between 0 and 100. *)
Theorem report_waste_in_range (groups : list (Q * list Part)) :
  Forall (fun g => Forall (fun p => 0 <= length p) (snd g)) groups ->
  0 <= sm_total_waste (snd (nesting_report tan stock_lengths_list groups))
    <= total_stock_length_used
         (fst (nesting_report tan stock_lengths_list groups))
  /\ 0 <= sm_average_waste_percentage
            (snd (nesting_report tan stock_lengths_list groups)) <= 100
  /\ Forall
       (fun p =>
          0 <= pn_total_waste p /\ 0 <= pn_total_waste_percentage p <= 100)
       (fst (nesting_report tan stock_lengths_list groups)).
Proof.
  intro Hnn.
  pose proof (all_patterns_bounds groups Hnn) as Hall.
  rewrite <- report_profiles in Hall.
  assert (Hpats : Forall (fun pat => 0 <= waste pat <= stock_length pat)
                    (all_patterns
                       (fst (nesting_report tan stock_lengths_list groups)))).
  { apply Forall_flat_map. eapply Forall_impl; [|exact Hall].
    cbv beta. tauto. }
  apply waste_sum_bounds in Hpats.
  destruct (fold_nest_group_counters groups (mkRun [] 0%Z 0 0%Z))
    as (Hused & _ & Hwaste & _);
    cbn [profile_nestings run_total_stock_bars run_total_waste
         run_total_parts]; try reflexivity; [constructor|].
  assert (Hrange :
            0 <= sm_total_waste
                   (snd (nesting_report tan stock_lengths_list groups))
              <= total_stock_length_used
                   (fst (nesting_report tan stock_lengths_list groups))).
  { rewrite Hused, Hwaste. exact Hpats. }
  split; [exact Hrange|]. split.
  - change (sm_average_waste_percentage
              (snd (nesting_report tan stock_lengths_list groups)))
      with (waste_pct
              (sm_total_waste
                 (snd (nesting_report tan stock_lengths_list groups)))
              (total_stock_length_used
                 (fst (nesting_report tan stock_lengths_list groups)))).
    apply BarLoopFacts.waste_pct_range; tauto.
  - eapply Forall_impl; [|exact Hall]. cbv beta. tauto.
Qed.

(** ** Parts counted *)

Lemma placed_count (patterns : list CuttingPattern) :
  zsum (map (fun pat => Z.of_nat (List.length (parts pat))) patterns)
  = Z.of_nat
      (List.length
         (flat_map (fun pat => placement_ids (parts pat)) patterns)).
Proof.
  induction patterns as [|pat pats IH]; cbn [map flat_map]; [reflexivity|].
  rewrite zsum_cons, IH, length_app. unfold placement_ids at 2.
  rewrite length_map. lia.
Qed.

Lemma group_counts (depth : Q) (pool : list Part) :
  stock_lengths_list <> [] ->
  Forall (fun s => 0 <= s) stock_lengths_list ->
  NoDup (part_ids pool) ->
  (List.length pool <= 500)%nat ->
  List.length pool
  = (List.length
       (flat_map (fun pat => placement_ids (parts pat))
          (cutting_patterns (nest_profile tan depth stock_lengths_list pool)))
     + List.length
         (rejected_parts (nest_profile tan depth stock_lengths_list pool)))%nat.
Proof.
  intros Hne Hnn Hnd Hlen.
  pose proof (BarLoopFacts.nesting_loop_completes tan depth
                stock_lengths_list Hne Hnn (max_iterations pool)
                (mkLoop pool [] []) Hnd) as Hrem.
  pose proof (BarLoopFacts.nesting_loop_accounted tan depth
                stock_lengths_list (max_iterations pool)
                (mkLoop pool [] []) Hnd) as Hacc.
  fold (nest_profile tan depth stock_lengths_list pool) in Hrem, Hacc.
  cbn [remaining_parts] in Hrem.
  unfold accounted in Hacc.
  rewrite Hrem in Hacc by (unfold max_iterations; lia).
  cbn [cutting_patterns rejected_parts remaining_parts flat_map map app
       part_ids] in Hacc.
  apply Permutation_length in Hacc.
  unfold part_ids in Hacc.
  rewrite !length_app, !length_map in Hacc. cbn [List.length] in Hacc. lia.
Qed.

Lemma entries_total_parts (group : Q * list Part) :
  stock_lengths_list <> [] ->
  Forall (fun s => 0 <= s) stock_lengths_list ->
  snd group <> [] ->
  NoDup (part_ids (snd group)) ->
  (List.length (snd group) <= 500)%nat ->
  exists p,
    entries_of tan stock_lengths_list group = [p]
    /\ (List.length (pn_rejected_parts p) <= List.length (snd group))%nat
    /\ pn_total_parts p
       = Z.of_nat
           (if (List.length (pn_rejected_parts p)
                <? List.length (snd group))%nat
            then List.length (snd group) - List.length (pn_rejected_parts p)
            else List.length (snd group)).
Proof.
  destruct group as [depth pool]. cbn [snd]. intros Hne Hnn Hpool Hnd Hlen.
  destruct (entries_of_group depth pool Hpool)
    as (p & He & _ & Hrej & Htotal & _).
  exists p. split; [exact He|].
  pose proof (group_counts depth pool Hne Hnn Hnd Hlen) as Hcount.
  rewrite Hrej, Htotal. cbv zeta. rewrite placed_count.
  split; [lia|].
  destruct (Nat.ltb_spec
              (List.length
                 (rejected_parts
                    (nest_profile tan depth stock_lengths_list pool)))
              (List.length pool)) as [Hlt|Hge].
  - destruct (Z.ltb_spec 0
                (Z.of_nat
                   (List.length
                      (flat_map (fun pat => placement_ids (parts pat))
                         (cutting_patterns
                            (nest_profile tan depth stock_lengths_list
                               pool)))))); lia.
  - destruct (Z.ltb_spec 0
                (Z.of_nat
                   (List.length
                      (flat_map (fun pat => placement_ids (parts pat))
                         (cutting_patterns
                            (nest_profile tan depth stock_lengths_list
                               pool)))))); lia.
Qed.

(** X16 ([generate_nesting], main.py 4303-4327).  For non-empty groups of
    at most 500 parts with pairwise different product ids, and at least
    one stock length, none negative: the [total_parts] of a profile is the
    number of its parts less the rejected ones, except when every part
    of the profile was rejected, where it is the number of all its
    parts. *)
Theorem total_parts_leaves_out_rejected (groups : list (Q * list Part)) :
  stock_lengths_list <> [] ->
  Forall (fun s => 0 <= s) stock_lengths_list ->
  Forall
    (fun g =>
       snd g <> [] /\ NoDup (part_ids (snd g))
       /\ (List.length (snd g) <= 500)%nat)
    groups ->
  Forall2
    (fun g p =>
       (List.length (pn_rejected_parts p) <= List.length (snd g))%nat
       /\ pn_total_parts p
          = Z.of_nat
              (if (List.length (pn_rejected_parts p)
                   <? List.length (snd g))%nat
               then List.length (snd g) - List.length (pn_rejected_parts p)
               else List.length (snd g)))
    groups (fst (nesting_report tan stock_lengths_list groups)).
Proof.
  intros Hne Hnn Hgroups. rewrite report_profiles.
  induction Hgroups as [|g gs (Hg & Hnd & Hlen) Hgs IH]; cbn [flat_map];
    [constructor|].
  destruct (entries_total_parts g Hne Hnn Hg Hnd Hlen) as (p & -> & Hp).
  cbn [app]. constructor; [exact Hp | exact IH].
Qed.

End Groups.

(** ** Closed instances *)

Lemma sample_groups_nonneg :
  Forall (fun g => Forall (fun p => 0 <= length p) (snd g)) sample_groups.
Proof.
  unfold sample_groups, sample_pool. repeat constructor; cbn; lra.
Qed.

Lemma sample_groups_distinct :
  Forall
    (fun g =>
       snd g <> [] /\ NoDup (part_ids (snd g))
       /\ (List.length (snd g) <= 500)%nat)
    sample_groups.
Proof.
  unfold sample_groups, sample_pool.
  repeat constructor; cbn; try discriminate; try lia; intuition discriminate.
Qed.

Lemma report_waste_in_range_witness :
  Forall (fun g => Forall (fun p => 0 <= length p) (snd g)) sample_groups
  /\ 0 <= sm_total_waste
            (snd (nesting_report tan_unused sample_stock_lengths
                    sample_groups))
       <= total_stock_length_used
            (fst (nesting_report tan_unused sample_stock_lengths
                    sample_groups))
  /\ 0 <= sm_average_waste_percentage
            (snd (nesting_report tan_unused sample_stock_lengths
                    sample_groups)) <= 100
  /\ Forall
       (fun p =>
          0 <= pn_total_waste p /\ 0 <= pn_total_waste_percentage p <= 100)
       (fst (nesting_report tan_unused sample_stock_lengths sample_groups)).
Proof.
  split; [exact sample_groups_nonneg|].
  exact (report_waste_in_range tan_unused sample_stock_lengths sample_groups
           sample_groups_nonneg).
Defined.

Lemma total_parts_leaves_out_rejected_witness :
  Forall (fun s => 0 <= s) sample_stock_lengths
  /\ Forall
       (fun g =>
          snd g <> [] /\ NoDup (part_ids (snd g))
          /\ (List.length (snd g) <= 500)%nat)
       sample_groups
  /\ Forall2
       (fun g p =>
          (List.length (pn_rejected_parts p) <= List.length (snd g))%nat
          /\ pn_total_parts p
             = Z.of_nat
                 (if (List.length (pn_rejected_parts p)
                      <? List.length (snd g))%nat
                  then List.length (snd g)
                       - List.length (pn_rejected_parts p)
                  else List.length (snd g)))
       sample_groups
       (fst (nesting_report tan_unused sample_stock_lengths sample_groups)).
Proof.
  split; [exact BarLoopFacts.sample_stocks_nonneg|].
  split; [exact sample_groups_distinct|].
  apply (total_parts_leaves_out_rejected tan_unused sample_stock_lengths
           sample_groups).
  - discriminate.
  - exact BarLoopFacts.sample_stocks_nonneg.
  - exact sample_groups_distinct.
Defined.

End ReportFacts.

Module PartPreparationFacts.

Import Nesting.
Import PartPreparation.
Import NestingFacts.

Local Open Scope Q_scope.

(** ** Slope flags *)

Ltac qabs_cases x :=
  pattern (Qabs x); apply Qabs_case; intro.

Lemma has_slope_true (deviation confidence : Q) :
  has_slope deviation confidence = true
  <-> 1 < deviation /\ 0.3 < confidence.
Proof.
  unfold has_slope. rewrite andb_true_iff. split.
  - intros [H1 H2]. qprop. tauto.
  - intros [H1 H2]. split; apply Qltb_true; assumption.
Qed.

Lemma has_slope_low_confidence (deviation confidence : Q) :
  confidence <= 0.3 -> has_slope deviation confidence = false.
Proof.
  intro Hc. unfold has_slope.
  destruct (Qltb 0.3 confidence) eqn:E; [qprop; lra | apply andb_false_r].
Qed.

Lemma deviation_of_extracted (angle : Q) :
  0 <= angle <= 90 ->
  (angle < 60 /\ deviation_from_straight angle == angle)
  \/ (60 <= angle /\ deviation_from_straight angle == 90 - angle).
Proof.
  intros [H0 H90]. unfold deviation_from_straight.
  assert (Ha : Qabs angle == angle) by (apply Qabs_pos; exact H0).
  destruct (Qle_bool 60 (Qabs angle) && Qle_bool (Qabs angle) 120) eqn:E.
  - qprop. right. split; [lra|].
    rewrite Qabs_neg by lra. ring.
  - left. split; [|exact Ha].
    apply andb_false_iff in E. destruct E as [E|E]; qprop; lra.
Qed.

(** The test on one end, for an angle as the extractor measures it. *)
Lemma has_slope_of_extracted (angle confidence : Q) :
  0 <= angle <= 90 ->
  (has_slope (deviation_from_straight angle) confidence = true
   <-> 1 < angle < 89 /\ 0.3 < confidence).
Proof.
  intro Hrange. rewrite has_slope_true.
  destruct (deviation_of_extracted angle Hrange) as [[Hlt ->]|[Hge ->]];
    split; intros [H1 H2]; (split; [|try exact H2; try tauto]); lra.
Qed.

Lemma flag_of_cut (cut : option CutReading) :
  (forall c, cut = Some c -> 0 <= cr_angle_deg c <= 90) ->
  (match cut with
   | Some c =>
       has_slope (deviation_from_straight (cr_angle_deg c)) (cr_confidence c)
   | None => false
   end = true
   <-> exists c,
         cut = Some c /\ 1 < cr_angle_deg c < 89 /\ 0.3 < cr_confidence c).
Proof.
  intro Hrange. destruct cut as [c|].
  - rewrite (has_slope_of_extracted _ _ (Hrange c eq_refl)). split.
    + intro H. exists c. split; [reflexivity | exact H].
    + intros (c' & [= <-] & H). exact H.
  - split; [discriminate | intros (c' & H & _); discriminate H].
Qed.

(** X17 ([generate_nesting], main.py 2476-2582).  For a part of 500 mm or
    more whose end cuts, where it has them, are at angles between 0 and
    90 degrees, as the extractor measures them, the flags stored with the
    part follow the test of each end alone: [start_has_slope] is set
    exactly when there is a start cut at an angle strictly between 1 and
    89 degrees with a confidence above 0.3, and [end_has_slope] likewise.
    From 60 degrees on the angle is read as measured from the axis, so a
    cut within one degree of 90 counts as square. *)
Theorem long_part_flags_follow_the_tests (stale : option Q) (length_mm : Q)
  (start_cut end_cut : option CutReading) :
  500 <= length_mm ->
  (forall cut, start_cut = Some cut -> 0 <= cr_angle_deg cut <= 90) ->
  (forall cut, end_cut = Some cut -> 0 <= cr_angle_deg cut <= 90) ->
  (fst (fst (slope_flags stale length_mm start_cut end_cut)) = true
   <-> exists cut,
         start_cut = Some cut
         /\ 1 < cr_angle_deg cut < 89 /\ 0.3 < cr_confidence cut)
  /\ (snd (fst (slope_flags stale length_mm start_cut end_cut)) = true
      <-> exists cut,
            end_cut = Some cut
            /\ 1 < cr_angle_deg cut < 89 /\ 0.3 < cr_confidence cut).
Proof.
  intros Hlen Hstart Hend.
  assert (Elen : Qltb length_mm 500 = false) by (apply Qltb_false; exact Hlen).
  pose proof (flag_of_cut start_cut Hstart) as Hs.
  pose proof (flag_of_cut end_cut Hend) as He.
  unfold slope_flags. destruct end_cut as [e|]; cbv zeta.
  - rewrite Elen, andb_false_r. cbn [fst snd]. split; [exact Hs | exact He].
  - cbn [fst snd]. split; [exact Hs | exact He].
Qed.

(** X18 ([generate_nesting], main.py 2557-2582).  For a part shorter than
    500 mm whose two end cuts both deviate by more than 15 degrees with
    confidence at most 0.3, exactly one end is flagged: the start when its
    deviation is strictly larger, the end otherwise.  The test on the
    difference of the two deviations changes nothing. *)
Theorem short_part_flags_larger_deviation (stale : option Q) (length_mm : Q)
  (start_cut end_cut : CutReading) :
  cr_confidence start_cut <= 0.3 ->
  cr_confidence end_cut <= 0.3 ->
  length_mm < 500 ->
  15 < deviation_from_straight (cr_angle_deg start_cut) ->
  15 < deviation_from_straight (cr_angle_deg end_cut) ->
  fst (slope_flags stale length_mm (Some start_cut) (Some end_cut))
  = (Qltb (deviation_from_straight (cr_angle_deg end_cut))
       (deviation_from_straight (cr_angle_deg start_cut)),
     negb
       (Qltb (deviation_from_straight (cr_angle_deg end_cut))
          (deviation_from_straight (cr_angle_deg start_cut)))).
Proof.
  intros Hcs Hce Hlen Hds Hde. unfold slope_flags.
  rewrite (has_slope_low_confidence _ _ Hcs).
  rewrite (has_slope_low_confidence _ _ Hce).
  assert (E1 : Qltb (cr_confidence start_cut) 0.5 = true)
    by (apply Qltb_true; lra).
  assert (E2 : Qltb (cr_confidence end_cut) 0.5 = true)
    by (apply Qltb_true; lra).
  assert (E3 : Qltb length_mm 500 = true) by (apply Qltb_true; exact Hlen).
  assert (E4 : Qltb 15 (deviation_from_straight (cr_angle_deg start_cut))
               = true) by (apply Qltb_true; exact Hds).
  assert (E5 : Qltb 15 (deviation_from_straight (cr_angle_deg end_cut))
               = true) by (apply Qltb_true; exact Hde).
  rewrite E1, E2, E3, E4, E5. cbn [negb andb].
  destruct (Qltb (Qabs _) 2);
    destruct (Qltb (deviation_from_straight (cr_angle_deg end_cut))
                (deviation_from_straight (cr_angle_deg start_cut)));
    reflexivity.
Qed.

(** X19 ([generate_nesting], main.py 2476-2582).  Both ends of a part are
    flagged as sloped only when both end cuts exist and each passes the
    test on its own: deviation above 1 degree and confidence above 0.3.
    The rule for short parts never flags two ends. *)
Theorem both_flags_need_both_tests (stale : option Q) (length_mm : Q)
  (start_cut end_cut : option CutReading) :
  fst (slope_flags stale length_mm start_cut end_cut) = (true, true) ->
  exists s e,
    start_cut = Some s /\ end_cut = Some e
    /\ has_slope (deviation_from_straight (cr_angle_deg s)) (cr_confidence s)
       = true
    /\ has_slope (deviation_from_straight (cr_angle_deg e)) (cr_confidence e)
       = true.
Proof.
  unfold slope_flags.
  destruct end_cut as [e|]; [|cbn [fst]; intros [= _ H]; discriminate H].
  destruct start_cut as [s|].
  - destruct (has_slope (deviation_from_straight (cr_angle_deg s))
                (cr_confidence s)) eqn:Es;
      destruct (has_slope (deviation_from_straight (cr_angle_deg e))
                  (cr_confidence e)) eqn:Ee; cbn [negb andb];
      repeat match goal with
      | |- context [if ?c then _ else _] => destruct c
      end;
      cbn [fst]; intros [= ]; exists s, e; repeat split; assumption.
  - destruct (has_slope (deviation_from_straight (cr_angle_deg e))
                (cr_confidence e)) eqn:Ee; cbn [negb andb];
      repeat match goal with
      | |- context [if ?c then _ else _] => destruct c
      | |- context [match ?o with Some _ => _ | None => _ end] => destruct o
      end;
      cbn [fst]; intros [= ].
Qed.

(** X20 ([generate_nesting], main.py 2492-2514 and 2557-2582).  An element
    without a start cut is judged with the start deviation of an earlier
    element: when that value exceeds the deviation of its end cut, both
    above 15 degrees, the part is under 500 mm and the end confidence is
    at most 0.3, the part gets [start_has_slope] although it has no start
    cut.  The same element as the first of the request gets no flag. *)
Theorem stale_deviation_flags_missing_cut (previous length_mm : Q)
  (end_cut : CutReading) :
  cr_confidence end_cut <= 0.3 ->
  length_mm < 500 ->
  15 < deviation_from_straight (cr_angle_deg end_cut) ->
  deviation_from_straight (cr_angle_deg end_cut) < previous ->
  slope_flags (Some previous) length_mm None (Some end_cut)
  = ((true, false), Some previous)
  /\ slope_flags None length_mm None (Some end_cut) = ((false, false), None).
Proof.
  intros Hce Hlen Hde Hprev. unfold slope_flags.
  rewrite (has_slope_low_confidence _ _ Hce).
  assert (E1 : Qltb 0 0.5 = true) by reflexivity.
  assert (E2 : Qltb (cr_confidence end_cut) 0.5 = true)
    by (apply Qltb_true; lra).
  assert (E3 : Qltb length_mm 500 = true) by (apply Qltb_true; exact Hlen).
  assert (E4 : Qltb 15 previous = true) by (apply Qltb_true; lra).
  assert (E5 : Qltb 15 (deviation_from_straight (cr_angle_deg end_cut))
               = true) by (apply Qltb_true; exact Hde).
  assert (E6 : Qltb (deviation_from_straight (cr_angle_deg end_cut)) previous
               = true) by (apply Qltb_true; exact Hprev).
  rewrite E1, E2, E3, E4, E5, E6. cbn [negb andb].
  split; [|reflexivity]. destruct (Qltb (Qabs _) 2); reflexivity.
Qed.

(** ** The fallback length *)

Lemma lookup_In (key : string) (props : PropertySet) (v : PropertyValue) :
  lookup key props = Some v -> exists k, In (k, v) props.
Proof.
  induction props as [|[k w] rest IH]; cbn [lookup]; [discriminate|].
  destruct (String.eqb k key).
  - intros [= ->]. exists k. left. reflexivity.
  - intro H. destruct (IH H) as [k' Hk']. exists k'. right. exact Hk'.
Qed.

Lemma scan_keys_nonneg (keys : list string) (props : PropertySet)
  (length_mm : Q) :
  Forall
    (fun entry =>
       match snd entry with
       | NumberValue v => 0 <= v
       | OtherValue => True
       end)
    props ->
  0 <= length_mm -> 0 <= scan_keys keys props length_mm.
Proof.
  intros Hprops Hl. induction keys as [|key rest IH]; cbn [scan_keys];
    [exact Hl|].
  destruct (lookup key props) as [[v|]|] eqn:E; try exact IH.
  apply lookup_In in E. destruct E as [k Hk].
  rewrite Forall_forall in Hprops. specialize (Hprops _ Hk).
  cbn [snd] in Hprops. destruct (Qltb 100 v); lra.
Qed.

Lemma scan_psets_nonneg (psets : list PropertySet) : forall length_mm,
  lengths_not_negative psets ->
  0 <= length_mm -> 0 <= scan_psets psets length_mm.
Proof.
  unfold lengths_not_negative.
  induction psets as [|props rest IH]; intros length_mm Hp Hl;
    cbn [scan_psets]; [exact Hl|].
  inversion Hp as [|x l Hprops Hrest]; subst.
  pose proof (scan_keys_nonneg length_keys props length_mm Hprops Hl) as Hk.
  destruct (Qltb 0 (scan_keys length_keys props length_mm));
    [exact Hk | apply IH; assumption].
Qed.

Lemma weight_estimate_positive (weight : Q) :
  0 < weight -> 0 < weight / 75 * 1000.
Proof.
  intro Hw. assert (H : 0 < weight / 75).
  { apply Qlt_shift_div_l; lra. }
  lra.
Qed.

(** X21 ([generate_nesting], main.py 2601-2660).  The length stored in a
    part is never 0; it is positive when the extracted length is not
    negative, no property set holds a negative number and the bounding
    box is not negative. *)
Theorem part_length_never_zero (extracted : Q)
  (psets : option (list PropertySet)) (geometry weight : option Q) :
  ~ part_length extracted psets geometry weight == 0
  /\ (0 <= extracted ->
      (forall sets, psets = Some sets -> lengths_not_negative sets) ->
      (forall largest, geometry = Some largest -> 0 <= largest) ->
      0 < part_length extracted psets geometry weight).
Proof.
  unfold part_length. cbv zeta.
  destruct (Qeq_bool extracted 0) eqn:Ex; qprop.
  - destruct psets as [sets|]; [|split; [lra | intros; lra]].
    set (scanned := scan_psets sets extracted).
    assert (Hweight :
              forall l, l == 0 ->
                0 < (if Qeq_bool l 0
                     then match weight with
                          | Some weight =>
                              if Qltb 0 weight then weight / 75 * 1000
                              else 1000
                          | None => 1000
                          end
                     else l)).
    { intros l Hl. apply Qeq_bool_iff in Hl. rewrite Hl.
      destruct weight as [w|]; [|lra].
      destruct (Qltb 0 w) eqn:Ew; qprop;
        [apply weight_estimate_positive; exact Ew | lra]. }
    split.
    + destruct (Qeq_bool scanned 0) eqn:Es; qprop.
      * destruct geometry as [largest|].
        -- destruct (Qeq_bool (largest * 1000) 0) eqn:Eg; qprop;
             [|exact Eg].
           pose proof (Hweight (largest * 1000) Eg) as H.
           apply Qeq_bool_iff in Eg. rewrite Eg in H. lra.
        -- pose proof (Hweight scanned Es) as H.
           apply Qeq_bool_iff in Es. rewrite Es in *. lra.
      * pose proof Es as Eb. apply Qeq_bool_false in Eb. cbv iota.
        rewrite Eb. exact Es.
    + intros H0 Hsets Hgeom.
      assert (Hscan : 0 <= scanned).
      { apply scan_psets_nonneg; [apply Hsets; reflexivity | exact H0]. }
      destruct (Qeq_bool scanned 0) eqn:Es; qprop.
      * destruct geometry as [largest|].
        -- specialize (Hgeom largest eq_refl).
           destruct (Qeq_bool (largest * 1000) 0) eqn:Eg; qprop.
           ++ pose proof (Hweight (largest * 1000) Eg) as H.
              apply Qeq_bool_iff in Eg. rewrite Eg in H. exact H.
           ++ lra.
        -- pose proof (Hweight scanned Es) as H.
           apply Qeq_bool_iff in Es. rewrite Es in *. exact H.
      * pose proof Es as Eb. apply Qeq_bool_false in Eb. cbv iota.
        rewrite Eb. lra.
  - split; [exact Ex | intros; lra].
Qed.

(** ** Closed instances *)

Lemma long_part_flags_follow_the_tests_witness :
  500 <= 3000
  /\ (fst (fst (slope_flags None 3000 (Some mitre_30) (Some faint_18))) = true
      <-> exists cut,
            Some mitre_30 = Some cut
            /\ 1 < cr_angle_deg cut < 89 /\ 0.3 < cr_confidence cut)
  /\ (snd (fst (slope_flags None 3000 (Some mitre_30) (Some faint_18))) = true
      <-> exists cut,
            Some faint_18 = Some cut
            /\ 1 < cr_angle_deg cut < 89 /\ 0.3 < cr_confidence cut).
Proof.
  assert (H : 500 <= 3000) by lra.
  split; [exact H|].
  apply (long_part_flags_follow_the_tests None 3000 (Some mitre_30)
           (Some faint_18) H).
  - intros cut [= <-]. cbn. split; lra.
  - intros cut [= <-]. cbn. split; lra.
Defined.

Lemma short_part_flags_larger_deviation_witness :
  cr_confidence faint_20 <= 0.3
  /\ cr_confidence faint_18 <= 0.3
  /\ 400 < 500
  /\ 15 < deviation_from_straight (cr_angle_deg faint_20)
  /\ 15 < deviation_from_straight (cr_angle_deg faint_18)
  /\ fst (slope_flags None 400 (Some faint_20) (Some faint_18))
     = (Qltb (deviation_from_straight (cr_angle_deg faint_18))
          (deviation_from_straight (cr_angle_deg faint_20)),
        negb
          (Qltb (deviation_from_straight (cr_angle_deg faint_18))
             (deviation_from_straight (cr_angle_deg faint_20)))).
Proof.
  assert (H1 : cr_confidence faint_20 <= 0.3) by (cbn; lra).
  assert (H2 : cr_confidence faint_18 <= 0.3) by (cbn; lra).
  assert (H3 : 400 < 500) by lra.
  assert (H4 : 15 < deviation_from_straight (cr_angle_deg faint_20))
    by (vm_compute; reflexivity).
  assert (H5 : 15 < deviation_from_straight (cr_angle_deg faint_18))
    by (vm_compute; reflexivity).
  repeat (split; [assumption|]).
  exact (short_part_flags_larger_deviation None 400 faint_20 faint_18
           H1 H2 H3 H4 H5).
Defined.

Lemma both_flags_need_both_tests_witness :
  fst (slope_flags None 3000 (Some mitre_30) (Some mitre_45)) = (true, true)
  /\ exists s e,
       Some mitre_30 = Some s /\ Some mitre_45 = Some e
       /\ has_slope (deviation_from_straight (cr_angle_deg s))
            (cr_confidence s) = true
       /\ has_slope (deviation_from_straight (cr_angle_deg e))
            (cr_confidence e) = true.
Proof.
  assert (H : fst (slope_flags None 3000 (Some mitre_30) (Some mitre_45))
              = (true, true)) by (vm_compute; reflexivity).
  split; [exact H|].
  exact (both_flags_need_both_tests None 3000 (Some mitre_30)
           (Some mitre_45) H).
Defined.

Lemma stale_deviation_flags_missing_cut_witness :
  cr_confidence faint_18 <= 0.3
  /\ 400 < 500
  /\ 15 < deviation_from_straight (cr_angle_deg faint_18)
  /\ deviation_from_straight (cr_angle_deg faint_18) < 25
  /\ slope_flags (Some 25) 400 None (Some faint_18)
     = ((true, false), Some 25)
  /\ slope_flags None 400 None (Some faint_18) = ((false, false), None).
Proof.
  assert (H1 : cr_confidence faint_18 <= 0.3) by (cbn; lra).
  assert (H2 : 400 < 500) by lra.
  assert (H3 : 15 < deviation_from_straight (cr_angle_deg faint_18))
    by (vm_compute; reflexivity).
  assert (H4 : deviation_from_straight (cr_angle_deg faint_18) < 25)
    by (vm_compute; reflexivity).
  repeat (split; [assumption|]).
  exact (stale_deviation_flags_missing_cut 25 400 faint_18 H1 H2 H3 H4).
Defined.

End PartPreparationFacts.
